(** * Maze Clash server: maze generation, spawn placement, matchmaking, rooms

    A shallow embedding of [server.js] (the Node + Socket.IO server of Maze
    Clash) and the properties of its specification.  JavaScript numbers that
    the server uses as coordinates and sizes are integers ([Z]); arrays are
    lists read with [!!] and written in place with [<[ _ := _ ]>]; objects
    used as dictionaries are finite maps or insertion-ordered association
    lists; [Math.random] is an explicit source of draws that is threaded
    through the code.  The page script [public/index.js] of the client is
    embedded after the server, with the messages of the server as its
    input. *)

From stdpp Require Import base numbers option list list_numbers relations.
From stdpp Require Import strings pretty gmap.
From Stdlib Require Import ZArith Lia.

Local Open Scope Z_scope.

(** ** Outcomes of a run *)

Inductive failure : Type :=
| TypeError      (* property read or write on [undefined] *)
| StackExhausted (* [RangeError]: the call stack is exhausted *)
| OutOfModel.    (* a write past the end of an array, where JavaScript would
                    grow the array: never reached by the server *)

Inductive result (A : Type) : Type :=
| Done (a : A)
| Fail (e : failure).
Arguments Done {A} a.
Arguments Fail {A} e.

Definition rbind {A B} (m : result A) (k : A → result B) : result B :=
  match m with
  | Done a => k a
  | Fail e => Fail e
  end.

Notation "x ←r m ; k" := (rbind m (λ x, k))
  (at level 20, m at level 100, k at level 200, only parsing, right associativity).

(** ** Constants of the server *)

Definition MAZE_LOGICAL : Z := 7.
Definition TILE_EMPTY : Z := 0.
Definition TILE_WALL : Z := 1.

(** ** [Math.random] *)

(** The random source is a sequence of draws and a position in it.
    [Math.floor(Math.random() * k)] is an integer of [0, k) ([0] when
    [k <= 0]); every sequence of such integers is produced by some source. *)
Record rng : Type := Rng { rng_draws : Z → Z; rng_pos : Z }.

Definition random_below (k : Z) (r : rng) : Z * rng :=
  ((if bool_decide (0 < k) then rng_draws r (rng_pos r) `mod` k else 0),
   Rng (rng_draws r) (rng_pos r + 1)).

(** ** Arrays of arrays *)

Definition grid : Type := list (list Z).

(** [a[y][x]]: [TypeError] when the row [a[y]] is undefined, otherwise the
    element, [None] standing for [undefined]. *)
Definition array2_get {A} (a : list (list A)) (x y : Z) : result (option A) :=
  if bool_decide (0 ≤ y) then
    match a !! Z.to_nat y with
    | None => Fail TypeError
    | Some row => Done (if bool_decide (0 ≤ x) then row !! Z.to_nat x else None)
    end
  else Fail TypeError.

(** [a[y][x] = v]. *)
Definition array2_set {A} (a : list (list A)) (x y : Z) (v : A)
  : result (list (list A)) :=
  if bool_decide (0 ≤ y) then
    match a !! Z.to_nat y with
    | None => Fail TypeError
    | Some row =>
        if bool_decide (0 ≤ x ∧ (Z.to_nat x < length row)%nat)
        then Done (<[Z.to_nat y := <[Z.to_nat x := v]> row]> a)
        else Fail OutOfModel
    end
  else Fail TypeError.

(** The element at column [x] of row [y], when there is one. *)
Definition at2 {A} (a : list (list A)) (x y : Z) : option A :=
  if bool_decide (0 ≤ x ∧ 0 ≤ y) then a !! Z.to_nat y ≫= (.!! Z.to_nat x) else None.

(** ** generateMaze *)

Record gen_state : Type := GenState {
  gs_grid : grid;
  gs_visited : list (list bool);
  gs_rng : rng
}.

Definition set_tile (x y : Z) (v : Z) (st : gen_state) : result gen_state :=
  g ←r array2_set (gs_grid st) x y v;
  Done (GenState g (gs_visited st) (gs_rng st)).

Definition set_visited (x y : Z) (st : gen_state) : result gen_state :=
  v ←r array2_set (gs_visited st) x y true;
  Done (GenState (gs_grid st) v (gs_rng st)).

(** [!visited[ny][nx]] *)
Definition not_visited (x y : Z) (st : gen_state) : result bool :=
  v ←r array2_get (gs_visited st) x y;
  Done (match v with Some true => false | _ => true end).

(** [[dirs[i], dirs[j]] = [dirs[j], dirs[i]]] *)
Definition swap {A} (l : list A) (i j : nat) : list A :=
  match l !! i, l !! j with
  | Some a, Some b => <[j := a]> (<[i := b]> l)
  | _, _ => l
  end.

(** The Fisher-Yates loop [for (let i = dirs.length - 1; i > 0; i--)],
    entered with [i]. *)
Fixpoint shuffle_from (i : nat) (dirs : list (Z * Z)) (r : rng)
  : list (Z * Z) * rng :=
  match i with
  | O => (dirs, r)
  | S i' =>
      let '(j, r') := random_below (Z.of_nat i + 1) r in
      shuffle_from i' (swap dirs i (Z.to_nat j)) r'
  end.

Definition shuffle (dirs : list (Z * Z)) (r : rng) : list (Z * Z) * rng :=
  shuffle_from (length dirs - 1) dirs r.

Definition dirs0 : list (Z * Z) := [(1, 0); (-1, 0); (0, 1); (0, -1)].

(** The loop [for (const [dx, dy] of dirs)] of [carve(cx, cy)]; [rec] is the
    recursive call [carve]. *)
Fixpoint carve_dirs (rec : Z → Z → gen_state → result gen_state)
    (w h cx cy : Z) (dirs : list (Z * Z)) (st : gen_state) : result gen_state :=
  match dirs with
  | [] => Done st
  | (dx, dy) :: ds =>
      let nx := cx + dx in
      let ny := cy + dy in
      if bool_decide (0 ≤ nx ∧ nx < w ∧ 0 ≤ ny ∧ ny < h) then
        fresh ←r not_visited nx ny st;
        if fresh : bool then
          st ←r set_tile (cx * 2 + 1 + dx) (cy * 2 + 1 + dy) TILE_EMPTY st;
          st ←r set_tile (nx * 2 + 1) (ny * 2 + 1) TILE_EMPTY st;
          st ←r rec nx ny st;
          carve_dirs rec w h cx cy ds st
        else carve_dirs rec w h cx cy ds st
      else carve_dirs rec w h cx cy ds st
  end.

(** [carve(cx, cy)] on a call stack with room for [fuel] nested calls: the
    call that finds no room throws. *)
Fixpoint carve (fuel : nat) (w h cx cy : Z) (st : gen_state) : result gen_state :=
  match fuel with
  | O => Fail StackExhausted
  | S fuel' =>
      st ←r set_visited cx cy st;
      st ←r set_tile (cx * 2 + 1) (cy * 2 + 1) TILE_EMPTY st;
      let '(dirs, r) := shuffle dirs0 (gs_rng st) in
      carve_dirs (carve fuel' w h) w h cx cy dirs
        (GenState (gs_grid st) (gs_visited st) r)
  end.

Record maze : Type := Maze { maze_grid : grid; maze_width : Z; maze_height : Z }.

(** [Array.from({ length: h }, () => Array(w).fill(v))] *)
Definition filled {A} (w h : Z) (v : A) : list (list A) :=
  replicate (Z.to_nat h) (replicate (Z.to_nat w) v).

(** The body of [generateMaze(n)], run on a call stack with room for
    [fuel] nested calls of [carve]. *)
Definition generateMaze_fuel (fuel : nat) (n : Z) (r : rng) : result (maze * rng) :=
  let w := n in
  let h := n in
  let gridW := w * 2 + 1 in
  let gridH := h * 2 + 1 in
  let g := filled gridW gridH TILE_WALL in
  let visited := filled w h false in
  st ←r carve fuel w h 0 0 (GenState g visited r);
  Done (Maze (gs_grid st) gridW gridH, gs_rng st).

(** [generateMaze(n)] on a call stack that is deep enough for it.  The
    calls of [carve] nest as deep as [n * n] and no deeper, and the first
    call is always made: with room for [max(1, n * n)] calls the run is the
    same as with any deeper stack.  The run on a stack of a given depth is
    [generateMaze_fuel]; the server calls [generateMaze(7)], 49 calls deep
    at most. *)
Definition generateMaze (n : Z) (r : rng) : result (maze * rng) :=
  generateMaze_fuel (Z.to_nat (Z.max 1 (n * n))) n r.


(** ** pickRandomCell *)

(** [grid[y][x] === TILE_EMPTY], for a row [y] of the grid. *)
Definition is_empty (g : grid) (x y : Z) : bool :=
  bool_decide (at2 g x y = Some TILE_EMPTY).

(** The order of [for (let y = 0; y < h; y++) for (let x = 0; x < w; x++)]. *)
Definition scan_order (w h : Z) : list (Z * Z) :=
  y ← seqZ 0 h; (λ x, (x, y)) <$> seqZ 0 w.

(** The first loop of [pickRandomCell]: up to [attempts] random draws. *)
Fixpoint pick_draws (attempts : nat) (g : grid) (regionTest : Z → Z → bool)
    (w h : Z) (r : rng) : option (Z * Z) * rng :=
  match attempts with
  | O => (None, r)
  | S attempts' =>
      let '(x, r) := random_below w r in
      let '(y, r) := random_below h r in
      if is_empty g x y && regionTest x y then (Some (x, y), r)
      else pick_draws attempts' g regionTest w h r
  end.

Definition pickRandomCell (g : grid) (regionTest : Z → Z → bool) (attempts : nat)
    (r : rng) : result ((Z * Z) * rng) :=
  match g with
  | [] => Fail TypeError (* [grid[0].length] *)
  | row0 :: _ =>
      let h := Z.of_nat (length g) in
      let w := Z.of_nat (length row0) in
      match pick_draws attempts g regionTest w h r with
      | (Some c, r) => Done (c, r)
      | (None, r) =>
          match find (λ c, is_empty g c.1 c.2 && regionTest c.1 c.2) (scan_order w h) with
          | Some c => Done (c, r)
          | None =>
              match find (λ c, is_empty g c.1 c.2) (scan_order w h) with
              | Some c => Done (c, r)
              | None => Done ((1, 1), r)
              end
          end
      end
  end.

(** ** distance and the placement of the two spawns *)

(** [distance(a, b)] is [Math.sqrt(dx * dx + dy * dy)].  The server only
    compares distances: with each other, with [-1] and with
    [minDist = Math.max(gridW, gridH) * 0.45].  A distance is represented
    by its square, an integer, and [-1] by itself; this keeps every
    comparison, since the square root is increasing and [sqrt s < 0.45 * m]
    exactly when [400 * s < 81 * m * m].  (On a generated maze [m] is odd,
    so [400 * s] and [81 * m * m] differ by at least 1 and the rounding of
    the floating-point product and root cannot change the outcome.) *)
Definition distance (a b : Z * Z) : Z :=
  let dx := a.1 - b.1 in
  let dy := a.2 - b.2 in
  dx * dx + dy * dy.

(** [distance(aStart, bStart) < minDist], with [minDist = m * 0.45]. *)
Definition too_close (a b : Z * Z) (m : Z) : bool :=
  bool_decide (400 * distance a b < 81 * m * m).

(** [x <= Math.floor(gridW * 0.33) || y <= Math.floor(gridH * 0.33)], with
    the floor taken of the exact product [33 * gridW / 100] (never an integer
    for the odd sizes of generated mazes, so rounding cannot change it). *)
Definition leftTopTest (gridW gridH x y : Z) : bool :=
  bool_decide (x ≤ (33 * gridW) `div` 100) || bool_decide (y ≤ (33 * gridH) `div` 100).

(** [x >= Math.ceil(gridW * 0.66) || y >= Math.ceil(gridH * 0.66)], with
    the ceiling taken of the exact product [66 * gridW / 100]. *)
Definition rightBottomTest (gridW gridH x y : Z) : bool :=
  bool_decide (- ((- (66 * gridW)) `div` 100) ≤ x) ||
  bool_decide (- ((- (66 * gridH)) `div` 100) ≤ y).

(** The loop [while (distance(aStart, bStart) < minDist && tries < 200)],
    with [budget = 200 - tries] rounds left. *)
Fixpoint retry_spawns (budget : nat) (g : grid) (gridW gridH : Z)
    (a b : Z * Z) (tries : Z) (r : rng) : result ((Z * Z) * (Z * Z) * Z * rng) :=
  if too_close a b (Z.max gridW gridH) then
    match budget with
    | O => Done (a, b, tries, r)
    | S budget' =>
        ar ←r pickRandomCell g (leftTopTest gridW gridH) 500 r;
        br ←r pickRandomCell g (rightBottomTest gridW gridH) 500 ar.2;
        retry_spawns budget' g gridW gridH ar.1 br.1 (tries + 1) br.2
    end
  else Done (a, b, tries, r).

(** The exhaustive scan for the tile farthest from [a]: [cs] are the
    positions still to visit. *)
Fixpoint scan_best (g : grid) (a : Z * Z) (cs : list (Z * Z))
    (best : Z * Z) (bestD : Z) : result ((Z * Z) * Z) :=
  match cs with
  | [] => Done (best, bestD)
  | c :: cs' =>
      t ←r array2_get g c.1 c.2;
      if bool_decide (t ≠ Some TILE_EMPTY) then scan_best g a cs' best bestD
      else
        let d := distance a c in
        if bool_decide (bestD < d) then scan_best g a cs' c d
        else scan_best g a cs' best bestD
  end.

(** Lines 144-171 of the [findMatch] handler: the two spawns (and the final
    value of [tries]). *)
Definition placeSpawns (m : maze) (r : rng) : result ((Z * Z) * (Z * Z) * Z * rng) :=
  let g := maze_grid m in
  let gridW := maze_width m in
  let gridH := maze_height m in
  ar ←r pickRandomCell g (leftTopTest gridW gridH) 500 r;
  br ←r pickRandomCell g (rightBottomTest gridW gridH) 500 ar.2;
  s ←r retry_spawns 200 g gridW gridH ar.1 br.1 0 br.2;
  let '(aStart, bStart, tries, r) := s in
  if too_close aStart bStart (Z.max gridW gridH) then
    bd ←r scan_best g aStart (scan_order gridW gridH) aStart (-1);
    Done (aStart, bd.1, tries, r)
  else Done (aStart, bStart, tries, r).

(** ** JavaScript objects used as dictionaries *)

(** Own properties in insertion order (the order of [for ... in] for keys
    that are not array indices). *)
Abbreviation jsobj A := (list (string * A)).

Fixpoint obj_get {A} (o : jsobj A) (k : string) : option A :=
  match o with
  | [] => None
  | (k', v) :: o' => if decide (k' = k) then Some v else obj_get o' k
  end.

(** [o[k] = v] *)
Fixpoint obj_set {A} (o : jsobj A) (k : string) (v : A) : jsobj A :=
  match o with
  | [] => [(k, v)]
  | (k', v') :: o' =>
      if decide (k' = k) then (k, v) :: o' else (k', v') :: obj_set o' k v
  end.

(** [delete o[k]] *)
Definition obj_delete {A} (o : jsobj A) (k : string) : jsobj A :=
  filter (λ kv, kv.1 ≠ k) o.

(** The properties every object literal inherits from [Object.prototype]. *)
Definition object_prototype_keys : list string :=
  ["constructor"; "hasOwnProperty"; "isPrototypeOf"; "propertyIsEnumerable";
   "toLocaleString"; "toString"; "valueOf"; "__proto__";
   "__defineGetter__"; "__defineSetter__"; "__lookupGetter__"; "__lookupSetter__"].

(** The value of [o[k]] for a key [k] chosen by a client: an own property,
    a property inherited from [Object.prototype] (a function, or the
    prototype itself: truthy, and without the fields the server reads), or
    [undefined]. *)
Inductive js_prop (A : Type) : Type :=
| Own (a : A)
| Inherited
| Missing.
Arguments Own {A} a.
Arguments Inherited {A}.
Arguments Missing {A}.

Definition obj_lookup {A} (o : jsobj A) (k : string) : js_prop A :=
  match obj_get o k with
  | Some a => Own a
  | None => if bool_decide (k ∈ object_prototype_keys) then Inherited else Missing
  end.

(** ** Players, rooms, messages *)

Record player : Type := Player {
  pl_id : string;
  pl_x : Z;
  pl_y : Z;
  pl_color : string;
  pl_exitX : Z;
  pl_exitY : Z
}.

(** [{ x, y, color, exitX, exitY }] as sent to the clients. *)
Record player_view : Type := PlayerView {
  pv_x : Z;
  pv_y : Z;
  pv_color : string;
  pv_exitX : Z;
  pv_exitY : Z
}.

Definition view (p : player) : player_view :=
  PlayerView (pl_x p) (pl_y p) (pl_color p) (pl_exitX p) (pl_exitY p).

(** [{ maze, players }]; [players] is keyed by socket id.  Socket ids are
    generated by Socket.IO, never chosen by a client, and are looked up as
    own properties. *)
Record room : Type := Room {
  room_maze : maze;
  room_players : gmap string player
}.

Inductive message : Type :=
| Status (text : string)
| MatchFound (roomId : string) (mazeGrid : grid) (width height : Z)
             (players : gmap string player_view)
| State (players : gmap string player_view)
| GameOver (winner : string) (winnerColor : string)
| RevealMaze (mazeGrid : grid)
| OpponentDisconnected.

(** One [emit]: the sockets it reaches, and the message. *)
Record emission : Type := Emit { em_to : gset string; em_msg : message }.

(** ** The server *)

(** [waitingSocket] is kept by its id; [channels] is Socket.IO's table of
    rooms (room name to member sockets); [timers] are the pending
    [setTimeout] callbacks, each with its due time and the room it tears
    down; [random] is the state of [Math.random]. *)
Record server : Type := Server {
  waitingSocket : option string;
  rooms : jsobj room;
  channels : gmap string (gset string);
  timers : list (Z * string);
  random : rng
}.

Definition init_server (r : rng) : server := Server None [] ∅ [] r.

Definition members (ch : gmap string (gset string)) (roomId : string) : gset string :=
  default ∅ (ch !! roomId).

(** [socket.join(roomId)] *)
Definition join (sid roomId : string) (ch : gmap string (gset string))
  : gmap string (gset string) :=
  <[roomId := {[sid]} ∪ members ch roomId]> ch.

(** [`r-${a}-${b}-${Date.now()}`] *)
Definition makeRoomId (a b : string) (now : Z) : string :=
  "r-" +:+ a +:+ "-" +:+ b +:+ "-" +:+ pretty now.

(** The [findMatch] handler of socket [sid], run at time [now]. *)
Definition findMatch (sid : string) (now : Z) (st : server)
  : result (server * list emission) :=
  match waitingSocket st with
  | None =>
      Done (Server (Some sid) (rooms st) (channels st) (timers st) (random st),
            [Emit {[sid]} (Status "Waiting for an opponent...")])
  | Some wid =>
      if decide (wid = sid) then
        Done (st, [Emit {[sid]} (Status "Still waiting...")])
      else
        let roomId := makeRoomId wid sid now in
        mr ←r generateMaze MAZE_LOGICAL (random st);
        let mazeObj := mr.1 in
        s ←r placeSpawns mazeObj mr.2;
        let '(aStart, bStart, _, rnd) := s in
        let pA := Player wid aStart.1 aStart.2 "#34ff72" bStart.1 bStart.2 in
        let pB := Player sid bStart.1 bStart.2 "#ff4d9e" aStart.1 aStart.2 in
        let rooms' :=
          obj_set (rooms st) roomId
            (Room mazeObj (<[pl_id pB := pB]> (<[pl_id pA := pA]> ∅))) in
        let channels' := join sid roomId (join wid roomId (channels st)) in
        Done (Server None rooms' channels' (timers st) rnd,
              [Emit (members channels' roomId)
                 (MatchFound roomId (maze_grid mazeObj)
                    (maze_width mazeObj) (maze_height mazeObj)
                    (<[pl_id pB := view pB]> (<[pl_id pA := view pA]> ∅)));
               Emit (members channels' roomId)
                 (Status "Game started — reach the glowing exit!")])
  end.

Definition deltas : jsobj (Z * Z) :=
  [("up", (0, -1)); ("down", (0, 1)); ("left", (-1, 0)); ("right", (1, 0))].

(** The body of the [move] handler of socket [sid], run at time [now] with
    the two properties [roomId] and [dir] of the payload.  Both are used as
    property keys (and [roomId] as the name of a channel): they are the
    strings the values turn into as keys, [undefined] for a property the
    payload does not have.  The sender is looked up by its socket id, which
    Socket.IO generates and which is no name of an inherited property. *)
Definition move (sid roomId dir : string) (now : Z) (st : server)
  : result (server * list emission) :=
  match obj_lookup (rooms st) roomId with
  | Missing => Done (st, [])
  | Inherited => Fail TypeError (* [r.players] is undefined *)
  | Own r =>
      match room_players r !! sid with
      | None => Done (st, [])
      | Some player =>
          match obj_lookup deltas dir with
          | Missing => Done (st, [])
          | Inherited =>
              (* [d[0]] and [d[1]] are undefined, [nx] and [ny] are [NaN],
                 no comparison with [NaN] holds, and [r.maze.grid[NaN]] is
                 undefined *)
              Fail TypeError
          | Own d =>
              let nx := pl_x player + d.1 in
              let ny := pl_y player + d.2 in
              if bool_decide (nx < 0 ∨ ny < 0 ∨ maze_width (room_maze r) ≤ nx ∨
                              maze_height (room_maze r) ≤ ny)
              then Done (st, [])
              else
                t ←r array2_get (maze_grid (room_maze r)) nx ny;
                if bool_decide (t = Some TILE_WALL) then Done (st, [])
                else
                  let player' :=
                    Player (pl_id player) nx ny (pl_color player)
                           (pl_exitX player) (pl_exitY player) in
                  let r' := Room (room_maze r) (<[sid := player']> (room_players r)) in
                  let rooms' := obj_set (rooms st) roomId r' in
                  let to := members (channels st) roomId in
                  let state := view <$> room_players r' in
                  if bool_decide (pl_x player' = pl_exitX player' ∧
                                  pl_y player' = pl_exitY player')
                  then
                    Done (Server (waitingSocket st) rooms' (channels st)
                            (timers st ++ [(now + 4500, roomId)]) (random st),
                          [Emit to (State state);
                           Emit to (GameOver sid (pl_color player'));
                           Emit to (RevealMaze (maze_grid (room_maze r)))])
                  else
                    Done (Server (waitingSocket st) rooms' (channels st)
                            (timers st) (random st),
                          [Emit to (State state)])
          end
      end
  end.

(** [socket.on('move', ({ roomId, dir }) => ...)] for the payload the
    client sent: the destructuring of the parameter throws when the event
    carries no payload or [null] ([None]); of any other payload the two
    properties are read. *)
Definition on_move (sid : string) (payload : option (string * string)) (now : Z)
    (st : server) : result (server * list emission) :=
  match payload with
  | None => Fail TypeError
  | Some (roomId, dir) => move sid roomId dir now st
  end.

(** The loop [for (const roomId in rooms)] of the [disconnect] handler over
    the rooms [todo] still to visit. *)
Fixpoint disconnect_rooms (sid : string) (todo : list (string * room))
    (rs : jsobj room) (ch : gmap string (gset string)) (out : list emission)
  : jsobj room * gmap string (gset string) * list emission :=
  match todo with
  | [] => (rs, ch, out)
  | (roomId, r) :: todo' =>
      if bool_decide (is_Some (room_players r !! sid)) then
        disconnect_rooms sid todo'
          (obj_delete rs roomId)
          (<[roomId := members ch roomId ∖ dom (room_players r)]> ch)
          (out ++ [Emit (members ch roomId) OpponentDisconnected])
      else disconnect_rooms sid todo' rs ch out
  end.

(** The [disconnect] handler of socket [sid].  Socket.IO has made the socket
    leave all its rooms before it emits the event. *)
Definition disconnect (sid : string) (st : server) : result (server * list emission) :=
  let ch := (λ s : gset string, s ∖ {[sid]}) <$> channels st in
  let waiting :=
    match waitingSocket st with
    | Some wid => if decide (wid = sid) then None else Some wid
    | None => None
    end in
  let '(rs, ch, out) := disconnect_rooms sid (rooms st) (rooms st) ch [] in
  Done (Server waiting rs ch (timers st) (random st), out).

(** The callback of [setTimeout(..., 4500)] for [roomId]:
    [try { io.in(roomId).socketsLeave(roomId); } catch {}] and
    [delete rooms[roomId]]. *)
Definition teardown (roomId : string) (st : server) : result (server * list emission) :=
  Done (Server (waitingSocket st) (obj_delete (rooms st) roomId)
          (delete roomId (channels st)) (timers st) (random st), []).

(** The timers that are due at time [now] fire, in the order they were set;
    a timer never fires before it is due. *)
Definition due (now : Z) (t : Z * string) : Prop := t.1 ≤ now.

#[global] Instance due_dec now t : Decision (due now t).
Proof. unfold due. apply _. Defined.

Definition run_timers (now : Z) (st : server) : server :=
  foldl (λ s t, match teardown t.2 s with Done (s', _) => s' | Fail _ => s end)
        (Server (waitingSocket st) (rooms st) (channels st)
           (filter (λ t, ¬ due now t) (timers st)) (random st))
        (filter (due now) (timers st)).
(** ** The client ([public/index.js])

    The page script keeps its state in [let] variables; they are the fields
    of [client].  The canvas and the status line are not part of the model:
    of [draw] the model keeps the test that decides whether a tile is shown
    and the reads of the maze, by which it can throw.  A handler is given
    in two parts: its assignments ([on_matchFound], [on_state], ...), and
    the handler as [socket.on] registers it ([deliver]), which ends with
    [draw()]. *)

Definition FOG_RADIUS : Z := 2.

Definition PALETTE : list string :=
  ["#FF9AA2"; "#FFB7B2"; "#FFDAC1"; "#E2F0CB"; "#B5EAD7"; "#C7CEEA"; "#FFF3B0"; "#F7D6FF"].

(** An entry of [players] on the client.  It is made from a player the
    server sent, so the coordinates are there; [color] is missing in an
    entry that a [state] message created without a colour. *)
Record client_player : Type := ClientPlayer {
  cp_x : Z;
  cp_y : Z;
  cp_color : option string;
  cp_exitX : Z;
  cp_exitY : Z
}.

Record client : Type := Client {
  c_roomId : option string;               (* [null] at the start *)
  c_maze : option grid;                   (* [null] at the start *)
  c_mazeW : Z;
  c_mazeH : Z;
  c_players : gmap string client_player;
  c_myId : option string;                 (* [null] before [connect] *)
  c_visible : option (list (list bool));  (* [null] at the start *)
  c_revealAll : bool
}.

Definition init_client : client := Client None None 0 0 ∅ None None false.

Definition with_visible (v : list (list bool)) (c : client) : client :=
  Client (c_roomId c) (c_maze c) (c_mazeW c) (c_mazeH c) (c_players c) (c_myId c)
         (Some v) (c_revealAll c).

Definition with_revealAll (b : bool) (c : client) : client :=
  Client (c_roomId c) (c_maze c) (c_mazeW c) (c_mazeH c) (c_players c) (c_myId c)
         (c_visible c) b.

(** [visible = Array.from({ length: h }, () => Array(w).fill(false))] *)
Definition initVisible (w h : Z) (c : client) : client :=
  with_visible (filled w h false) c.

(** [PALETTE[Math.abs(x * 31 + y * 17) % PALETTE.length]], [None] standing
    for [undefined]. *)
Definition tileColorFor (x y : Z) : option string :=
  let idx := Z.abs (x * 31 + y * 17) `mod` Z.of_nat (length PALETTE) in
  PALETTE !! Z.to_nat idx.

(** A [for] loop over the values [l] with the loop body [body]. *)
Fixpoint for_each {A S} (l : list A) (body : A → S → result S) (s : S) : result S :=
  match l with
  | [] => Done s
  | a :: l' => s' ←r body a s; for_each l' body s'
  end.

Definition revealAround (cx cy : Z) (c : client) : result client :=
  match c_visible c, c_maze c with
  | Some v, Some _ =>
      let r := FOG_RADIUS in
      v' ←r for_each (seqZ (- r) (2 * r + 1)) (λ dy v,
              for_each (seqZ (- r) (2 * r + 1)) (λ dx v,
                let nx := cx + dx in
                let ny := cy + dy in
                if bool_decide (0 ≤ nx ∧ 0 ≤ ny ∧ nx < c_mazeW c ∧ ny < c_mazeH c)
                then array2_set v nx ny true
                else Done v) v) v;
      Done (with_visible v' c)
  | _, _ => Done c
  end.

(** The key under which [players[myId]] is looked up: [null] is turned
    into the string [null]. *)
Definition my_key (c : client) : string := default "null" (c_myId c).

(** [if (players[myId]) revealAround(players[myId].x, players[myId].y)].
    For a key that [players] only inherits, the value is truthy and has no
    [x] and [y]: [revealAround(undefined, undefined)] passes no bounds test
    and writes nothing, like the call that is not made. *)
Definition reveal_me (c : client) : result client :=
  match c_players c !! my_key c with
  | Some p => revealAround (cp_x p) (cp_y p) c
  | None => Done c
  end.

(** [socket.on('connect')] *)
Definition on_connect (id : string) (c : client) : client :=
  Client (c_roomId c) (c_maze c) (c_mazeW c) (c_mazeH c) (c_players c) (Some id)
         (c_visible c) (c_revealAll c).

Definition of_view (v : player_view) : client_player :=
  ClientPlayer (pv_x v) (pv_y v) (Some (pv_color v)) (pv_exitX v) (pv_exitY v).

(** The assignments of [socket.on('matchFound')]; the fields [width] and
    [height] of the payload are not read. *)
Definition on_matchFound (roomId : string) (mazeGrid : grid)
    (players : gmap string player_view) (c : client) : result client :=
  let mazeH := Z.of_nat (length mazeGrid) in
  let mazeW := Z.of_nat (length (default [] (mazeGrid !! 0%nat))) in
  let c1 := Client (Some roomId) (Some mazeGrid) mazeW mazeH (of_view <$> players)
                   (c_myId c) (c_visible c) (c_revealAll c) in
  c2 ←r reveal_me (initVisible mazeW mazeH c1);
  Done (with_revealAll false c2).

(** The body of the loop of [socket.on('state')] for one player [s] of the
    message: [x] and [y] are copied, [color] when it is truthy, [exitX] and
    [exitY] when they are not [null], which a number never is. *)
Definition merge_view (old : option client_player) (s : player_view) : client_player :=
  ClientPlayer (pv_x s) (pv_y s)
    (if decide (pv_color s = "") then old ≫= cp_color else Some (pv_color s))
    (pv_exitX s) (pv_exitY s).

(** The assignments of [socket.on('state')], up to its [draw()].  The loop
    visits every key of the message once and
    writes only the entry of that key, so that the order of the visits does
    not matter.  For a key that [players] only inherits from
    [Object.prototype] the loop would write into the inherited object. *)
Definition on_state (state : gmap string player_view) (c : client) : result client :=
  ps ←r for_each (map_to_list state) (λ kv ps,
          match ps !! kv.1 with
          | Some old => Done (<[kv.1 := merge_view (Some old) kv.2]> ps)
          | None =>
              if bool_decide (kv.1 ∈ object_prototype_keys) then Fail OutOfModel
              else Done (<[kv.1 := merge_view None kv.2]> ps)
          end) (c_players c);
  let c1 := Client (c_roomId c) (c_maze c) (c_mazeW c) (c_mazeH c) ps (c_myId c)
                   (c_visible c) (c_revealAll c) in
  if c_revealAll c1 then Done c1 else reveal_me c1.

(** The assignments of [socket.on('gameOver')] and of
    [socket.on('opponentDisconnected')]. *)
Definition on_gameOver (c : client) : client := with_revealAll true c.

Definition on_opponentDisconnected (c : client) : client := with_revealAll true c.

(** The assignments of [socket.on('revealMaze')]: [maze[0].length] is read
    only when [visible] is still [null], and throws when the maze has no
    row. *)
Definition on_revealMaze (m : grid) (c : client) : result client :=
  let c1 := Client (c_roomId c) (Some m) (c_mazeW c) (c_mazeH c) (c_players c)
                   (c_myId c) (c_visible c) (c_revealAll c) in
  c2 ←r match c_visible c1 with
        | Some _ => Done c1
        | None =>
            match m with
            | [] => Fail TypeError
            | row :: _ =>
                Done (initVisible (Z.of_nat (length row)) (Z.of_nat (length m)) c1)
            end
        end;
  Done (with_revealAll true c2).

(** The assignments of the handler of a message of the server. *)
Definition on_message (m : message) (c : client) : result client :=
  match m with
  | Status _ => Done c
  | MatchFound roomId mazeGrid _ _ players => on_matchFound roomId mazeGrid players c
  | State players => on_state players c
  | GameOver _ _ => Done (on_gameOver c)
  | RevealMaze mazeGrid => on_revealMaze mazeGrid c
  | OpponentDisconnected => Done (on_opponentDisconnected c)
  end.

(** The test of [draw] for the tile [(x, y)]:
    [revealAll || (visible && visible[y] && visible[y][x])], and nothing is
    shown when [players[myId]] is falsy. *)
Definition isVisible (c : client) (x y : Z) : bool :=
  bool_decide (is_Some (c_players c !! my_key c) ∨ my_key c ∈ object_prototype_keys) &&
  (c_revealAll c ||
   match c_visible c with
   | Some v => bool_decide (at2 v x y = Some true)
   | None => false
   end).

(** [draw()], as far as it can fail.  [sized] says whether the canvas has a
    CSS width and height: without them [draw] clears the canvas and returns.
    Without a maze, or with a maze that has no row, it draws the
    placeholder.  Otherwise it visits the tiles of the [mazeW]×[mazeH] board
    row by row and reads [maze[y][x]] of every tile that is shown: this
    throws when the maze has no row [y].  The loops over the players read
    [visible] behind guards only, and drawing itself does not throw. *)
Definition draw (sized : bool) (c : client) : result unit :=
  if negb sized then Done tt
  else
    match c_maze c with
    | None | Some [] => Done tt
    | Some g =>
        for_each (seqZ 0 (c_mazeH c)) (λ y _,
          for_each (seqZ 0 (c_mazeW c)) (λ x _,
            if isVisible c x y then _ ←r array2_get g x y; Done tt
            else Done tt) tt) tt
    end.

(** The handler of a message as [socket.on] registers it: the assignments,
    then [draw()]; the handler of [status] only writes the status line.
    [sized] is the state of the canvas when [draw] runs (in the handler of
    [matchFound], after [resizeCanvas()], which draws the same state when
    it gives the canvas a size). *)
Definition deliver (sized : bool) (m : message) (c : client) : result client :=
  c' ←r on_message m c;
  match m with
  | Status _ => Done c'
  | _ => _ ←r draw sized c'; Done c'
  end.

Definition keyMap : jsobj string :=
  [("ArrowUp", "up"); ("KeyW", "up"); ("ArrowDown", "down"); ("KeyS", "down");
   ("ArrowLeft", "left"); ("KeyA", "left"); ("ArrowRight", "right"); ("KeyD", "right")].

(** The [keydown] listener: the payload [{ roomId, dir }] of the [move] it
    emits, if it emits one.  A key code that names a property of
    [Object.prototype] would send a function as [dir]; browsers have no such
    key code. *)
Definition keydown (code : string) (c : client) : result (option (string * string)) :=
  match obj_lookup keyMap code with
  | Own dir =>
      match c_roomId c with
      | Some roomId =>
          if bool_decide (dir ≠ "" ∧ roomId ≠ "") then Done (Some (roomId, dir))
          else Done None
      | None => Done None
      end
  | Inherited => Fail OutOfModel
  | Missing => Done None
  end.

Definition sample_rng : rng := Rng (λ i, i * 7 + 3) 0.

(** ** Reading and writing rectangular arrays *)

Definition dims {A} (w h : Z) (a : list (list A)) : Prop :=
  length a = Z.to_nat h ∧ Forall (λ row, length row = Z.to_nat w) a.

(** ** What a perfect maze is *)

(** Logical cell [(x, y)] of the [n]×[n] grid; its tile is
    [(2x+1, 2y+1)]. *)
Definition in_cells (n x y : Z) : Prop := (0 ≤ x < n) ∧ (0 ≤ y < n).

Definition empty_at (g : grid) (x y : Z) : Prop := at2 g x y = Some TILE_EMPTY.

Definition seen (v : list (list bool)) (x y : Z) : Prop := at2 v x y = Some true.

#[global] Instance empty_at_dec g x y : Decision (empty_at g x y).
Proof. unfold empty_at. apply _. Defined.

#[global] Instance seen_dec v x y : Decision (seen v x y).
Proof. unfold seen. apply _. Defined.

#[global] Instance in_cells_dec n x y : Decision (in_cells n x y).
Proof. unfold in_cells. apply _. Defined.

(** All logical cells, and all pairs of adjacent logical cells: [hwalls]
    lists [(x, y)] for the pair [(x, y)], [(x+1, y)], whose connecting tile
    is [(2x+2, 2y+1)]; [vwalls] lists [(x, y)] for the pair [(x, y)],
    [(x, y+1)], whose connecting tile is [(2x+1, 2y+2)]. *)
Definition positions (w h : Z) : list (Z * Z) :=
  x ← seqZ 0 w; (λ y, (x, y)) <$> seqZ 0 h.

Definition cells (n : Z) : list (Z * Z) := positions n n.
Definition hwalls (n : Z) : list (Z * Z) := positions (n - 1) n.
Definition vwalls (n : Z) : list (Z * Z) := positions n (n - 1).

Definition cell_open (g : grid) (c : Z * Z) : Prop :=
  empty_at g (2 * c.1 + 1) (2 * c.2 + 1).
Definition hwall_open (g : grid) (c : Z * Z) : Prop :=
  empty_at g (2 * c.1 + 2) (2 * c.2 + 1).
Definition vwall_open (g : grid) (c : Z * Z) : Prop :=
  empty_at g (2 * c.1 + 1) (2 * c.2 + 2).

#[global] Instance cell_open_dec g c : Decision (cell_open g c).
Proof. unfold cell_open. apply _. Defined.
#[global] Instance hwall_open_dec g c : Decision (hwall_open g c).
Proof. unfold hwall_open. apply _. Defined.
#[global] Instance vwall_open_dec g c : Decision (vwall_open g c).
Proof. unfold vwall_open. apply _. Defined.

(** Number of open logical cells, and number of open passages between
    adjacent logical cells. *)
Definition count_cells (n : Z) (g : grid) : nat :=
  length (filter (cell_open g) (cells n)).

Definition count_passages (n : Z) (g : grid) : nat :=
  (length (filter (hwall_open g) (hwalls n)) +
   length (filter (vwall_open g) (vwalls n)))%nat.

(** Two tiles are joined when one can walk from one to the other over empty
    tiles, one step up, down, left or right at a time. *)
Definition adjacent (a b : Z * Z) : Prop :=
  Z.abs (a.1 - b.1) + Z.abs (a.2 - b.2) = 1.

Definition passable (g : grid) (a b : Z * Z) : Prop :=
  empty_at g a.1 a.2 ∧ empty_at g b.1 b.2 ∧ adjacent a b.

Definition connected (g : grid) (a b : Z * Z) : Prop := rtc (passable g) a b.

(** Every empty tile is the tile of a logical cell or the tile between two
    adjacent logical cells. *)
Definition empty_tile_kind (n tx ty : Z) : Prop :=
  (∃ x y, in_cells n x y ∧ tx = 2 * x + 1 ∧ ty = 2 * y + 1) ∨
  (∃ x y, in_cells n x y ∧ in_cells n (x + 1) y ∧ tx = 2 * x + 2 ∧ ty = 2 * y + 1) ∨
  (∃ x y, in_cells n x y ∧ in_cells n x (y + 1) ∧ tx = 2 * x + 1 ∧ ty = 2 * y + 2).

(** Two logical cells are joined when they are neighbours and the tile
    between them is empty. *)
Definition between (a b : Z * Z) : Z * Z := (a.1 + b.1 + 1, a.2 + b.2 + 1).

Definition joined (n : Z) (g : grid) (a b : Z * Z) : Prop :=
  in_cells n a.1 a.2 ∧ in_cells n b.1 b.2 ∧ adjacent a b ∧
  empty_at g (between a b).1 (between a b).2.

(** [c] is joined to exactly one of the cells [earlier]. *)
Definition attached_once (n : Z) (g : grid) (earlier : list (Z * Z)) (c : Z * Z) : Prop :=
  ∃ p, p ∈ earlier ∧ joined n g c p ∧
       ∀ p', p' ∈ earlier → joined n g c p' → p' = p.

(** The cells of the list, latest first, were added one at a time, each
    joined to exactly one of the cells added before it: the passages form a
    tree. *)
Inductive tree_order (n : Z) (g : grid) : list (Z * Z) → Prop :=
| tree_root c : tree_order n g [c]
| tree_grow c earlier :
    tree_order n g earlier → c ∉ earlier → attached_once n g earlier c →
    tree_order n g (c :: earlier).

(** A cycle of passages: at least three distinct cells, each joined to the
    next, and the last to the first. *)
Definition next_index (k i : nat) : nat := if decide (S i = k) then 0%nat else S i.

Definition is_cycle (n : Z) (g : grid) (cyc : list (Z * Z)) : Prop :=
  (3 ≤ length cyc)%nat ∧ NoDup cyc ∧
  ∀ i a b, cyc !! i = Some a → cyc !! next_index (length cyc) i = Some b →
           joined n g a b.

Record perfect_maze (n : Z) (m : maze) : Prop := {
  pm_width : maze_width m = 2 * n + 1;
  pm_height : maze_height m = 2 * n + 1;
  pm_dims : dims (2 * n + 1) (2 * n + 1) (maze_grid m);
  pm_tiles : ∀ x y v, at2 (maze_grid m) x y = Some v → v = TILE_EMPTY ∨ v = TILE_WALL;
  pm_cells : ∀ x y, in_cells n x y → empty_at (maze_grid m) (2 * x + 1) (2 * y + 1);
  pm_kind : ∀ tx ty, empty_at (maze_grid m) tx ty → empty_tile_kind n tx ty;
  pm_connected : ∀ a b, empty_at (maze_grid m) a.1 a.2 → empty_at (maze_grid m) b.1 b.2 →
                        connected (maze_grid m) a b;
  pm_cell_count : count_cells n (maze_grid m) = Z.to_nat (n * n);
  pm_passage_count : count_passages n (maze_grid m) = Z.to_nat (n * n - 1);
  pm_tree : ∃ order, tree_order n (maze_grid m) order ∧
                     ∀ c, c ∈ order ↔ in_cells n c.1 c.2;
  pm_acyclic : ∀ cyc, ¬ is_cycle n (maze_grid m) cyc
}.

(** The first guarantee of the specification, read on a call stack with room
    for [stack] nested calls: for every [n ≥ 1], whatever the random draws,
    [generateMaze(n)] returns a perfect maze. *)
Definition generates_every_size (stack : nat) : Prop :=
  ∀ n r, 1 ≤ n → ∃ m r', generateMaze_fuel stack n r = Done (m, r') ∧ perfect_maze n m.

(** The random source whose draws are all [0]. *)
Definition zero_rng : rng := Rng (λ _, 0) 0.

(** ** The invariant of [carve] *)

Record maze_inv (n : Z) (st : gen_state) : Prop := {
  inv_grid : dims (2 * n + 1) (2 * n + 1) (gs_grid st);
  inv_vis : dims n n (gs_visited st);
  inv_tiles : ∀ x y v, at2 (gs_grid st) x y = Some v → v = TILE_EMPTY ∨ v = TILE_WALL;
  inv_cell : ∀ x y, in_cells n x y →
    (empty_at (gs_grid st) (2 * x + 1) (2 * y + 1) ↔ seen (gs_visited st) x y);
  inv_open : ∀ tx ty, empty_at (gs_grid st) tx ty →
    (∃ x y, in_cells n x y ∧ tx = 2 * x + 1 ∧ ty = 2 * y + 1) ∨
    (∃ x y, in_cells n x y ∧ in_cells n (x + 1) y ∧ tx = 2 * x + 2 ∧ ty = 2 * y + 1 ∧
            seen (gs_visited st) x y ∧ seen (gs_visited st) (x + 1) y) ∨
    (∃ x y, in_cells n x y ∧ in_cells n x (y + 1) ∧ tx = 2 * x + 1 ∧ ty = 2 * y + 2 ∧
            seen (gs_visited st) x y ∧ seen (gs_visited st) x (y + 1));
  inv_count : (count_passages n (gs_grid st) + 1 = count_cells n (gs_grid st))%nat;
  inv_conn : ∀ tx ty, empty_at (gs_grid st) tx ty → connected (gs_grid st) (1, 1) (tx, ty);
  inv_tree : ∃ order, tree_order n (gs_grid st) order ∧
                      ∀ c, c ∈ order ↔ in_cells n c.1 c.2 ∧ seen (gs_visited st) c.1 c.2
}.
Arguments inv_grid {_ _} _.
Arguments inv_vis {_ _} _.
Arguments inv_tiles {_ _} _.
Arguments inv_cell {_ _} _.
Arguments inv_open {_ _} _.
Arguments inv_count {_ _} _.
Arguments inv_conn {_ _} _.
Arguments inv_tree {_ _} _.

(** [st'] is [st] after the walk entered the fresh cell [(nx, ny)], possibly
    through the tile [p]: the tiles [p] and [(2nx+1, 2ny+1)] are now empty,
    [(nx, ny)] is now visited, and nothing else changed. *)
Record entered (n : Z) (p : Z * Z) (nx ny : Z) (st st' : gen_state) : Prop := {
  ent_grid : dims (2 * n + 1) (2 * n + 1) (gs_grid st');
  ent_vis : dims n n (gs_visited st');
  ent_tile : ∀ x y, at2 (gs_grid st') x y =
    if decide ((x = p.1 ∧ y = p.2) ∨ (x = 2 * nx + 1 ∧ y = 2 * ny + 1))
    then Some TILE_EMPTY else at2 (gs_grid st) x y;
  ent_seen : ∀ x y, at2 (gs_visited st') x y =
    if decide (x = nx ∧ y = ny) then Some true else at2 (gs_visited st) x y
}.
Arguments ent_grid {_ _ _ _ _ _} _.
Arguments ent_vis {_ _ _ _ _ _} _.
Arguments ent_tile {_ _ _ _ _ _} _.
Arguments ent_seen {_ _ _ _ _ _} _.

Definition mono (st st' : gen_state) : Prop :=
  ∀ x y, seen (gs_visited st) x y → seen (gs_visited st') x y.

Definition nbrs_done (n : Z) (st : gen_state) (x y : Z) : Prop :=
  ∀ d, d ∈ dirs0 → in_cells n (x + d.1) (y + d.2) →
       seen (gs_visited st) (x + d.1) (y + d.2).

(** Budget left: logical cells not yet visited. *)
Definition unvisited (n : Z) (st : gen_state) : nat :=
  (Z.to_nat (n * n) - count_cells n (gs_grid st))%nat.

(** The walk stands on the visited cell [(cx, cy)] of [st], looks in
    direction [d], finds a fresh cell there and enters it, reaching [st']. *)
Record step_ctx (n cx cy : Z) (d : Z * Z) (st st' : gen_state) : Prop := {
  sc_inv : maze_inv n st;
  sc_cell : in_cells n cx cy;
  sc_seen : seen (gs_visited st) cx cy;
  sc_dir : d = (1, 0) ∨ d = (-1, 0) ∨ d = (0, 1) ∨ d = (0, -1);
  sc_nb : in_cells n (cx + d.1) (cy + d.2);
  sc_fresh : ¬ seen (gs_visited st) (cx + d.1) (cy + d.2);
  sc_ent : entered n (cx * 2 + 1 + d.1, cy * 2 + 1 + d.2) (cx + d.1) (cy + d.2) st st'
}.
Arguments sc_inv {_ _ _ _ _ _} _.
Arguments sc_cell {_ _ _ _ _ _} _.
Arguments sc_seen {_ _ _ _ _ _} _.
Arguments sc_dir {_ _ _ _ _ _} _.
Arguments sc_nb {_ _ _ _ _ _} _.
Arguments sc_fresh {_ _ _ _ _ _} _.
Arguments sc_ent {_ _ _ _ _ _} _.

Definition closed_since (n : Z) (st st' : gen_state) : Prop :=
  ∀ x y, in_cells n x y → seen (gs_visited st') x y → ¬ seen (gs_visited st) x y →
         nbrs_done n st' x y.

(** What a call [carve(cx, cy)] with budget [fuel] achieves, stated from the
    state [st1] reached by its first two assignments. *)
Definition carve_ok (n : Z) (fuel : nat) : Prop :=
  ∀ cx cy st sta st1,
    in_cells n cx cy →
    set_visited cx cy st = Done sta →
    set_tile (cx * 2 + 1) (cy * 2 + 1) TILE_EMPTY sta = Done st1 →
    maze_inv n st1 → seen (gs_visited st1) cx cy →
    (unvisited n st1 < fuel)%nat →
    ∃ st', carve fuel n n cx cy st = Done st' ∧
           maze_inv n st' ∧ mono st1 st' ∧
           (count_cells n (gs_grid st1) ≤ count_cells n (gs_grid st'))%nat ∧
           ∀ x y, in_cells n x y → seen (gs_visited st') x y →
                  (¬ seen (gs_visited st1) x y ∨ (x = cx ∧ y = cy)) →
                  nbrs_done n st' x y.

(** ** Spawn placement: what is asked of the result *)

(** Position of a tile in the row-major scan of a grid of width [w]. *)
Definition scan_index (w : Z) (c : Z * Z) : Z := c.2 * w + c.1.

(** [b] is met no later than [c] by a row-major scan. *)
Definition scanned_first (b c : Z * Z) : Prop :=
  b.2 < c.2 ∨ (b.2 = c.2 ∧ b.1 ≤ c.1).

(** The Euclidean distance of [a] and [b] is at least [0.45 * m]. *)
Definition far_enough (a b : Z * Z) (m : Z) : Prop :=
  81 * m * m ≤ 400 * ((a.1 - b.1) * (a.1 - b.1) + (a.2 - b.2) * (a.2 - b.2)).

(** [b] is an empty tile; no empty tile is farther from [a] (squares of
    Euclidean distances are compared); among the empty tiles as far from
    [a] as [b], [b] is the first of the row-major scan. *)
Definition farthest_first (g : grid) (a b : Z * Z) : Prop :=
  empty_at g b.1 b.2 ∧
  (∀ c, empty_at g c.1 c.2 → distance a c ≤ distance a b) ∧
  (∀ c, empty_at g c.1 c.2 → distance a c = distance a b → scanned_first b c).

Definition has_empty (g : grid) : Prop := ∃ x y, empty_at g x y.

(** The attempts of the placement, one after the other: attempt [0] is the
    first pair of picks, attempt [k + 1] the pair picked again after
    attempt [k], from the random source that attempt left.  An attempt is
    a pair of spawns and the random source after it. *)
Definition pick_pair (g : grid) (gridW gridH : Z) (r : rng)
  : result ((Z * Z) * (Z * Z) * rng) :=
  ar ←r pickRandomCell g (leftTopTest gridW gridH) 500 r;
  br ←r pickRandomCell g (rightBottomTest gridW gridH) 500 ar.2;
  Done (ar.1, br.1, br.2).

Fixpoint spawn_attempt (k : nat) (g : grid) (gridW gridH : Z) (r : rng)
  : result ((Z * Z) * (Z * Z) * rng) :=
  match k with
  | O => pick_pair g gridW gridH r
  | S k' => p ←r spawn_attempt k' g gridW gridH r; pick_pair g gridW gridH p.2
  end.

(** Attempt [k] returned a pair of empty tiles that is too close. *)
Definition attempt_failed (k : nat) (m : maze) (r : rng) : Prop :=
  ∃ a b r', spawn_attempt k (maze_grid m) (maze_width m) (maze_height m) r
            = Done (a, b, r') ∧
            empty_at (maze_grid m) a.1 a.2 ∧ empty_at (maze_grid m) b.1 b.2 ∧
            ¬ far_enough a b (Z.max (maze_width m) (maze_height m)).

(** ** Well-formed server states *)

(** The maze of a room is a rectangle of its recorded width and height, and
    the players of the room are members of the room's channel. *)
Definition room_wf (ch : gmap string (gset string)) (roomId : string) (r : room) : Prop :=
  dims (maze_width (room_maze r)) (maze_height (room_maze r)) (maze_grid (room_maze r)) ∧
  dom (room_players r) ⊆ members ch roomId.

Record server_wf (st : server) : Prop := {
  wf_keys : NoDup (rooms st).*1;
  wf_rooms : ∀ roomId r, (roomId, r) ∈ rooms st → room_wf (channels st) roomId r
}.

(** The events the server handles. *)
Inductive event : Type :=
| EvFindMatch (sid : string) (now : Z)
| EvMove (sid roomId dir : string) (now : Z)
| EvDisconnect (sid : string)
| EvTimers (now : Z).

Definition handle (e : event) (st : server) : result (server * list emission) :=
  match e with
  | EvFindMatch sid now => findMatch sid now st
  | EvMove sid roomId dir now => move sid roomId dir now st
  | EvDisconnect sid => disconnect sid st
  | EvTimers now => Done (run_timers now st, [])
  end.

(** Runs the events in order; the emissions of all of them, in order. *)
Fixpoint run (es : list event) (st : server) : result (server * list emission) :=
  match es with
  | [] => Done (st, [])
  | e :: es' =>
      so ←r handle e st;
      so' ←r run es' so.1;
      Done (so'.1, so.2 ++ so'.2)
  end.

Definition is_game_over (e : emission) : bool :=
  match em_msg e with GameOver _ _ => true | _ => false end.

(** A play of the server from its start: A and B are paired, and A walks
    the 41 steps from its spawn [(11, 3)] to its goal [(6, 13)]. *)
Definition demo_room : string := makeRoomId "A" "B" 1001.

Definition demo_path : list string :=
  ["right"; "right"; "down"; "down"; "down"; "down"; "down"; "down"; "left";
   "left"; "down"; "down"; "down"; "down"; "left"; "left"; "up"; "up"; "up";
   "up"; "up"; "up"; "right"; "right"; "up"; "up"; "left"; "left"; "left";
   "left"; "down"; "down"; "down"; "down"; "down"; "down"; "left"; "left";
   "down"; "down"; "right"].

Definition demo_paired : list event :=
  [EvFindMatch "A" 1000; EvFindMatch "B" 1001].

Definition demo_won : list event :=
  demo_paired ++ ((λ d, EvMove "A" demo_room d 2000) <$> demo_path).

Definition state_after (es : list event) : server :=
  match run es (init_server sample_rng) with
  | Done (st, _) => st
  | Fail _ => init_server sample_rng
  end.

(** The last sentence of the specification of a win, read on the model:
    once a move in a room has produced a game-over broadcast, a further
    move in that room changes no state and broadcasts nothing. *)
Definition moves_rejected_after_win : Prop :=
  ∀ st sid roomId dir now st1 out1,
    move sid roomId dir now st = Done (st1, out1) →
    existsb is_game_over out1 = true →
    ∀ sid' dir' now', move sid' roomId dir' now' st1 = Done (st1, []).

(** The play one step before A reaches its goal, and the winning move. *)
Definition demo_before_win : server :=
  state_after (demo_paired ++ ((λ d, EvMove "A" demo_room d 2000) <$> take 40 demo_path)).

Definition dummy_player : player := Player "" 0 0 "" 0 0.
Definition dummy_room : room := Room (Maze [] 0 0) ∅.

Definition demo_before_win_room : room :=
  default dummy_room (obj_get (rooms demo_before_win) demo_room).

Definition demo_before_win_A : player :=
  default dummy_player (room_players demo_before_win_room !! "A").

Definition demo_win : server * list emission :=
  match move "A" demo_room "right" 2000 demo_before_win with
  | Done so => so
  | Fail _ => (demo_before_win, [])
  end.

(** The play: A wins, B disconnects before the 4500 ms have passed, and the
    room is gone when the timer fires. *)
Definition demo_won_then_left : server :=
  state_after (demo_won ++ [EvDisconnect "B"]).

(** ** Rooms whose players stand on empty tiles *)

(** A player is registered under its own id and stands, like its goal, on
    an empty tile of the maze. *)
Definition player_ok (g : grid) (pid : string) (p : player) : Prop :=
  pl_id p = pid ∧ empty_at g (pl_x p) (pl_y p) ∧ empty_at g (pl_exitX p) (pl_exitY p).

Definition room_ok (r : room) : Prop :=
  maze_width (room_maze r) = 2 * MAZE_LOGICAL + 1 ∧
  maze_height (room_maze r) = 2 * MAZE_LOGICAL + 1 ∧
  dims (maze_width (room_maze r)) (maze_height (room_maze r)) (maze_grid (room_maze r)) ∧
  (∀ x y v, at2 (maze_grid (room_maze r)) x y = Some v → v = TILE_EMPTY ∨ v = TILE_WALL) ∧
  size (room_players r) = 2%nat ∧
  ∀ pid p, room_players r !! pid = Some p → player_ok (maze_grid (room_maze r)) pid p.

Definition server_ok (st : server) : Prop :=
  ∀ roomId r, (roomId, r) ∈ rooms st → room_ok r.

(** The emissions of a play from the start. *)
Definition emitted_by (es : list event) : list emission :=
  match run es (init_server sample_rng) with
  | Done (_, out) => out
  | Fail _ => []
  end.

(** ** The fog of war on the client *)

(** Tile [(x, y)] is marked in the grid [visible]. *)
Definition lit (v : list (list bool)) (x y : Z) : Prop := at2 v x y = Some true.

(** Tile [(x, y)] is on the board and within [FOG_RADIUS] of [(cx, cy)] in
    both directions. *)
Definition in_window (w h cx cy x y : Z) : Prop :=
  (0 ≤ x < w) ∧ (0 ≤ y < h) ∧ Z.abs (x - cx) ≤ FOG_RADIUS ∧ Z.abs (y - cy) ≤ FOG_RADIUS.

(** The grid [visible], once there is one, has the size the client took
    from the maze, or the client has no maze size yet. *)
Definition client_wf (c : client) : Prop :=
  match c_visible c with
  | Some v => dims (c_mazeW c) (c_mazeH c) v ∨ (c_mazeW c = 0 ∧ c_mazeH c = 0)
  | None => c_mazeW c = 0 ∧ c_mazeH c = 0
  end.

(** The maze of the client, when it has one, has a row for every row of
    the board. *)
Definition maze_rows_ok (c : client) : Prop :=
  ∀ g, c_maze c = Some g → c_mazeH c ≤ Z.of_nat (length g).

(** What the client holds when every maze the server sends has [h] rows. *)
Definition client_ok (h : Z) (c : client) : Prop :=
  client_wf c ∧ c_mazeH c ≤ h ∧ ∀ g, c_maze c = Some g → Z.of_nat (length g) = h.

(** An event of the client: the connection, or a message of the server that
    arrives when the canvas has a size ([sized]) or has none. *)
Inductive client_event : Type :=
| CConnect (id : string)
| CMessage (sized : bool) (m : message).

Definition client_handle (e : client_event) (c : client) : result client :=
  match e with
  | CConnect id => Done (on_connect id c)
  | CMessage sized m => deliver sized m c
  end.

Fixpoint client_run (es : list client_event) (c : client) : result client :=
  match es with
  | [] => Done c
  | e :: es' => c' ←r client_handle e c; client_run es' c'
  end.

(** The messages of a server whose mazes have [h] rows: the players of a
    [state] message are keyed by socket ids, and every maze, at the start
    of a match or revealed, has [h] rows, a revealed one at least one. *)
Definition event_ok (h : Z) (e : client_event) : Prop :=
  match e with
  | CMessage _ (MatchFound _ g _ _ _) => Z.of_nat (length g) = h
  | CMessage _ (State ps) => map_Forall (λ pid _, pid ∉ object_prototype_keys) ps
  | CMessage _ (RevealMaze g) => g ≠ [] ∧ Z.of_nat (length g) = h
  | _ => True
  end.

#[global] Instance event_ok_dec h e : Decision (event_ok h e).
Proof. destruct e as [|sized []]; simpl; apply _. Defined.

(** The pairing of A and B in the play [demo_paired], and what is sent to
    the client of A during the play [demo_won]. *)
Definition demo_pairing : server * list emission :=
  match findMatch "B" 1001 (state_after [EvFindMatch "A" 1000]) with
  | Done so => so
  | Fail _ => (init_server sample_rng, [])
  end.

Definition demo_client : client := on_connect "A" init_client.

Definition demo_inbox : list client_event :=
  CConnect "A" ::
  (CMessage true ∘ em_msg <$> filter (λ e, "A" ∈ em_to e) (emitted_by demo_won)).


(** ** Sequencing *)

Lemma rbind_Done {A B} (a : A) (k : A → result B) : rbind (Done a) k = k a.
Proof. reflexivity. Qed.

Lemma at2_Some_dims {A} (w h : Z) (a : list (list A)) x y v :
  dims w h a → at2 a x y = Some v → (0 ≤ x < w) ∧ (0 ≤ y < h).
Proof.
  intros [Hh Hw]. unfold at2. case_bool_decide as Hxy; [|done].
  destruct (a !! Z.to_nat y) as [row|] eqn:Hrow; simpl; [|done].
  intros Hx. apply lookup_lt_Some in Hx.
  pose proof (lookup_lt_Some _ _ _ Hrow) as Hy.
  rewrite Forall_forall in Hw.
  rewrite (Hw row (list_elem_of_lookup_2 _ _ _ Hrow)) in Hx. lia.
Qed.

Lemma at2_in_dims {A} (w h : Z) (a : list (list A)) x y :
  dims w h a → 0 ≤ x < w → 0 ≤ y < h → is_Some (at2 a x y).
Proof.
  intros [Hh Hw] Hx Hy. unfold at2. rewrite bool_decide_eq_true_2 by lia.
  destruct (lookup_lt_is_Some_2 a (Z.to_nat y)) as [row Hrow]; [lia|].
  rewrite Hrow. simpl. apply lookup_lt_is_Some_2.
  rewrite Forall_forall in Hw.
  rewrite (Hw row (list_elem_of_lookup_2 _ _ _ Hrow)). lia.
Qed.

Lemma array2_get_spec {A} (w h : Z) (a : list (list A)) x y :
  dims w h a → 0 ≤ x < w → 0 ≤ y < h → array2_get a x y = Done (at2 a x y).
Proof.
  intros Hd Hx Hy. destruct (at2_in_dims w h a x y Hd Hx Hy) as [v Hv].
  unfold array2_get, at2 in *.
  rewrite !bool_decide_eq_true_2 in * by lia.
  destruct (a !! Z.to_nat y); [done|discriminate].
Qed.

Lemma array2_set_spec {A} (w h : Z) (a : list (list A)) x y v :
  dims w h a → 0 ≤ x < w → 0 ≤ y < h →
  ∃ a', array2_set a x y v = Done a' ∧ dims w h a' ∧
        ∀ x' y', at2 a' x' y' = if decide (x' = x ∧ y' = y) then Some v else at2 a x' y'.
Proof.
  intros [Hh Hw] Hx Hy. unfold array2_set.
  rewrite bool_decide_eq_true_2 by lia.
  destruct (lookup_lt_is_Some_2 a (Z.to_nat y)) as [row Hrow]; [lia|].
  rewrite Hrow.
  assert (Hlen : length row = Z.to_nat w).
  { rewrite Forall_forall in Hw. apply Hw.
    by eapply list_elem_of_lookup_2. }
  rewrite bool_decide_eq_true_2 by lia.
  eexists; split; [done|]. split.
  - split; [by rewrite length_insert|].
    apply Forall_insert; [done|]. by rewrite length_insert.
  - intros x' y'. unfold at2. case_bool_decide as Hnn.
    + destruct (decide (Z.to_nat y' = Z.to_nat y)) as [Hey|Hney].
      * rewrite Hey, list_lookup_insert_eq by lia. simpl. rewrite Hrow. simpl.
        destruct (decide (Z.to_nat x' = Z.to_nat x)) as [Hex|Hnex].
        -- rewrite Hex, list_lookup_insert_eq by lia.
           rewrite decide_True; [done|lia].
        -- rewrite list_lookup_insert_ne by done.
           rewrite decide_False; [done|lia].
      * rewrite list_lookup_insert_ne by done.
        rewrite decide_False; [done|lia].
    + rewrite decide_False; [done|lia].
Qed.

Lemma filled_dims {A} (w h : Z) (v : A) : dims w h (filled w h v).
Proof.
  unfold dims, filled. split; [by rewrite length_replicate|].
  apply Forall_replicate. by rewrite length_replicate.
Qed.

Lemma at2_filled {A} (w h : Z) (v : A) x y :
  at2 (filled w h v) x y = if decide (0 ≤ x < w ∧ 0 ≤ y < h) then Some v else None.
Proof.
  destruct (at2 (filled w h v) x y) as [u|] eqn:Hu.
  - pose proof (at2_Some_dims w h _ x y u (filled_dims w h v) Hu) as [Hx Hy].
    rewrite decide_True by done.
    unfold at2, filled in Hu. rewrite bool_decide_eq_true_2 in Hu by lia.
    destruct (replicate _ _ !! Z.to_nat y) as [row|] eqn:Hrow; simpl in Hu; [|done].
    apply lookup_replicate in Hrow as [-> _].
    apply lookup_replicate in Hu as [-> _]. done.
  - case_decide as Hin; [|done].
    destruct (at2_in_dims w h (filled w h v) x y (filled_dims w h v)) as [u Hu']; [lia..|].
    congruence.
Qed.

(** ** Counting over lists of positions *)

Lemma elem_of_positions w h x y :
  (x, y) ∈ positions w h ↔ (0 ≤ x < w) ∧ (0 ≤ y < h).
Proof.
  unfold positions. rewrite list_elem_of_bind. split.
  - intros (x' & Hy & Hx). apply list_elem_of_fmap in Hy as (y' & Heq & Hy).
    inversion Heq; subst. apply elem_of_seqZ in Hx, Hy. lia.
  - intros [Hx Hy]. exists x. split.
    + apply list_elem_of_fmap. exists y. split; [done|]. apply elem_of_seqZ. lia.
    + apply elem_of_seqZ. lia.
Qed.

Lemma NoDup_positions w h : NoDup (positions w h).
Proof.
  unfold positions. apply NoDup_bind.
  - intros x1 x2 [a b] _ _ H1 H2.
    apply list_elem_of_fmap in H1 as (? & H1 & _).
    apply list_elem_of_fmap in H2 as (? & H2 & _). congruence.
  - intros x _. apply NoDup_fmap_2; [|apply NoDup_seqZ].
    intros ?? Heq. by inversion Heq.
  - apply NoDup_seqZ.
Qed.

Lemma length_positions w h :
  length (positions w h) = (Z.to_nat w * Z.to_nat h)%nat.
Proof.
  unfold positions. rewrite <- (length_seqZ 0 w).
  induction (seqZ 0 w) as [|x l IH]; [done|].
  rewrite bind_cons, length_app, length_fmap, length_seqZ, IH. simpl. lia.
Qed.

Lemma length_filter_ext {A} (P Q : A → Prop)
    `{!∀ x, Decision (P x)} `{!∀ x, Decision (Q x)} (l : list A) :
  (∀ q, q ∈ l → (P q ↔ Q q)) → length (filter Q l) = length (filter P l).
Proof.
  induction l as [|a l IH]; intros Hext; [done|].
  rewrite !filter_cons.
  assert (Ha : P a ↔ Q a) by (apply Hext; apply list_elem_of_here).
  assert (Hl : length (filter Q l) = length (filter P l)).
  { apply IH. intros q Hq. apply Hext. by apply list_elem_of_further. }
  destruct (decide (P a)), (decide (Q a)); simpl; tauto || lia.
Qed.

Lemma length_filter_add {A} (P Q : A → Prop)
    `{!∀ x, Decision (P x)} `{!∀ x, Decision (Q x)} (l : list A) (p : A) :
  NoDup l → p ∈ l → ¬ P p → Q p → (∀ q, q ∈ l → q ≠ p → (P q ↔ Q q)) →
  length (filter Q l) = S (length (filter P l)).
Proof.
  induction l as [|a l IH]; intros Hnd Hin HnP HQ Hext.
  - by apply elem_of_nil in Hin.
  - apply NoDup_cons in Hnd as [Hna Hnd].
    rewrite !filter_cons.
    apply elem_of_cons in Hin as [<-|Hin].
    + rewrite (decide_True (P := Q p)) by done.
      rewrite (decide_False (P := P p)) by done. simpl. f_equal.
      apply length_filter_ext. intros q Hq. apply Hext; [by apply list_elem_of_further|].
      intros ->. done.
    + assert (a ≠ p) by (intros ->; done).
      assert (Ha : P a ↔ Q a) by (apply Hext; [apply list_elem_of_here|done]).
      assert (Hl : length (filter Q l) = S (length (filter P l))).
      { apply IH; try done. intros q Hq. apply Hext. by apply list_elem_of_further. }
      destruct (decide (P a)), (decide (Q a)); simpl; tauto || lia.
Qed.

Lemma length_filter_all {A} (P : A → Prop) `{!∀ x, Decision (P x)} (l : list A) :
  (∀ q, q ∈ l → P q) → length (filter P l) = length l.
Proof.
  induction l as [|a l IH]; intros Hall; [done|].
  rewrite filter_cons_True by (apply Hall; apply list_elem_of_here). simpl. f_equal.
  apply IH. intros q Hq. apply Hall. by apply list_elem_of_further.
Qed.

Lemma length_filter_none {A} (P : A → Prop) `{!∀ x, Decision (P x)} (l : list A) :
  (∀ q, q ∈ l → ¬ P q) → length (filter P l) = 0%nat.
Proof.
  induction l as [|a l IH]; intros Hall; [done|].
  rewrite filter_cons_False by (apply Hall; apply list_elem_of_here).
  apply IH. intros q Hq. apply Hall. by apply list_elem_of_further.
Qed.

Lemma count_cells_le n g : (count_cells n g ≤ Z.to_nat (n * n))%nat.
Proof.
  unfold count_cells, cells.
  etrans; [apply length_filter|]. rewrite length_positions. lia.
Qed.

(** ** Trees of passages have no cycle *)

Lemma joined_sym n g a b : joined n g a b → joined n g b a.
Proof.
  intros (Ha & Hb & Hadj & He). split_and!; try done.
  - unfold adjacent in *. lia.
  - unfold between in *. simpl in *.
    by replace (b.1 + a.1 + 1) with (a.1 + b.1 + 1) by lia;
       replace (b.2 + a.2 + 1) with (a.2 + b.2 + 1) by lia.
Qed.

Lemma joined_irrefl n g a : ¬ joined n g a a.
Proof. intros (_ & _ & Hadj & _). unfold adjacent in Hadj. lia. Qed.

Lemma tree_order_ext n g g' order :
  (∀ a b, a ∈ order → b ∈ order → (joined n g a b ↔ joined n g' a b)) →
  tree_order n g order → tree_order n g' order.
Proof.
  intros Hext Htree. induction Htree as [c|c earlier Htree IH Hfresh (p & Hp & Hj & Huniq)].
  - constructor.
  - constructor; [|done|].
    + apply IH. intros a b Ha Hb. apply Hext; by apply list_elem_of_further.
    + exists p. split_and!; [done| |].
      * apply Hext; [apply list_elem_of_here|by apply list_elem_of_further|done].
      * intros p' Hp' Hj'. apply Huniq; [done|].
        apply Hext; [apply list_elem_of_here|by apply list_elem_of_further|done].
Qed.

Lemma next_index_lt k i : (i < k)%nat → (next_index k i < k)%nat.
Proof. unfold next_index. case_decide; lia. Qed.

(** The cell before index [i] on a cycle of length [k]. *)
Lemma prev_index k i :
  (3 ≤ k)%nat → (i < k)%nat →
  ∃ j, (j < k)%nat ∧ next_index k j = i ∧ j ≠ i ∧ j ≠ next_index k i.
Proof.
  intros Hk Hi. unfold next_index. destruct i as [|i].
  - exists (k - 1)%nat. repeat case_decide; lia.
  - exists i. repeat case_decide; lia.
Qed.

Lemma tree_order_acyclic n g order cyc :
  tree_order n g order → (∀ c, c ∈ cyc → c ∈ order) → ¬ is_cycle n g cyc.
Proof.
  intros Htree. induction Htree as [c|c earlier Htree IH Hfresh (p & Hp & Hj & Huniq)];
    intros Hsub (Hlen & Hnd & Hedges).
  - (* three distinct cells cannot all be the root *)
    destruct cyc as [|a [|b cyc]]; simpl in Hlen; [lia..|].
    apply NoDup_cons in Hnd as [Hab _].
    assert (a = c) by (apply list_elem_of_singleton, Hsub, list_elem_of_here).
    assert (b = c).
    { apply list_elem_of_singleton, Hsub, list_elem_of_further, list_elem_of_here. }
    subst. apply Hab, list_elem_of_here.
  - destruct (decide (c ∈ cyc)) as [Hin|Hout].
    + (* the latest cell would be joined to two earlier cells *)
      apply list_elem_of_lookup in Hin as [i Hi].
      pose proof (lookup_lt_Some _ _ _ Hi) as Hilt.
      destruct (prev_index (length cyc) i Hlen Hilt) as (j & Hjlt & Hji & Hne1 & Hne2).
      destruct (lookup_lt_is_Some_2 cyc j Hjlt) as [a Ha].
      destruct (lookup_lt_is_Some_2 cyc (next_index (length cyc) i)
                  (next_index_lt _ _ Hilt)) as [b Hb].
      assert (Hca : joined n g c a).
      { apply joined_sym. apply (Hedges j a c Ha). by rewrite Hji. }
      assert (Hcb : joined n g c b) by (by apply (Hedges i c b)).
      assert (Hab : a ≠ b).
      { intros ->. by apply Hne2, (NoDup_lookup cyc j _ b Hnd). }
      assert (Hearlier : ∀ x k, cyc !! k = Some x → joined n g c x → x ∈ earlier).
      { intros x k Hx Hjx.
        assert (Hx' : x ∈ c :: earlier) by (apply Hsub; by eapply list_elem_of_lookup_2).
        apply elem_of_cons in Hx' as [->|?]; [|done]. by apply joined_irrefl in Hjx. }
      apply Hab. rewrite (Huniq a), (Huniq b); eauto.
    + apply IH; [|done]. intros x Hx.
      assert (Hx' : x ∈ c :: earlier) by (by apply Hsub).
      apply elem_of_cons in Hx' as [->|?]; done.
Qed.

(** ** One step of the walk keeps the invariant *)

Lemma dirs0_cases d :
  d ∈ dirs0 ↔ d = (1, 0) ∨ d = (-1, 0) ∨ d = (0, 1) ∨ d = (0, -1).
Proof. unfold dirs0. rewrite !elem_of_cons, elem_of_nil. tauto. Qed.

Lemma connected_mono g g' a b :
  (∀ x y, empty_at g x y → empty_at g' x y) →
  connected g a b → connected g' a b.
Proof.
  intros Hsub. apply rtc_subrel. intros u v (Hu & Hv & Hadj).
  split_and!; auto.
Qed.

Lemma passable_sym g a b : passable g a b → passable g b a.
Proof. intros (Ha & Hb & Hadj). split_and!; try done. unfold adjacent in *. lia. Qed.

Lemma connected_sym g a b : connected g a b → connected g b a.
Proof.
  induction 1 as [|a b c Hab _ IH]; [apply rtc_refl|].
  eapply rtc_r; [exact IH|]. by apply passable_sym.
Qed.

Lemma step_empty {n cx cy d st st'} (H : step_ctx n cx cy d st st') x y :
  empty_at (gs_grid st') x y ↔
  (x = cx * 2 + 1 + d.1 ∧ y = cy * 2 + 1 + d.2) ∨
  (x = 2 * (cx + d.1) + 1 ∧ y = 2 * (cy + d.2) + 1) ∨ empty_at (gs_grid st) x y.
Proof.
  unfold empty_at. rewrite (ent_tile (sc_ent H)).
  simpl. case_decide; [|tauto]. split; [tauto|done].
Qed.

Lemma step_seen {n cx cy d st st'} (H : step_ctx n cx cy d st st') x y :
  seen (gs_visited st') x y ↔ (x = cx + d.1 ∧ y = cy + d.2) ∨ seen (gs_visited st) x y.
Proof.
  unfold seen. rewrite (ent_seen (sc_ent H)).
  case_decide; [|tauto]. split; [tauto|done].
Qed.

Lemma step_wall_closed {n cx cy d st st'} (H : step_ctx n cx cy d st st') :
  ¬ empty_at (gs_grid st) (cx * 2 + 1 + d.1) (cy * 2 + 1 + d.2).
Proof.
  destruct H as [Hinv Hc Hseen Hd Hnb Hfresh Hent]. intros He.
  apply (inv_open Hinv) in He. unfold in_cells in *.
  destruct He as [(x & y & _ & ? & ?)|[(x & y & _ & _ & ? & ? & Hs1 & Hs2)|
                                       (x & y & _ & _ & ? & ? & Hs1 & Hs2)]];
    destruct Hd as [-> | [-> | [-> | ->]]]; simpl in *; try lia.
  - replace (cx + 1) with (x + 1) in Hfresh by lia.
    replace (cy + 0) with y in Hfresh by lia. done.
  - replace (cx + -1) with x in Hfresh by lia.
    replace (cy + 0) with y in Hfresh by lia. done.
  - replace (cx + 0) with x in Hfresh by lia.
    replace (cy + 1) with (y + 1) in Hfresh by lia. done.
  - replace (cx + 0) with x in Hfresh by lia.
    replace (cy + -1) with y in Hfresh by lia. done.
Qed.

Lemma step_cell_closed {n cx cy d st st'} (H : step_ctx n cx cy d st st') :
  ¬ empty_at (gs_grid st) (2 * (cx + d.1) + 1) (2 * (cy + d.2) + 1).
Proof.
  intros He.
  apply (inv_cell (sc_inv H) _ _ (sc_nb H)) in He.
  by apply (sc_fresh H).
Qed.

Lemma step_count_cells {n cx cy d st st'} (H : step_ctx n cx cy d st st') :
  count_cells n (gs_grid st') = S (count_cells n (gs_grid st)).
Proof.
  unfold count_cells.
  apply (length_filter_add _ _ _ (cx + d.1, cy + d.2)).
  - apply NoDup_positions.
  - apply elem_of_positions. apply (sc_nb H).
  - by apply (step_cell_closed H).
  - unfold cell_open. simpl. apply (step_empty H _ _). tauto.
  - intros [qx qy] _ Hne. unfold cell_open. simpl.
    rewrite (step_empty H _ _).
    split; [tauto|]. intros [[? ?]|[[? ?]|?]]; [| |done].
    + destruct (sc_dir H) as [-> | [-> | [-> | ->]]]; simpl in *; lia.
    + destruct Hne. f_equal; lia.
Qed.

Local Ltac other_walls H :=
  let qx := fresh "qx" in let qy := fresh "qy" in
  intros [qx qy] _; unfold hwall_open, vwall_open; simpl;
  rewrite (step_empty H _ _); simpl;
  split; [tauto|]; intros [[? ?]|[[? ?]|?]]; [lia|lia|done].

Local Ltac this_wall H Hwc Hp :=
  lazymatch goal with
  | |- NoDup _ => apply NoDup_positions
  | |- _ ∈ _ => apply elem_of_positions; lia
  | |- ¬ _ =>
      let Ho := fresh "Ho" in
      unfold hwall_open, vwall_open, empty_at; simpl; intros Ho; apply Hwc;
      etrans; [|exact Ho]; f_equal; lia
  | |- ∀ _, _ =>
      let qx := fresh "qx" in let qy := fresh "qy" in let Hne := fresh "Hne" in
      intros [qx qy] _ Hne; unfold hwall_open, vwall_open; simpl;
      rewrite (step_empty H _ _); simpl;
      split; [tauto|]; intros [[? ?]|[[? ?]|?]]; [|lia|done];
      destruct Hne; f_equal; lia
  | |- _ =>
      unfold hwall_open, vwall_open, empty_at; simpl;
      etrans; [|exact Hp]; f_equal; lia
  end.

Lemma step_count_passages {n cx cy d st st'} (H : step_ctx n cx cy d st st') :
  count_passages n (gs_grid st') = S (count_passages n (gs_grid st)).
Proof.
  pose proof (step_wall_closed H) as Hwc.
  assert (Hp : empty_at (gs_grid st') (cx * 2 + 1 + d.1) (cy * 2 + 1 + d.2))
    by (apply (step_empty H _ _); tauto).
  pose proof (sc_nb H) as Hnb.
  pose proof (sc_cell H) as Hc.
  unfold count_passages, in_cells, empty_at in *.
  destruct (sc_dir H) as [Hd | [Hd | [Hd | Hd]]];
    rewrite Hd in H, Hwc, Hp, Hnb; simpl in *.
  - rewrite (length_filter_add (hwall_open (gs_grid st)) (hwall_open (gs_grid st'))
               (hwalls n) (cx, cy)); [|this_wall H Hwc Hp..].
    rewrite (length_filter_ext (vwall_open (gs_grid st)) (vwall_open (gs_grid st')));
      [done|other_walls H].
  - rewrite (length_filter_add (hwall_open (gs_grid st)) (hwall_open (gs_grid st'))
               (hwalls n) (cx - 1, cy)); [|this_wall H Hwc Hp..].
    rewrite (length_filter_ext (vwall_open (gs_grid st)) (vwall_open (gs_grid st')));
      [done|other_walls H].
  - rewrite (length_filter_add (vwall_open (gs_grid st)) (vwall_open (gs_grid st'))
               (vwalls n) (cx, cy)); [|this_wall H Hwc Hp..].
    rewrite (length_filter_ext (hwall_open (gs_grid st)) (hwall_open (gs_grid st')));
      [lia|other_walls H].
  - rewrite (length_filter_add (vwall_open (gs_grid st)) (vwall_open (gs_grid st'))
               (vwalls n) (cx, cy - 1)); [|this_wall H Hwc Hp..].
    rewrite (length_filter_ext (hwall_open (gs_grid st)) (hwall_open (gs_grid st')));
      [lia|other_walls H].
Qed.

Lemma step_mono {n cx cy d st st'} (H : step_ctx n cx cy d st st') : mono st st'.
Proof. intros x y Hs. apply (step_seen H _ _). tauto. Qed.

Lemma step_joined_old {n cx cy d st st'} (H : step_ctx n cx cy d st st') a b :
  a ≠ (cx + d.1, cy + d.2) → b ≠ (cx + d.1, cy + d.2) →
  joined n (gs_grid st') a b ↔ joined n (gs_grid st) a b.
Proof.
  intros Ha Hb. unfold joined.
  rewrite (step_empty H _ _).
  destruct a as [ax ay], b as [bx b_y]. unfold adjacent, between. simpl.
  split; [|tauto]. intros (? & ? & Hadj & [[? ?]|[[? ?]|?]]); [| |tauto]; exfalso.
  - destruct (sc_dir H) as [Hd | [Hd | [Hd | Hd]]];
      rewrite Hd in *; simpl in *.
    all: assert ((ax = cx ∧ ay = cy) ∨ (bx = cx ∧ b_y = cy)) as [[-> ->]|[-> ->]] by lia.
    all: first [apply Hb; f_equal; lia | apply Ha; f_equal; lia].
  - lia.
Qed.

Lemma step_joined_new {n cx cy d st st'} (H : step_ctx n cx cy d st st') b :
  joined n (gs_grid st') (cx + d.1, cy + d.2) b →
  in_cells n b.1 b.2 ∧ seen (gs_visited st) b.1 b.2 → b = (cx, cy).
Proof.
  intros (_ & _ & Hadj & He) [Hb Hs].
  apply (step_empty H _ _) in He.
  pose proof (sc_fresh H) as Hfresh.
  destruct b as [bx b_y]. unfold adjacent, between in *. simpl in *.
  destruct He as [[? ?]|[[? ?]|He]].
  - f_equal; lia.
  - lia.
  - exfalso. apply (inv_open (sc_inv H)) in He.
    destruct He as [(x & y & _ & ? & ?)|[(x & y & _ & _ & ? & ? & Hs1 & Hs2)|
                                         (x & y & _ & _ & ? & ? & Hs1 & Hs2)]].
    + lia.
    + assert ((cx + d.1 = x ∧ cy + d.2 = y) ∨ (cx + d.1 = x + 1 ∧ cy + d.2 = y))
        as [[Ex Ey]|[Ex Ey]] by lia; rewrite Ex, Ey in Hfresh; done.
    + assert ((cx + d.1 = x ∧ cy + d.2 = y) ∨ (cx + d.1 = x ∧ cy + d.2 = y + 1))
        as [[Ex Ey]|[Ex Ey]] by lia; rewrite Ex, Ey in Hfresh; done.
Qed.

Lemma step_inv {n cx cy d st st'} (H : step_ctx n cx cy d st st') : maze_inv n st'.
Proof.
  pose proof (sc_inv H) as Hinv.
  pose proof (sc_ent H) as Hent.
  pose proof (sc_cell H) as Hc.
  pose proof (sc_nb H) as Hnb.
  pose proof (sc_dir H) as Hd.
  pose proof (sc_seen H) as Hseen.
  assert (Hsub : ∀ x y, empty_at (gs_grid st) x y → empty_at (gs_grid st') x y).
  { intros x y He. apply (step_empty H _ _). tauto. }
  split.
  - apply (ent_grid Hent).
  - apply (ent_vis Hent).
  - intros x y v. rewrite (ent_tile Hent). case_decide.
    + intros [= <-]. by left.
    + apply (inv_tiles Hinv).
  - intros x y Hxy.
    rewrite (step_empty H _ _), (step_seen H _ _).
    rewrite <- (inv_cell Hinv x y Hxy).
    split.
    + intros [[? ?]|[[? ?]|?]]; [|left; lia|tauto].
      destruct Hd as [-> | [-> | [-> | ->]]]; simpl in *; lia.
    + intros [[? ?]|?]; [right; left; lia|tauto].
  - intros tx ty. rewrite (step_empty H _ _).
    intros [[-> ->]|[[-> ->]|He]].
    + unfold in_cells in *.
      destruct Hd as [Hd | [Hd | [Hd | Hd]]]; rewrite Hd in *; simpl in *.
      * right; left. exists cx, cy. split_and!; try lia.
        -- apply (step_mono H). done.
        -- apply (step_seen H _ _). left. simpl. lia.
      * right; left. exists (cx - 1), cy. split_and!; try lia.
        -- apply (step_seen H _ _). left. simpl. lia.
        -- apply (step_mono H).
           by replace (cx - 1 + 1) with cx by lia.
      * right; right. exists cx, cy. split_and!; try lia.
        -- apply (step_mono H). done.
        -- apply (step_seen H _ _). left. simpl. lia.
      * right; right. exists cx, (cy - 1). split_and!; try lia.
        -- apply (step_seen H _ _). left. simpl. lia.
        -- apply (step_mono H).
           by replace (cy - 1 + 1) with cy by lia.
    + left. exists (cx + d.1), (cy + d.2). done.
    + pose proof (step_mono H) as Hm.
      destruct (inv_open Hinv tx ty He)
        as [?|[(x & y & ? & ? & ? & ? & ? & ?)|(x & y & ? & ? & ? & ? & ? & ?)]].
      * by left.
      * right; left. exists x, y. split_and!; auto.
      * right; right. exists x, y. split_and!; auto.
  - rewrite (step_count_passages H), (step_count_cells H).
    pose proof (inv_count Hinv). lia.
  - assert (Hctile : connected (gs_grid st') (1, 1) (2 * cx + 1, 2 * cy + 1)).
    { apply (connected_mono (gs_grid st)); [done|].
      apply (inv_conn Hinv). by apply (inv_cell Hinv). }
    assert (Hwall : connected (gs_grid st') (1, 1) (cx * 2 + 1 + d.1, cy * 2 + 1 + d.2)).
    { eapply rtc_r; [exact Hctile|]. split_and!; simpl.
      - apply Hsub. by apply (inv_cell Hinv).
      - apply (step_empty H _ _). tauto.
      - unfold adjacent.
        destruct Hd as [-> | [-> | [-> | ->]]]; simpl; lia. }
    intros tx ty. rewrite (step_empty H _ _).
    intros [[-> ->]|[[-> ->]|He]].
    + done.
    + eapply rtc_r; [exact Hwall|]. split_and!; simpl.
      * apply (step_empty H _ _). tauto.
      * apply (step_empty H _ _). tauto.
      * unfold adjacent.
        destruct Hd as [-> | [-> | [-> | ->]]]; simpl; lia.
    + apply (connected_mono (gs_grid st)); [done|]. by apply (inv_conn Hinv).
  - destruct (inv_tree Hinv) as (order & Htree & Horder).
    pose proof (sc_fresh H) as Hfresh.
    assert (Hnew : (cx + d.1, cy + d.2) ∉ order).
    { intros [_ Hs]%Horder. done. }
    exists ((cx + d.1, cy + d.2) :: order). split.
    + constructor; [|done|].
      * apply (tree_order_ext n (gs_grid st)); [|done].
        intros a b Ha Hb. symmetry. apply (step_joined_old H _ _).
        -- by intros ->.
        -- by intros ->.
      * exists (cx, cy). split_and!.
        -- apply Horder. done.
        -- split_and!; simpl; [done..| |].
           ++ unfold adjacent. simpl.
              destruct Hd as [-> | [-> | [-> | ->]]]; simpl; lia.
           ++ apply (step_empty H _ _). left. lia.
        -- intros p' Hp' Hj. apply (step_joined_new H _ Hj).
           by apply Horder.
    + intros [x y]. rewrite elem_of_cons, Horder. simpl.
      rewrite (step_seen H _ _). split.
      * intros [[= -> ->]|[? ?]]; [split; [done|by left]|split; [done|by right]].
      * intros [? [[-> ->]|?]]; [by left|by right].
Qed.

(** ** The first cell *)

Lemma start_inv n st :
  1 ≤ n →
  dims (2 * n + 1) (2 * n + 1) (gs_grid st) → dims n n (gs_visited st) →
  (∀ x y, at2 (gs_grid st) x y =
          if decide (x = 1 ∧ y = 1) then Some TILE_EMPTY
          else at2 (filled (2 * n + 1) (2 * n + 1) TILE_WALL) x y) →
  (∀ x y, at2 (gs_visited st) x y =
          if decide (x = 0 ∧ y = 0) then Some true else at2 (filled n n false) x y) →
  maze_inv n st ∧ count_cells n (gs_grid st) = 1%nat.
Proof.
  intros Hn Hdg Hdv Hg Hv.
  assert (He : ∀ x y, empty_at (gs_grid st) x y ↔ x = 1 ∧ y = 1).
  { intros x y. unfold empty_at. rewrite Hg. case_decide; [done|].
    rewrite at2_filled. case_decide; split; (done || tauto). }
  assert (Hs : ∀ x y, seen (gs_visited st) x y ↔ x = 0 ∧ y = 0).
  { intros x y. unfold seen. rewrite Hv. case_decide; [done|].
    rewrite at2_filled. case_decide; split; (done || tauto). }
  assert (Hcc : count_cells n (gs_grid st) = 1%nat).
  { unfold count_cells.
    rewrite (length_filter_add (λ _, False) (cell_open (gs_grid st)) (cells n) (0, 0)).
    - f_equal. apply length_filter_none. tauto.
    - apply NoDup_positions.
    - apply elem_of_positions. lia.
    - tauto.
    - unfold cell_open. simpl. by apply He.
    - intros [qx qy] _ Hne. unfold cell_open. simpl. rewrite He.
      split; [done|]. intros [? ?]. destruct Hne. f_equal; lia. }
  split; [|done]. split; try done.
  - intros x y v. rewrite Hg. case_decide; [intros [= <-]; by left|].
    rewrite at2_filled. case_decide; [|done]. intros [= <-]; by right.
  - intros x y Hxy. rewrite He, Hs. lia.
  - intros tx ty [-> ->]%He. left. exists 0, 0. unfold in_cells. lia.
  - rewrite Hcc. unfold count_passages.
    rewrite !length_filter_none; [done|..].
    + intros [qx qy] _. unfold vwall_open. simpl. rewrite He. lia.
    + intros [qx qy] _. unfold hwall_open. simpl. rewrite He. lia.
  - intros tx ty [-> ->]%He. apply rtc_refl.
  - exists [(0, 0)]. split; [constructor|].
    intros [x y]. rewrite list_elem_of_singleton, Hs. unfold in_cells. simpl.
    split; [intros [= -> ->]; lia|intros [_ [-> ->]]; done].
Qed.

(** ** The writes of [carve] *)

Lemma set_tile_spec w h x y v st :
  dims w h (gs_grid st) → 0 ≤ x < w → 0 ≤ y < h →
  ∃ st', set_tile x y v st = Done st' ∧ dims w h (gs_grid st') ∧
         gs_visited st' = gs_visited st ∧ gs_rng st' = gs_rng st ∧
         ∀ x' y', at2 (gs_grid st') x' y' =
                  if decide (x' = x ∧ y' = y) then Some v else at2 (gs_grid st) x' y'.
Proof.
  intros Hd Hx Hy.
  destruct (array2_set_spec w h (gs_grid st) x y v Hd Hx Hy) as (g' & Hset & Hd' & Hat).
  unfold set_tile. rewrite Hset. simpl. eexists. split; [done|]. simpl. done.
Qed.

Lemma set_visited_spec w h x y st :
  dims w h (gs_visited st) → 0 ≤ x < w → 0 ≤ y < h →
  ∃ st', set_visited x y st = Done st' ∧ dims w h (gs_visited st') ∧
         gs_grid st' = gs_grid st ∧ gs_rng st' = gs_rng st ∧
         ∀ x' y', at2 (gs_visited st') x' y' =
                  if decide (x' = x ∧ y' = y) then Some true else at2 (gs_visited st) x' y'.
Proof.
  intros Hd Hx Hy.
  destruct (array2_set_spec w h (gs_visited st) x y true Hd Hx Hy) as (g' & Hset & Hd' & Hat).
  unfold set_visited. rewrite Hset. simpl. eexists. split; [done|]. simpl. done.
Qed.

Lemma not_visited_spec n x y st :
  dims n n (gs_visited st) → in_cells n x y →
  ∃ b, not_visited x y st = Done b ∧ (b = false ↔ seen (gs_visited st) x y).
Proof.
  intros Hd [Hx Hy]. unfold not_visited, seen.
  rewrite (array2_get_spec n n _ x y Hd Hx Hy). simpl.
  destruct (at2 (gs_visited st) x y) as [[|]|]; eexists; (split; [done|]);
    split; congruence.
Qed.

Lemma maze_inv_same n st st' :
  gs_grid st' = gs_grid st → gs_visited st' = gs_visited st →
  maze_inv n st → maze_inv n st'.
Proof.
  destruct st, st'. simpl. intros -> ->. intros []. by split.
Qed.

(** Entering a fresh neighbour: the two assignments of the loop body and the
    first two of the recursive call. *)
Lemma enter_writes n cx cy d st :
  maze_inv n st → in_cells n cx cy →
  d = (1, 0) ∨ d = (-1, 0) ∨ d = (0, 1) ∨ d = (0, -1) →
  in_cells n (cx + d.1) (cy + d.2) →
  ∃ s1 s2 s3 s4,
    set_tile (cx * 2 + 1 + d.1) (cy * 2 + 1 + d.2) TILE_EMPTY st = Done s1 ∧
    set_tile ((cx + d.1) * 2 + 1) ((cy + d.2) * 2 + 1) TILE_EMPTY s1 = Done s2 ∧
    set_visited (cx + d.1) (cy + d.2) s2 = Done s3 ∧
    set_tile ((cx + d.1) * 2 + 1) ((cy + d.2) * 2 + 1) TILE_EMPTY s3 = Done s4 ∧
    entered n (cx * 2 + 1 + d.1, cy * 2 + 1 + d.2) (cx + d.1) (cy + d.2) st s4.
Proof.
  intros Hinv Hc Hd Hnb.
  pose proof (inv_grid Hinv) as Hg. pose proof (inv_vis Hinv) as Hv.
  unfold in_cells in *.
  destruct (set_tile_spec (2 * n + 1) (2 * n + 1) (cx * 2 + 1 + d.1) (cy * 2 + 1 + d.2)
              TILE_EMPTY st Hg) as (s1 & E1 & Hg1 & Hv1 & _ & A1).
  { destruct Hd as [-> | [-> | [-> | ->]]]; simpl in *; lia. }
  { destruct Hd as [-> | [-> | [-> | ->]]]; simpl in *; lia. }
  destruct (set_tile_spec (2 * n + 1) (2 * n + 1) ((cx + d.1) * 2 + 1) ((cy + d.2) * 2 + 1)
              TILE_EMPTY s1 Hg1) as (s2 & E2 & Hg2 & Hv2 & _ & A2); [lia..|].
  assert (Hvd2 : dims n n (gs_visited s2)) by (by rewrite Hv2, Hv1).
  destruct (set_visited_spec n n (cx + d.1) (cy + d.2) s2 Hvd2)
    as (s3 & E3 & Hvd3 & Hg3 & _ & A3); [lia..|].
  assert (Hgd3 : dims (2 * n + 1) (2 * n + 1) (gs_grid s3)) by (by rewrite Hg3).
  destruct (set_tile_spec (2 * n + 1) (2 * n + 1) ((cx + d.1) * 2 + 1) ((cy + d.2) * 2 + 1)
              TILE_EMPTY s3 Hgd3) as (s4 & E4 & Hg4 & Hv4 & _ & A4); [lia..|].
  exists s1, s2, s3, s4. split_and!; try done.
  split; simpl.
  - done.
  - by rewrite Hv4.
  - intros x y. rewrite A4, Hg3, A2, A1.
    repeat case_decide; try done; lia.
  - intros x y. rewrite Hv4, A3, Hv2, Hv1. done.
Qed.

(** ** The shuffle keeps the four directions *)

Lemma random_below_range k r : 0 < k → 0 ≤ (random_below k r).1 < k.
Proof.
  intros Hk. unfold random_below. simpl. rewrite bool_decide_eq_true_2 by done.
  apply Z.mod_pos_bound. done.
Qed.

Lemma random_below_nat (k : nat) r :
  (0 < k)%nat → (Z.to_nat (random_below (Z.of_nat k) r).1 < k)%nat.
Proof. intros Hk. pose proof (random_below_range (Z.of_nat k) r). lia. Qed.

Lemma shuffle_dirs0 r d : d ∈ (shuffle dirs0 r).1 ↔ d ∈ dirs0.
Proof.
  unfold shuffle, dirs0. simpl length. simpl Nat.sub.
  unfold shuffle_from.
  destruct (random_below (Z.of_nat 3 + 1) r) as [j3 r3] eqn:E3.
  destruct (random_below (Z.of_nat 2 + 1) r3) as [j2 r2] eqn:E2.
  destruct (random_below (Z.of_nat 1 + 1) r2) as [j1 r1] eqn:E1.
  pose proof (random_below_nat 4 r) as H3.
  pose proof (random_below_nat 3 r3) as H2.
  pose proof (random_below_nat 2 r2) as H1.
  change (Z.of_nat 4) with (Z.of_nat 3 + 1) in H3. rewrite E3 in H3.
  change (Z.of_nat 3) with (Z.of_nat 2 + 1) in H2. rewrite E2 in H2.
  change (Z.of_nat 2) with (Z.of_nat 1 + 1) in H1. rewrite E1 in H1.
  simpl in H1, H2, H3. simpl fst.
  destruct (Z.to_nat j3) as [|[|[|[|?]]]]; [| | | |lia];
    destruct (Z.to_nat j2) as [|[|[|?]]]; try lia;
      destruct (Z.to_nat j1) as [|[|?]]; try lia;
        cbn [swap lookup list_lookup insert list_insert];
        rewrite !elem_of_cons, !elem_of_nil; tauto.
Qed.

(** ** The loop over the directions, and the recursion *)

Lemma mono_trans a b c : mono a b → mono b c → mono a c.
Proof. intros H1 H2 x y Hs. by apply H2, H1. Qed.

Lemma nbrs_done_mono n a b x y : mono a b → nbrs_done n a x y → nbrs_done n b x y.
Proof. intros Hm Hn d Hd Hin. by apply Hm, Hn. Qed.

Lemma carve_dirs_spec n fuel cx cy :
  carve_ok n fuel → in_cells n cx cy →
  ∀ dirs st,
    (∀ d, d ∈ dirs → d ∈ dirs0) →
    maze_inv n st → seen (gs_visited st) cx cy → (unvisited n st ≤ fuel)%nat →
    ∃ st', carve_dirs (carve fuel n n) n n cx cy dirs st = Done st' ∧
           maze_inv n st' ∧ mono st st' ∧
           (count_cells n (gs_grid st) ≤ count_cells n (gs_grid st'))%nat ∧
           (∀ d, d ∈ dirs → in_cells n (cx + d.1) (cy + d.2) →
                 seen (gs_visited st') (cx + d.1) (cy + d.2)) ∧
           closed_since n st st'.
Proof.
  intros IHf Hc. induction dirs as [|[dx dy] ds IHds]; intros st Hdirs Hinv Hseen Hfuel.
  - exists st. split_and!; try done.
    + by intros x y Hs.
    + intros d Hd. by apply elem_of_nil in Hd.
    + intros x y _ Hs Hns. done.
  - assert (Hds : ∀ d, d ∈ ds → d ∈ dirs0)
      by (intros d Hd; apply Hdirs; by apply list_elem_of_further).
    assert (Hd0 : (dx, dy) ∈ dirs0) by (apply Hdirs, list_elem_of_here).
    simpl. case_bool_decide as Hin.
    + assert (Hnb : in_cells n (cx + dx) (cy + dy)) by (unfold in_cells; lia).
      destruct (not_visited_spec n (cx + dx) (cy + dy) st (inv_vis Hinv) Hnb)
        as (b & -> & Hb). simpl.
      destruct b.
      * assert (Hfresh : ¬ seen (gs_visited st) (cx + dx) (cy + dy))
          by (intros Hs; apply Hb in Hs; done).
        apply dirs0_cases in Hd0.
        destruct (enter_writes n cx cy (dx, dy) st Hinv Hc Hd0 Hnb)
          as (s1 & s2 & s3 & s4 & E1 & E2 & E3 & E4 & Hent).
        simpl in E1, E2, E3, E4, Hent.
        rewrite E1. simpl. rewrite E2. simpl.
        assert (Hctx : step_ctx n cx cy (dx, dy) st s4) by (by split).
        pose proof (step_inv Hctx) as Hinv4.
        pose proof (step_count_cells Hctx) as Hcount4.
        pose proof (step_mono Hctx) as Hmono4.
        pose proof (count_cells_le n (gs_grid s4)) as Hle4.
        destruct (IHf (cx + dx) (cy + dy) s2 s3 s4 Hnb E3 E4 Hinv4)
          as (s5 & E5 & Hinv5 & Hmono5 & Hcount5 & Hclosed5).
        { apply (step_seen Hctx _ _). by left. }
        { unfold unvisited in *. lia. }
        rewrite E5. simpl.
        destruct (IHds s5 Hds Hinv5) as (s6 & E6 & Hinv6 & Hmono6 & Hcount6 & Hdone6 & Hclosed6).
        { by apply Hmono5, Hmono4. }
        { unfold unvisited in *. lia. }
        exists s6. split_and!; try done.
        -- eapply mono_trans; [|exact Hmono6]. eapply mono_trans; done.
        -- lia.
        -- intros d [->|Hd]%elem_of_cons Hdin.
           ++ apply Hmono6, Hmono5. apply (step_seen Hctx _ _). by left.
           ++ by apply Hdone6.
        -- intros x y Hxy Hs6 Hns.
           destruct (decide (seen (gs_visited s5) x y)) as [Hs5|Hns5].
           ++ apply (nbrs_done_mono n s5); [done|].
              apply Hclosed5; [done..|].
              destruct (decide (x = cx + dx ∧ y = cy + dy)) as [?|Hne]; [by right|].
              left. intros Hs4. apply (step_seen Hctx _ _) in Hs4.
              simpl in Hs4. tauto.
           ++ by apply Hclosed6.
      * assert (Hs : seen (gs_visited st) (cx + dx) (cy + dy)) by (by apply Hb).
        destruct (IHds st Hds Hinv Hseen Hfuel)
          as (s6 & E6 & Hinv6 & Hmono6 & Hcount6 & Hdone6 & Hclosed6).
        exists s6. split_and!; try done.
        intros d [->|Hd]%elem_of_cons Hdin; [by apply Hmono6|by apply Hdone6].
    + destruct (IHds st Hds Hinv Hseen Hfuel)
        as (s6 & E6 & Hinv6 & Hmono6 & Hcount6 & Hdone6 & Hclosed6).
      exists s6. split_and!; try done.
      intros d [->|Hd]%elem_of_cons Hdin; [|by apply Hdone6].
      unfold in_cells in Hdin. simpl in Hdin. lia.
Qed.

Lemma carve_S fuel w h cx cy st :
  carve (S fuel) w h cx cy st =
  (st ←r set_visited cx cy st;
   st ←r set_tile (cx * 2 + 1) (cy * 2 + 1) TILE_EMPTY st;
   let '(dirs, r) := shuffle dirs0 (gs_rng st) in
   carve_dirs (carve fuel w h) w h cx cy dirs
     (GenState (gs_grid st) (gs_visited st) r)).
Proof. reflexivity. Qed.

Lemma carve_spec n fuel : carve_ok n fuel.
Proof.
  induction fuel as [|fuel IH];
    intros cx cy st sta st1 Hc Ea E1 Hinv Hseen Hfuel; [lia|].
  rewrite carve_S, Ea. unfold rbind at 1. rewrite E1. unfold rbind at 1.
  destruct (shuffle dirs0 (gs_rng st1)) as [dirs r] eqn:Hsh.
  set (st2 := GenState (gs_grid st1) (gs_visited st1) r).
  assert (Hinv2 : maze_inv n st2) by (by apply (maze_inv_same n st1)).
  destruct (carve_dirs_spec n fuel cx cy IH Hc dirs st2)
    as (st' & E' & Hinv' & Hmono' & Hcount' & Hdone' & Hclosed'); try done.
  { intros d Hd. apply (shuffle_dirs0 (gs_rng st1)). by rewrite Hsh. }
  { unfold unvisited in *. simpl. lia. }
  exists st'. split_and!; try done.
  intros x y Hxy Hs' [Hns|[-> ->]].
  - by apply Hclosed'.
  - intros d Hd Hin. apply Hdone'; [|done].
    apply (shuffle_dirs0 (gs_rng st1)) in Hd. by rewrite Hsh in Hd.
Qed.

(** A deeper stack changes nothing in a run that returns. *)
Lemma carve_dirs_mono (rec rec' : Z → Z → gen_state → result gen_state) w h cx cy :
  (∀ x y s s', rec x y s = Done s' → rec' x y s = Done s') →
  ∀ dirs st st', carve_dirs rec w h cx cy dirs st = Done st' →
                 carve_dirs rec' w h cx cy dirs st = Done st'.
Proof.
  intros Hrec. induction dirs as [|[dx dy] ds IH]; intros st st'; simpl; [done|].
  case_bool_decide; [|apply IH].
  destruct (not_visited _ _ st) as [[|]|]; simpl; [|apply IH|done].
  destruct (set_tile _ _ _ st) as [s1|]; simpl; [|done].
  destruct (set_tile _ _ _ s1) as [s2|]; simpl; [|done].
  destruct (rec _ _ s2) as [s3|] eqn:E3; simpl; [|done].
  rewrite (Hrec _ _ _ _ E3). simpl. apply IH.
Qed.

Lemma carve_fuel_S fuel w h : ∀ cx cy st st',
  carve fuel w h cx cy st = Done st' → carve (S fuel) w h cx cy st = Done st'.
Proof.
  induction fuel as [|fuel IH]; intros cx cy st st'; [done|].
  rewrite (carve_S (S fuel)), (carve_S fuel).
  destruct (set_visited cx cy st) as [sa|]; simpl; [|done].
  destruct (set_tile _ _ _ sa) as [s1|]; simpl; [|done].
  destruct (shuffle dirs0 (gs_rng s1)) as [dirs r].
  apply carve_dirs_mono. apply IH.
Qed.

Lemma carve_fuel_le fuel fuel' w h cx cy st st' :
  (fuel ≤ fuel')%nat →
  carve fuel w h cx cy st = Done st' → carve fuel' w h cx cy st = Done st'.
Proof.
  induction 1 as [|fuel' _ IH]; [done|]. intros E. by apply carve_fuel_S, IH.
Qed.


(** ** The whole maze *)

Lemma all_seen n st :
  (∀ x y, in_cells n x y → seen (gs_visited st) x y → nbrs_done n st x y) →
  seen (gs_visited st) 0 0 →
  ∀ x y, in_cells n x y → seen (gs_visited st) x y.
Proof.
  intros Hclosed H00.
  assert (Hrow : ∀ x, 0 ≤ x → x < n → 0 < n → seen (gs_visited st) x 0).
  { intros x Hx. pattern x. apply natlike_ind; [done| |done].
    clear x Hx. intros x Hx IH Hlt Hn.
    assert (Hs : seen (gs_visited st) x 0) by (apply IH; lia).
    pose proof (Hclosed x 0 ltac:(unfold in_cells; lia) Hs (1, 0)) as Hnb.
    simpl in Hnb. replace (0 + 0) with 0 in Hnb by lia.
    apply Hnb; [apply dirs0_cases; tauto|unfold in_cells; lia]. }
  intros x y [Hx Hy]. destruct Hy as [Hy0 Hyn]. revert Hyn.
  pattern y. apply natlike_ind; [|clear y Hy0|done].
  - intros Hn. apply Hrow; lia.
  - intros y Hy IH Hlt.
    assert (Hs : seen (gs_visited st) x y) by (apply IH; lia).
    pose proof (Hclosed x y ltac:(unfold in_cells; lia) Hs (0, 1)) as Hnb.
    simpl in Hnb. replace (x + 0) with x in Hnb by lia.
    apply Hnb; [apply dirs0_cases; tauto|unfold in_cells; lia].
Qed.

Lemma generateMaze_run n r :
  1 ≤ n →
  ∃ st', carve (Z.to_nat (n * n)) n n 0 0
           (GenState (filled (n * 2 + 1) (n * 2 + 1) TILE_WALL) (filled n n false) r)
         = Done st' ∧
         maze_inv n st' ∧ ∀ x y, in_cells n x y → seen (gs_visited st') x y.
Proof.
  intros Hn.
  replace (n * 2 + 1) with (2 * n + 1) by lia.
  set (st0 := GenState (filled (2 * n + 1) (2 * n + 1) TILE_WALL) (filled n n false) r).
  destruct (set_visited_spec n n 0 0 st0 (filled_dims _ _ _))
    as (sta & Ea & Hva & Hga & _ & Aa); [lia..|].
  assert (Hgda : dims (2 * n + 1) (2 * n + 1) (gs_grid sta))
    by (rewrite Hga; apply filled_dims).
  destruct (set_tile_spec _ _ (0 * 2 + 1) (0 * 2 + 1) TILE_EMPTY sta Hgda)
    as (st1 & E1 & Hg1 & Hv1 & _ & A1); [lia..|].
  destruct (start_inv n st1) as [Hinv1 Hcount1]; try done.
  { by rewrite Hv1. }
  { intros x y. rewrite A1, Hga. simpl. done. }
  { intros x y. rewrite Hv1, Aa. done. }
  assert (Hseen1 : ∀ x y, seen (gs_visited st1) x y ↔ x = 0 ∧ y = 0).
  { intros x y. unfold seen. rewrite Hv1, Aa. case_decide; [done|].
    simpl. rewrite at2_filled. case_decide; split; (done || tauto). }
  assert (Hnn : (1 ≤ Z.to_nat (n * n))%nat) by nia.
  destruct (carve_spec n (Z.to_nat (n * n)) 0 0 st0 sta st1)
    as (st' & E' & Hinv' & Hmono' & _ & Hclosed'); try done.
  { unfold in_cells. lia. }
  { by apply Hseen1. }
  { unfold unvisited. lia. }
  exists st'. split_and!; try done.
  apply all_seen.
  - intros x y Hxy Hs. apply Hclosed'; [done..|].
    destruct (decide (x = 0 ∧ y = 0)); [by right|left].
    by rewrite Hseen1.
  - apply Hmono'. by apply Hseen1.
Qed.

Lemma generateMaze_total n r : 1 ≤ n → ∃ m r', generateMaze n r = Done (m, r').
Proof.
  intros Hn. destruct (generateMaze_run n r Hn) as (st' & E' & _).
  unfold generateMaze. rewrite Z.max_r by nia. unfold generateMaze_fuel. rewrite E'. simpl. by eexists _, _.
Qed.

Lemma generateMaze_fuel_run (stack : nat) n r :
  1 ≤ n → (Z.to_nat (n * n) ≤ stack)%nat →
  ∃ st', carve stack n n 0 0
           (GenState (filled (n * 2 + 1) (n * 2 + 1) TILE_WALL) (filled n n false) r)
         = Done st' ∧
         maze_inv n st' ∧ ∀ x y, in_cells n x y → seen (gs_visited st') x y.
Proof.
  intros Hn Hstack. destruct (generateMaze_run n r Hn) as (st' & E' & Hinv' & Hall).
  exists st'. split; [|done]. by apply (carve_fuel_le (Z.to_nat (n * n))).
Qed.

Lemma perfect_of_inv n st' :
  1 ≤ n → maze_inv n st' → (∀ x y, in_cells n x y → seen (gs_visited st') x y) →
  perfect_maze n (Maze (gs_grid st') (n * 2 + 1) (n * 2 + 1)).
Proof.
  intros Hn Hinv' Hall.
  split; simpl; try lia.
  - apply (inv_grid Hinv').
  - apply (inv_tiles Hinv').
  - intros x y Hxy. apply (inv_cell Hinv'); auto.
  - intros tx ty He. unfold empty_tile_kind.
    destruct (inv_open Hinv' tx ty He)
      as [?|[(x & y & ? & ? & ? & ? & _)|(x & y & ? & ? & ? & ? & _)]];
      [by left|right; left|right; right]; exists x, y; done.
  - intros [ax ay] [bx b_y] Ha Hb. simpl in *.
    apply (rtc_trans _ (1, 1) _); [|by apply (inv_conn Hinv')].
    apply connected_sym. by apply (inv_conn Hinv').
  - unfold count_cells. rewrite length_filter_all.
    + unfold cells. rewrite length_positions. lia.
    + intros [x y] Hxy%elem_of_positions. unfold cell_open. simpl.
      apply (inv_cell Hinv'); auto.
  - pose proof (inv_count Hinv') as Hc.
    assert (count_cells n (gs_grid st') = Z.to_nat (n * n)) as Hcc.
    { unfold count_cells. rewrite length_filter_all.
      + unfold cells. rewrite length_positions. lia.
      + intros [x y] Hxy%elem_of_positions. unfold cell_open. simpl.
        apply (inv_cell Hinv'); auto. }
    lia.
  - destruct (inv_tree Hinv') as (order & Htree & Horder).
    exists order. split; [done|]. intros c. rewrite Horder.
    split; [tauto|]. intros Hc. split; [done|]. by apply Hall.
  - destruct (inv_tree Hinv') as (order & Htree & Horder).
    intros cyc Hcyc. apply (tree_order_acyclic n _ order cyc Htree); [|done].
    intros c Hc. apply Horder.
    destruct Hcyc as (Hlen & _ & Hedges).
    apply list_elem_of_lookup in Hc as [i Hi].
    pose proof (lookup_lt_Some _ _ _ Hi) as Hilt.
    destruct (lookup_lt_is_Some_2 cyc (next_index (length cyc) i)
                (next_index_lt _ _ Hilt)) as [b Hb].
    destruct (Hedges i c b Hi Hb) as (Hin & _).
    split; [done|]. by apply Hall.
Qed.

(** C1, as the code has it.  For every [n ≥ 1], on a call stack with room
    for [n²] nested calls of [carve] (and whatever the random draws),
    [generateMaze(n)] returns a grid of [(2n+1)×(2n+1)] tiles, each empty or
    wall, in which every logical cell is open, every empty tile is a cell
    or the tile between two adjacent cells, any two empty tiles are joined
    by a walk over empty tiles (one connected component, no isolated cell),
    exactly [n²−1] passages between the [n²] logical cells are open, and
    the passages form a tree over the cells: no cycle. *)
Theorem generateMaze_perfect (stack : nat) (n : Z) (r : rng) :
  1 ≤ n → (Z.to_nat (n * n) ≤ stack)%nat →
  ∃ m r', generateMaze_fuel stack n r = Done (m, r') ∧ perfect_maze n m.
Proof.
  intros Hn Hstack.
  destruct (generateMaze_fuel_run stack n r Hn Hstack) as (st' & E' & Hinv' & Hall).
  unfold generateMaze_fuel. rewrite E'. simpl.
  eexists _, _. split; [done|]. by apply perfect_of_inv.
Qed.

Lemma generateMaze_perfect_witness :
  1 ≤ 3 ∧ (Z.to_nat (3 * 3) ≤ 9)%nat ∧
  ∃ m r', generateMaze_fuel 9 3 zero_rng = Done (m, r') ∧ perfect_maze 3 m.
Proof.
  split; [lia|]. split; [simpl; lia|].
  apply (generateMaze_perfect 9 3 zero_rng); [lia|simpl; lia].
Defined.

(** With draws that are all [0] the shuffle puts the step down second,
    after the step to the left. *)
Lemma shuffle_zero r :
  rng_draws r = (λ _, 0) →
  ∃ r', shuffle dirs0 r = ([(-1, 0); (0, 1); (0, -1); (1, 0)], r') ∧
        rng_draws r' = (λ _, 0).
Proof.
  destruct r as [draws pos]. simpl. intros ->.
  eexists. split; reflexivity.
Qed.

(** With such draws [carve] walks down the first column: from [(0, y)] it
    nests [n - y] calls before any of them returns. *)
Lemma carve_overflow n : ∀ fuel y st,
  0 ≤ y → Z.of_nat fuel < n - y →
  dims (2 * n + 1) (2 * n + 1) (gs_grid st) → dims n n (gs_visited st) →
  (∀ y', y < y' < n → at2 (gs_visited st) 0 y' = Some false) →
  rng_draws (gs_rng st) = (λ _, 0) →
  carve fuel n n 0 y st = Fail StackExhausted.
Proof.
  induction fuel as [|fuel IH]; intros y st Hy Hfuel Hg Hv Hfresh Hr; [done|].
  rewrite carve_S.
  destruct (set_visited_spec n n 0 y st Hv) as (sa & Ea & Hva & Hga & Hra & Aa); [lia..|].
  rewrite Ea, rbind_Done.
  destruct (set_tile_spec (2 * n + 1) (2 * n + 1) (0 * 2 + 1) (y * 2 + 1) TILE_EMPTY sa)
    as (s1 & E1 & Hg1 & Hv1 & Hr1 & A1); [by rewrite Hga|lia|lia|].
  rewrite E1, rbind_Done.
  destruct (shuffle_zero (gs_rng s1)) as (r' & -> & Hr'); [congruence|].
  cbv beta iota.
  set (s2 := GenState (gs_grid s1) (gs_visited s1) r').
  cbn [carve_dirs].
  rewrite bool_decide_eq_false_2 by lia.
  rewrite bool_decide_eq_true_2 by lia.
  assert (Hv2 : dims n n (gs_visited s2)) by (simpl; by rewrite Hv1).
  destruct (not_visited_spec n (0 + 0) (y + 1) s2 Hv2) as (b & Eb & Hb);
    [unfold in_cells; lia|].
  rewrite Eb, rbind_Done.
  assert (Hat : ∀ y', y < y' < n → at2 (gs_visited s2) 0 y' = Some false).
  { intros y' Hy'. simpl. rewrite Hv1, Aa, decide_False by lia. by apply Hfresh. }
  destruct b.
  2: { destruct Hb as [Hb _]. specialize (Hb eq_refl). unfold seen in Hb.
       replace (0 + 0) with 0 in Hb by lia. rewrite Hat in Hb by lia. discriminate. }
  destruct (set_tile_spec (2 * n + 1) (2 * n + 1) (0 * 2 + 1 + 0) (y * 2 + 1 + 1)
              TILE_EMPTY s2) as (s3 & E3 & Hg3 & Hv3 & Hr3 & _); [done|lia|lia|].
  rewrite E3, rbind_Done.
  destruct (set_tile_spec (2 * n + 1) (2 * n + 1) ((0 + 0) * 2 + 1) ((y + 1) * 2 + 1)
              TILE_EMPTY s3) as (s4 & E4 & Hg4 & Hv4 & Hr4 & _); [done|lia|lia|].
  rewrite E4, rbind_Done.
  replace (0 + 0) with 0 by lia.
  rewrite (IH (y + 1) s4); [done|lia|lia|done| | |].
  - by rewrite Hv4, Hv3.
  - intros y' Hy'. rewrite Hv4, Hv3. apply Hat. lia.
  - by rewrite Hr4, Hr3.
Qed.

(** C1 as stated fails on every call stack: whatever its depth [stack],
    [generateMaze(stack + 1)] with draws that are all [0] nests more than
    [stack] calls and throws instead of returning a maze. *)
Lemma generateMaze_stack_counterexample : ¬ ∃ stack, generates_every_size stack.
Proof.
  intros [stack H].
  destruct (H (Z.of_nat stack + 1) zero_rng) as (m & r' & E & _); [lia|].
  unfold generateMaze_fuel in E.
  rewrite (carve_overflow (Z.of_nat stack + 1)) in E; [done|lia|lia| | | |done].
  - replace (2 * (Z.of_nat stack + 1) + 1) with ((Z.of_nat stack + 1) * 2 + 1) by lia.
    apply filled_dims.
  - apply filled_dims.
  - intros y' Hy'. simpl. rewrite at2_filled. by rewrite decide_True by lia.
Qed.

(** C10.  For every [n ≥ 1], the maze returned by [generateMaze(n)] has an
    empty tile at [(1, 1)], inside the grid: the last-resort answer of
    [pickRandomCell] is an empty tile of any generated maze. *)
Theorem generateMaze_start_open (n : Z) (r : rng) :
  1 ≤ n →
  ∃ m r', generateMaze n r = Done (m, r') ∧
          at2 (maze_grid m) 1 1 = Some TILE_EMPTY ∧
          0 ≤ 1 < maze_width m ∧ 0 ≤ 1 < maze_height m.
Proof.
  intros Hn. destruct (generateMaze_run n r Hn) as (st' & E' & Hinv' & Hall).
  unfold generateMaze. rewrite Z.max_r by nia. unfold generateMaze_fuel. rewrite E'. simpl.
  eexists _, _. split; [done|]. simpl. split; [|lia].
  apply (inv_cell Hinv' 0 0); [unfold in_cells; lia|].
  apply Hall. unfold in_cells. lia.
Qed.

Lemma generateMaze_start_open_witness :
  1 ≤ 3 ∧ ∃ m r', generateMaze 3 sample_rng = Done (m, r') ∧
                  at2 (maze_grid m) 1 1 = Some TILE_EMPTY ∧
                  0 ≤ 1 < maze_width m ∧ 0 ≤ 1 < maze_height m.
Proof. split; [lia|apply (generateMaze_start_open 3 sample_rng); lia]. Defined.

(** ** pickRandomCell returns an empty tile *)

Lemma is_empty_true g x y : is_empty g x y = true ↔ empty_at g x y.
Proof. unfold is_empty, empty_at. apply bool_decide_eq_true. Qed.

Lemma elem_of_scan_order w h x y :
  (x, y) ∈ scan_order w h ↔ (0 ≤ x < w) ∧ (0 ≤ y < h).
Proof.
  unfold scan_order. rewrite list_elem_of_bind. split.
  - intros (y' & Hx & Hy). apply list_elem_of_fmap in Hx as (x' & Heq & Hx).
    inversion Heq; subst. apply elem_of_seqZ in Hx, Hy. lia.
  - intros [Hx Hy]. exists y. split.
    + apply list_elem_of_fmap. exists x. split; [done|]. apply elem_of_seqZ. lia.
    + apply elem_of_seqZ. lia.
Qed.

Lemma pick_draws_sound attempts g regionTest w h r c r' :
  pick_draws attempts g regionTest w h r = (Some c, r') → empty_at g c.1 c.2.
Proof.
  revert r. induction attempts as [|k IH]; intros r; simpl; [done|].
  destruct (is_empty g _ _ && regionTest _ _) eqn:Htest.
  - intros [= <- <-]. simpl. apply is_empty_true.
    by apply andb_true_iff in Htest as [? _].
  - apply IH.
Qed.

Lemma dims_first_row (w h : Z) (g : grid) row0 rest :
  dims w h g → has_empty g → g = row0 :: rest →
  Z.of_nat (length g) = h ∧ Z.of_nat (length row0) = w.
Proof.
  intros Hd (x & y & He) ->.
  pose proof (at2_Some_dims w h _ x y _ Hd He) as [Hx Hy].
  destruct Hd as [Hh Hw]. apply Forall_cons in Hw as [Hw0 _]. lia.
Qed.

Lemma pickRandomCell_sound (w h : Z) g regionTest attempts r :
  dims w h g → has_empty g →
  ∃ c r', pickRandomCell g regionTest attempts r = Done (c, r') ∧
          empty_at g c.1 c.2.
Proof.
  intros Hd Hex. unfold pickRandomCell.
  destruct g as [|row0 rest] eqn:Hg.
  { destruct Hex as (x & y & He). unfold empty_at, at2 in He.
    case_bool_decide; [|done]. by rewrite lookup_nil in He. }
  rewrite <- Hg in *.
  destruct (dims_first_row w h g row0 rest Hd Hex Hg) as [Hlh Hlw].
  rewrite Hlh, Hlw. clear Hlh Hlw.
  destruct (pick_draws _ _ _ _ _ _) as [[c|] r1] eqn:Hdraw.
  { exists c, r1. split; [done|]. by eapply pick_draws_sound. }
  destruct (find _ _) as [c|] eqn:Hf1.
  { exists c, r1. split; [done|]. apply find_some in Hf1 as [_ Hc].
    apply andb_true_iff in Hc as [Hc _]. by apply is_empty_true. }
  destruct (find (λ c, is_empty g c.1 c.2) _) as [c|] eqn:Hf2.
  { exists c, r1. split; [done|]. apply find_some in Hf2 as [_ Hc].
    by apply is_empty_true. }
  exfalso. destruct Hex as (x & y & He).
  pose proof (at2_Some_dims _ _ _ x y _ Hd He) as [Hx Hy].
  pose proof (find_none _ _ Hf2 (x, y)) as Hnone. simpl in Hnone.
  rewrite (proj2 (is_empty_true g x y) He) in Hnone.
  assert (Hin : In (x, y) (scan_order w h)).
  { apply list_elem_of_In, elem_of_scan_order. done. }
  by specialize (Hnone Hin).
Qed.

(** C9.  For every rectangular grid with at least one empty tile, every
    region predicate and every number of attempts, [pickRandomCell] returns
    a tile that lies within the bounds of the grid and is empty, hence not a
    wall. *)
Theorem pickRandomCell_empty (w h : Z) (g : grid) (regionTest : Z → Z → bool)
    (attempts : nat) (r : rng) :
  dims w h g → has_empty g →
  ∃ c r', pickRandomCell g regionTest attempts r = Done (c, r') ∧
          (0 ≤ c.1 < w) ∧ (0 ≤ c.2 < h) ∧
          at2 g c.1 c.2 = Some TILE_EMPTY ∧ at2 g c.1 c.2 ≠ Some TILE_WALL.
Proof.
  intros Hd Hex.
  destruct (pickRandomCell_sound w h g regionTest attempts r Hd Hex) as (c & r' & E & He).
  exists c, r'. split; [done|].
  pose proof (at2_Some_dims _ _ _ _ _ _ Hd He) as [Hx Hy].
  split_and!; try lia; try done. rewrite He. done.
Qed.

Lemma pickRandomCell_empty_witness :
  dims 3 3 [[1; 1; 1]; [1; 0; 1]; [1; 1; 1]] ∧
  has_empty [[1; 1; 1]; [1; 0; 1]; [1; 1; 1]] ∧
  ∃ c r', pickRandomCell [[1; 1; 1]; [1; 0; 1]; [1; 1; 1]] (λ _ _, false) 500 sample_rng
          = Done (c, r') ∧
          (0 ≤ c.1 < 3) ∧ (0 ≤ c.2 < 3) ∧
          at2 [[1; 1; 1]; [1; 0; 1]; [1; 1; 1]] c.1 c.2 = Some TILE_EMPTY ∧
          at2 [[1; 1; 1]; [1; 0; 1]; [1; 1; 1]] c.1 c.2 ≠ Some TILE_WALL.
Proof.
  assert (Hd : dims 3 3 [[1; 1; 1]; [1; 0; 1]; [1; 1; 1]]).
  { split; [reflexivity|]. repeat constructor. }
  assert (He : has_empty [[1; 1; 1]; [1; 0; 1]; [1; 1; 1]]).
  { exists 1, 1. reflexivity. }
  split; [exact Hd|]. split; [exact He|].
  exact (pickRandomCell_empty 3 3 _ (λ _ _, false) 500 sample_rng Hd He).
Defined.

(** ** The scan for the farthest tile *)

Lemma scan_order_index w h :
  0 ≤ w → 0 ≤ h → scan_index w <$> scan_order w h = seqZ 0 (w * h).
Proof.
  intros Hw Hh. pattern h. apply natlike_ind; [|clear h Hh|done].
  - unfold scan_order. by rewrite Z.mul_0_r.
  - intros h Hh IH. unfold scan_order in *.
    replace (Z.succ h) with (h + 1) by lia.
    rewrite (seqZ_app 0 h 1) by lia.
    rewrite bind_app, fmap_app, IH.
    replace (w * (h + 1)) with (w * h + w) by lia.
    rewrite (seqZ_app 0 (w * h) w) by nia.
    f_equal. rewrite (seqZ_cons (0 + h) 1) by lia.
    rewrite (seqZ_nil _ (Z.pred 1)) by lia.
    rewrite bind_cons. change ([] ≫= _) with (@nil (Z * Z)). rewrite app_nil_r.
    rewrite <- list_fmap_compose.
    replace (0 + w * h) with (w * h + 0) by lia.
    rewrite <- (fmap_add_seqZ (w * h) 0 w).
    apply list_fmap_ext. intros i x _. unfold scan_index. simpl. lia.
Qed.

Lemma scan_order_split w h l1 b l2 :
  0 ≤ w → 0 ≤ h → scan_order w h = l1 ++ b :: l2 →
  (∀ c, c ∈ l1 → scan_index w c < scan_index w b) ∧
  (∀ c, c ∈ l2 → scan_index w b < scan_index w c).
Proof.
  intros Hw Hh Hsplit.
  pose proof (scan_order_index w h Hw Hh) as Hidx.
  rewrite Hsplit, fmap_app, fmap_cons in Hidx.
  assert (Hb : scan_index w b = Z.of_nat (length l1)).
  { assert (seqZ 0 (w * h) !! length l1 = Some (scan_index w b)) as Hl.
    { rewrite <- Hidx. rewrite lookup_app_r by (by rewrite length_fmap).
      by rewrite length_fmap, Nat.sub_diag. }
    apply lookup_seqZ in Hl. lia. }
  split; intros c Hc.
  - apply list_elem_of_lookup in Hc as [j Hj].
    assert (seqZ 0 (w * h) !! j = Some (scan_index w c)) as Hl.
    { rewrite <- Hidx. rewrite lookup_app_l.
      - by rewrite list_lookup_fmap, Hj.
      - rewrite length_fmap. by eapply lookup_lt_Some. }
    apply lookup_seqZ in Hl. apply lookup_lt_Some in Hj. lia.
  - apply list_elem_of_lookup in Hc as [j Hj].
    assert (seqZ 0 (w * h) !! (length l1 + S j)%nat = Some (scan_index w c)) as Hl.
    { rewrite <- Hidx. rewrite lookup_app_r by (rewrite length_fmap; lia).
      rewrite length_fmap.
      replace (length l1 + S j - length l1)%nat with (S j) by lia.
      simpl. by rewrite list_lookup_fmap, Hj. }
    apply lookup_seqZ in Hl. lia.
Qed.

Lemma scan_best_spec (w h : Z) g a :
  dims w h g →
  ∀ cs best bestD,
    (∀ c, c ∈ cs → (0 ≤ c.1 < w) ∧ (0 ≤ c.2 < h)) →
    ∃ b D, scan_best g a cs best bestD = Done (b, D) ∧
           bestD ≤ D ∧
           (∀ c, c ∈ cs → empty_at g c.1 c.2 → distance a c ≤ D) ∧
           ((b = best ∧ D = bestD) ∨
            (∃ l1 l2, cs = l1 ++ b :: l2 ∧ empty_at g b.1 b.2 ∧ D = distance a b ∧
                      bestD < D ∧ ∀ c, c ∈ l1 → empty_at g c.1 c.2 → distance a c < D)).
Proof.
  intros Hd. induction cs as [|c cs IH]; intros best bestD Hin.
  - exists best, bestD. split_and!; try done; [|by left].
    intros c Hc. by apply elem_of_nil in Hc.
  - assert (Hcs : ∀ c', c' ∈ cs → (0 ≤ c'.1 < w) ∧ (0 ≤ c'.2 < h))
      by (intros c' Hc'; apply Hin; by apply list_elem_of_further).
    destruct (Hin c (list_elem_of_here _ _)) as [Hx Hy].
    simpl. rewrite (array2_get_spec w h g _ _ Hd Hx Hy). simpl.
    case_bool_decide as Hne.
    + destruct (IH best bestD Hcs) as (b & D & E & Hle & Hmax & Hwho).
      exists b, D. split_and!; try done.
      * intros c' [->|Hc']%elem_of_cons He; [done|by apply Hmax].
      * destruct Hwho as [?|(l1 & l2 & -> & ? & ? & ? & Hl1)]; [by left|right].
        exists (c :: l1), l2. split_and!; try done.
        intros c' [->|Hc']%elem_of_cons He; [done|by apply Hl1].
    + assert (Hec : empty_at g c.1 c.2).
      { unfold empty_at. destruct (decide (at2 g c.1 c.2 = Some TILE_EMPTY)); [done|].
        by destruct Hne. }
      case_bool_decide as Hlt.
      * destruct (IH c (distance a c) Hcs) as (b & D & E & Hle & Hmax & Hwho).
        exists b, D. split_and!; try done; [lia| |].
        -- intros c' [->|Hc']%elem_of_cons He; [done|by apply Hmax].
        -- right. destruct Hwho as [[-> ->]|(l1 & l2 & -> & ? & ? & ? & Hl1)].
           ++ exists [], cs. split_and!; try done.
              intros c' Hc'. by apply elem_of_nil in Hc'.
           ++ exists (c :: l1), l2. split_and!; try done; [lia|].
              intros c' [->|Hc']%elem_of_cons He; [lia|by apply Hl1].
      * destruct (IH best bestD Hcs) as (b & D & E & Hle & Hmax & Hwho).
        exists b, D. split_and!; try done.
        -- intros c' [->|Hc']%elem_of_cons He; [lia|by apply Hmax].
        -- destruct Hwho as [?|(l1 & l2 & -> & ? & ? & ? & Hl1)]; [by left|right].
           exists (c :: l1), l2. split_and!; try done.
           intros c' [->|Hc']%elem_of_cons He; [lia|by apply Hl1].
Qed.

Lemma distance_nonneg a b : 0 ≤ distance a b.
Proof.
  unfold distance. cbv zeta. generalize (a.1 - b.1), (a.2 - b.2). intros u v. nia.
Qed.

(** The scan started as the server starts it, from [(aStart, -1)]. *)
Lemma scan_best_farthest (w h : Z) g a :
  dims w h g → empty_at g a.1 a.2 →
  ∃ b D, scan_best g a (scan_order w h) a (-1) = Done (b, D) ∧ farthest_first g a b.
Proof.
  intros Hd Ha.
  pose proof (at2_Some_dims _ _ _ _ _ _ Hd Ha) as [Hax Hay].
  destruct (scan_best_spec w h g a Hd (scan_order w h) a (-1))
    as (b & D & E & _ & Hmax & Hwho).
  { intros [x y] Hc. by apply elem_of_scan_order in Hc. }
  exists b, D. split; [done|].
  assert (Hall : ∀ c, empty_at g c.1 c.2 → c ∈ scan_order w h).
  { intros [x y] He. apply elem_of_scan_order. by eapply at2_Some_dims. }
  destruct Hwho as [[-> ->]|(l1 & l2 & Hsplit & Hb & -> & _ & Hl1)].
  { pose proof (Hmax a (Hall a Ha) Ha). pose proof (distance_nonneg a a). lia. }
  split_and!; [done|by intros c He; apply Hmax; [apply Hall|]|].
  intros c He Htie.
  pose proof (scan_order_split w h l1 b l2 ltac:(lia) ltac:(lia) Hsplit) as [_ Hafter].
  pose proof (Hall c He) as Hc. rewrite Hsplit in Hc.
  pose proof (at2_Some_dims _ _ _ _ _ _ Hd He) as [Hcx Hcy].
  pose proof (at2_Some_dims _ _ _ _ _ _ Hd Hb) as [Hbx Hby].
  unfold scanned_first.
  apply elem_of_app in Hc as [Hc|[->|Hc]%elem_of_cons].
  - specialize (Hl1 c Hc He). lia.
  - lia.
  - specialize (Hafter c Hc). unfold scan_index in Hafter. nia.
Qed.

(** ** The two spawns *)

Lemma retry_spawns_spec (w h : Z) g gridW gridH :
  dims w h g → has_empty g →
  ∀ budget a b tries r,
    empty_at g a.1 a.2 → empty_at g b.1 b.2 →
    ∃ a' b' tries' r',
      retry_spawns budget g gridW gridH a b tries r = Done (a', b', tries', r') ∧
      empty_at g a'.1 a'.2 ∧ empty_at g b'.1 b'.2 ∧
      (too_close a' b' (Z.max gridW gridH) = true → tries' = tries + Z.of_nat budget).
Proof.
  intros Hd Hex. induction budget as [|k IH]; intros a b tries r Ha Hb; simpl.
  - destruct (too_close a b _) eqn:Hc; exists a, b, tries, r; split_and!; try done.
    + intros _. lia.
    + congruence.
  - destruct (too_close a b _) eqn:Hc.
    + destruct (pickRandomCell_sound w h g (leftTopTest gridW gridH) 500 r Hd Hex)
        as (a1 & r1 & E1 & Ha1).
      rewrite E1. simpl.
      destruct (pickRandomCell_sound w h g (rightBottomTest gridW gridH) 500 r1 Hd Hex)
        as (b1 & r2 & E2 & Hb1).
      rewrite E2. simpl.
      destruct (IH a1 b1 (tries + 1) r2 Ha1 Hb1) as (a' & b' & t' & r' & E & ? & ? & Ht).
      exists a', b', t', r'. split_and!; try done.
      intros Hc'. rewrite (Ht Hc'). lia.
    + exists a, b, tries, r. split_and!; try done. congruence.
Qed.

Lemma too_close_false a b m : too_close a b m = false ↔ far_enough a b m.
Proof.
  unfold too_close, far_enough, distance. rewrite bool_decide_eq_false. lia.
Qed.

Lemma placeSpawns_spec (m : maze) (r : rng) :
  dims (maze_width m) (maze_height m) (maze_grid m) → has_empty (maze_grid m) →
  ∃ a b tries r',
    placeSpawns m r = Done (a, b, tries, r') ∧
    empty_at (maze_grid m) a.1 a.2 ∧ empty_at (maze_grid m) b.1 b.2 ∧
    (far_enough a b (Z.max (maze_width m) (maze_height m)) ∨
     (tries = 200 ∧ farthest_first (maze_grid m) a b)).
Proof.
  intros Hd Hex. unfold placeSpawns.
  destruct (pickRandomCell_sound _ _ (maze_grid m)
              (leftTopTest (maze_width m) (maze_height m)) 500 r Hd Hex)
    as (a0 & r0 & E0 & Ha0).
  rewrite E0, rbind_Done. cbn [fst snd].
  destruct (pickRandomCell_sound _ _ (maze_grid m)
              (rightBottomTest (maze_width m) (maze_height m)) 500 r0 Hd Hex)
    as (b0 & r1 & E1 & Hb0).
  rewrite E1, rbind_Done. cbn [fst snd].
  destruct (retry_spawns_spec _ _ (maze_grid m) (maze_width m) (maze_height m) Hd Hex
              200 a0 b0 0 r1 Ha0 Hb0) as (a & b & tries & r' & E & Ha & Hb & Ht).
  rewrite E, rbind_Done. cbn iota beta.
  destruct (too_close a b _) eqn:Hc.
  - destruct (scan_best_farthest _ _ (maze_grid m) a Hd Ha) as (best & D & Es & Hfar).
    rewrite Es, rbind_Done. cbn [fst snd]. exists a, best, tries, r'. split_and!; try done.
    + apply Hfar.
    + right. split; [|done]. rewrite (Ht eq_refl). lia.
  - exists a, b, tries, r'. split_and!; try done. left. by apply too_close_false.
Qed.

Lemma generateMaze_grid n r0 m r1 :
  1 ≤ n → generateMaze n r0 = Done (m, r1) →
  maze_width m = 2 * n + 1 ∧ maze_height m = 2 * n + 1 ∧
  dims (maze_width m) (maze_height m) (maze_grid m) ∧ has_empty (maze_grid m).
Proof.
  intros Hn. destruct (generateMaze_run n r0 Hn) as (st' & E' & Hinv' & Hall).
  unfold generateMaze. rewrite Z.max_r by nia. unfold generateMaze_fuel. rewrite E'. simpl.
  intros [= <- <-]. simpl. split_and!; try lia.
  - replace (n * 2 + 1) with (2 * n + 1) by lia. apply (inv_grid Hinv').
  - exists 1, 1. apply (inv_cell Hinv' 0 0); [unfold in_cells; lia|].
    apply Hall. unfold in_cells. lia.
Qed.

Lemma pick_pair_spec (w h : Z) g gridW gridH r :
  dims w h g → has_empty g →
  ∃ a b r1 r2,
    pickRandomCell g (leftTopTest gridW gridH) 500 r = Done (a, r1) ∧
    pickRandomCell g (rightBottomTest gridW gridH) 500 r1 = Done (b, r2) ∧
    pick_pair g gridW gridH r = Done (a, b, r2) ∧
    empty_at g a.1 a.2 ∧ empty_at g b.1 b.2.
Proof.
  intros Hd Hex.
  destruct (pickRandomCell_sound w h g (leftTopTest gridW gridH) 500 r Hd Hex)
    as (a & r1 & E1 & Ha).
  destruct (pickRandomCell_sound w h g (rightBottomTest gridW gridH) 500 r1 Hd Hex)
    as (b & r2 & E2 & Hb).
  exists a, b, r1, r2. split_and!; try done.
  unfold pick_pair. rewrite E1, rbind_Done. cbn [fst snd]. by rewrite E2, rbind_Done.
Qed.

(** The retry loop, entered after attempt [k] with its pair: it stops at the
    first attempt that is far enough, or after [budget] more attempts that
    all failed. *)
Lemma retry_spawns_attempts (w h : Z) g gridW gridH r0 :
  dims w h g → has_empty g →
  ∀ budget k a b r,
    spawn_attempt k g gridW gridH r0 = Done (a, b, r) →
    empty_at g a.1 a.2 → empty_at g b.1 b.2 →
    ∃ k' a' b' r',
      retry_spawns budget g gridW gridH a b (Z.of_nat k) r = Done (a', b', Z.of_nat k', r') ∧
      spawn_attempt k' g gridW gridH r0 = Done (a', b', r') ∧
      empty_at g a'.1 a'.2 ∧ empty_at g b'.1 b'.2 ∧
      (k ≤ k' ≤ k + budget)%nat ∧
      (∀ j, (k ≤ j < k')%nat →
            ∃ aj bj rj, spawn_attempt j g gridW gridH r0 = Done (aj, bj, rj) ∧
                        empty_at g aj.1 aj.2 ∧ empty_at g bj.1 bj.2 ∧
                        ¬ far_enough aj bj (Z.max gridW gridH)) ∧
      (too_close a' b' (Z.max gridW gridH) = true → k' = (k + budget)%nat).
Proof.
  intros Hd Hex. induction budget as [|n IH]; intros k a b r Hk Ha Hb; simpl.
  - exists k, a, b, r.
    assert (Hres : (if too_close a b (Z.max gridW gridH)
                    then Done (a, b, Z.of_nat k, r) else Done (a, b, Z.of_nat k, r))
                   = Done (a, b, Z.of_nat k, r)) by (by destruct (too_close _ _ _)).
    rewrite Hres. split_and!; try done; lia.
  - destruct (too_close a b _) eqn:Hc.
    + destruct (pick_pair_spec w h g gridW gridH r Hd Hex)
        as (a1 & b1 & r1 & r2 & E1 & E2 & Ep & Ha1 & Hb1).
      rewrite E1, rbind_Done. cbn [fst snd]. rewrite E2, rbind_Done. cbn [fst snd].
      assert (Hk1 : spawn_attempt (S k) g gridW gridH r0 = Done (a1, b1, r2)).
      { cbn [spawn_attempt]. rewrite Hk, rbind_Done. exact Ep. }
      destruct (IH (S k) a1 b1 r2 Hk1 Ha1 Hb1)
        as (k' & a' & b' & r' & E & Hk' & Ha' & Hb' & Hle & Hfail & Hlast).
      exists k', a', b', r'.
      replace (Z.of_nat k + 1) with (Z.of_nat (S k)) by lia.
      split_and!; try done; try lia.
      * intros j Hj. destruct (decide (j = k)) as [->|Hne].
        -- exists a, b, r. split_and!; try done.
           intros Hfar. apply too_close_false in Hfar. congruence.
        -- apply Hfail. lia.
      * intros Hc'. rewrite (Hlast Hc'). lia.
    + exists k, a, b, r. split_and!; try done; try lia. congruence.
Qed.

(** C4.  On every generated maze the two spawns are chosen and are empty
    tiles.  The placement makes attempts, each a pair of picks: the first
    one, and up to 200 retries.  Either the spawns are the pair of the
    first attempt that is far enough (Euclidean distance at least
    [0.45 * max(W, H)]), every attempt before it having failed, and [tries]
    counts the retries made; or all 201 attempts, the last of the 200
    retries included, failed, the first spawn is that of the last attempt
    and the second spawn is an empty tile at maximal Euclidean distance from
    it, the first such tile of the row-major scan. *)
Theorem placeSpawns_separated (n : Z) (r0 r1 r : rng) (m : maze) :
  1 ≤ n → generateMaze n r0 = Done (m, r1) →
  ∃ a b tries r',
    placeSpawns m r = Done (a, b, Z.of_nat tries, r') ∧
    empty_at (maze_grid m) a.1 a.2 ∧ empty_at (maze_grid m) b.1 b.2 ∧
    (tries ≤ 200)%nat ∧
    (∀ k, (k < tries)%nat → attempt_failed k m r) ∧
    ((spawn_attempt tries (maze_grid m) (maze_width m) (maze_height m) r = Done (a, b, r') ∧
      far_enough a b (Z.max (maze_width m) (maze_height m))) ∨
     (tries = 200%nat ∧ attempt_failed 200 m r ∧
      (∃ b', spawn_attempt 200 (maze_grid m) (maze_width m) (maze_height m) r
             = Done (a, b', r')) ∧
      farthest_first (maze_grid m) a b)).
Proof.
  intros Hn Hgen.
  destruct (generateMaze_grid n r0 m r1 Hn Hgen) as (_ & _ & Hd & Hex).
  destruct (pick_pair_spec _ _ (maze_grid m) (maze_width m) (maze_height m) r Hd Hex)
    as (a0 & b0 & ra & rb & E1 & E2 & Ep & Ha0 & Hb0).
  destruct (retry_spawns_attempts _ _ (maze_grid m) (maze_width m) (maze_height m) r
              Hd Hex 200 0 a0 b0 rb Ep Ha0 Hb0)
    as (k & a & b & r' & E & Hk & Ha & Hb & Hle & Hfail & Hlast).
  unfold placeSpawns. rewrite E1, rbind_Done. cbn [fst snd].
  rewrite E2, rbind_Done. cbn [fst snd].
  change 0 with (Z.of_nat 0). rewrite E, rbind_Done. cbn iota beta.
  assert (Hfailed : ∀ j, (j < k)%nat → attempt_failed j m r).
  { intros j Hj. apply Hfail. lia. }
  destruct (too_close a b _) eqn:Hc.
  - destruct (scan_best_farthest _ _ (maze_grid m) a Hd Ha) as (best & D & Es & Hfar).
    rewrite Es, rbind_Done. cbn [fst snd].
    assert (Hk200 : k = 200%nat) by (rewrite (Hlast eq_refl); lia).
    exists a, best, k, r'. split_and!; try done; [apply Hfar|lia|].
    right. subst k. split_and!; try done; [|by exists b].
    exists a, b, r'. split_and!; try done.
    intros Hf. apply too_close_false in Hf. congruence.
  - exists a, b, k, r'. split_and!; try done; [lia|].
    left. split; [done|]. by apply too_close_false.
Qed.

Lemma placeSpawns_separated_witness :
  1 ≤ 2 ∧
  generateMaze 2 sample_rng
  = Done (Maze [[1;1;1;1;1]; [1;0;0;0;1]; [1;1;1;0;1]; [1;0;0;0;1]; [1;1;1;1;1]] 5 5,
          Rng (rng_draws sample_rng) 12) ∧
  ∃ a b tries r',
    let m := Maze [[1;1;1;1;1]; [1;0;0;0;1]; [1;1;1;0;1]; [1;0;0;0;1]; [1;1;1;1;1]] 5 5 in
    placeSpawns m sample_rng = Done (a, b, Z.of_nat tries, r') ∧
    empty_at (maze_grid m) a.1 a.2 ∧ empty_at (maze_grid m) b.1 b.2 ∧
    (tries ≤ 200)%nat ∧
    (∀ k, (k < tries)%nat → attempt_failed k m sample_rng) ∧
    ((spawn_attempt tries (maze_grid m) (maze_width m) (maze_height m) sample_rng
      = Done (a, b, r') ∧
      far_enough a b (Z.max (maze_width m) (maze_height m))) ∨
     (tries = 200%nat ∧ attempt_failed 200 m sample_rng ∧
      (∃ b', spawn_attempt 200 (maze_grid m) (maze_width m) (maze_height m) sample_rng
             = Done (a, b', r')) ∧
      farthest_first (maze_grid m) a b)).
Proof.
  assert (Hgen : generateMaze 2 sample_rng
    = Done (Maze [[1;1;1;1;1]; [1;0;0;0;1]; [1;1;1;0;1]; [1;0;0;0;1]; [1;1;1;1;1]] 5 5,
            Rng (rng_draws sample_rng) 12)) by reflexivity.
  split; [lia|]. split; [exact Hgen|].
  exact (placeSpawns_separated 2 sample_rng _ sample_rng _ ltac:(lia) Hgen).
Defined.

(** ** The generator and the placement on small inputs *)

Example generateMaze_2 :
  fst <$> (match generateMaze 2 sample_rng with Done a => Some a | _ => None end)
  = Some (Maze [[1;1;1;1;1]; [1;0;0;0;1]; [1;1;1;0;1]; [1;0;0;0;1]; [1;1;1;1;1]] 5 5).
Proof. vm_compute. reflexivity. Qed.

Example generateMaze_1_spawns :
  (match generateMaze 1 sample_rng with
   | Done (m, r) =>
       match placeSpawns m r with
       | Done (a, b, tries, _) => Some (maze_grid m, a, b, tries)
       | Fail _ => None
       end
   | Fail _ => None
   end) = Some ([[1; 1; 1]; [1; 0; 1]; [1; 1; 1]], (1, 1), (1, 1), 200).
Proof. vm_compute. reflexivity. Qed.

(** A grid with a ring of passages around one wall has a cycle. *)
Example ring_is_cycle :
  is_cycle 2 [[1; 1; 1; 1; 1]; [1; 0; 0; 0; 1]; [1; 0; 1; 0; 1]; [1; 0; 0; 0; 1];
              [1; 1; 1; 1; 1]]
           [(0, 0); (1, 0); (1, 1); (0, 1)].
Proof.
  split; [simpl; lia|]. split.
  - apply (bool_decide_unpack _). vm_compute. exact I.
  - intros i a b Ha Hb.
    destruct i as [|[|[|[|i]]]]; simpl in Ha, Hb; try discriminate;
      injection Ha as <-; injection Hb as <-;
      (split_and!; [unfold in_cells; simpl; lia..|unfold adjacent; simpl; lia|reflexivity]).
Qed.

(** The regions of the 15×15 maze of the server: columns or rows 0 to 4, and
    columns or rows 10 to 14. *)
Example regions_15 :
  (33 * 15) `div` 100 = 4 ∧ - ((- (66 * 15)) `div` 100) = 10 ∧
  leftTopTest 15 15 4 9 = true ∧ leftTopTest 15 15 5 5 = false ∧
  rightBottomTest 15 15 9 10 = true ∧ rightBottomTest 15 15 9 9 = false.
Proof. vm_compute. done. Qed.

(** On an array whose rows differ in length, which is not a grid, the scans
    stop at the length of the first row and the last-resort answer can be a
    wall. *)
Example pickRandomCell_ragged :
  (match pickRandomCell [[1]; [1; 1; 0]] (λ _ _, true) 0 sample_rng with
   | Done (c, _) => Some (c, at2 [[1]; [1; 1; 0]] c.1 c.2)
   | Fail _ => None
   end) = Some ((1, 1), Some TILE_WALL).
Proof. vm_compute. reflexivity. Qed.


(** The bound [n * n] on the depth of [carve] is reached: with draws that
    are all [0], [generateMaze(3)] overflows a stack of 8 calls and returns
    on a stack of 9. *)
Example generateMaze_stack_tight :
  generateMaze_fuel 8 3 zero_rng = Fail StackExhausted ∧
  (match generateMaze_fuel 9 3 zero_rng with
   | Done (m, _) => Some (maze_grid m)
   | Fail _ => None
   end) = Some [[1; 1; 1; 1; 1; 1; 1]; [1; 0; 1; 0; 0; 0; 1]; [1; 0; 1; 0; 1; 0; 1];
                [1; 0; 1; 0; 1; 0; 1]; [1; 0; 1; 0; 1; 0; 1]; [1; 0; 0; 0; 1; 0; 1];
                [1; 1; 1; 1; 1; 1; 1]].
Proof. split; vm_compute; reflexivity. Qed.

(** Both outcomes of the placement occur.  On the 5×5 maze no empty tile is
    in the right or bottom region: all 200 retries fail and the second
    spawn is the farthest tile.  On the 15×15 maze of the server the first
    attempt is far enough. *)
Example placeSpawns_retries_used_up :
  (match placeSpawns
           (Maze [[1;1;1;1;1]; [1;0;0;0;1]; [1;1;1;0;1]; [1;0;0;0;1]; [1;1;1;1;1]] 5 5)
           sample_rng with
   | Done (a, b, tries, _) => Some (a, b, tries)
   | Fail _ => None
   end) = Some ((1, 3), (3, 1), 200).
Proof. vm_compute. reflexivity. Qed.

Example placeSpawns_first_attempt :
  (match generateMaze MAZE_LOGICAL sample_rng with
   | Done (m, r) =>
       match placeSpawns m r with
       | Done (a, b, tries, _) => Some (a, b, tries)
       | Fail _ => None
       end
   | Fail _ => None
   end) = Some ((11, 3), (6, 13), 0).
Proof. vm_compute. reflexivity. Qed.

(** ** Dictionaries *)

Section jsobj.
Context {A : Type}.
Implicit Types (o : list (string * A)) (k : string) (v : A).

Lemma obj_get_Some_elem o k v : obj_get o k = Some v → (k, v) ∈ o.
Proof.
  induction o as [|[k' v'] o IH]; simpl; [done|].
  case_decide as Hk.
  - intros [= ->]. subst. apply list_elem_of_here.
  - intros H. apply list_elem_of_further. by apply IH.
Qed.

Lemma obj_get_None_keys o k : obj_get o k = None ↔ k ∉ o.*1.
Proof.
  induction o as [|[k' v'] o IH]; simpl.
  - split; [intros _; apply not_elem_of_nil|done].
  - rewrite not_elem_of_cons. case_decide as Hk; simpl.
    + split; [done|]. intros [? _]. congruence.
    + rewrite IH. split; [intros ?; split; [congruence|done]|tauto].
Qed.

Lemma elem_obj_get o k v :
  NoDup o.*1 → (k, v) ∈ o → obj_get o k = Some v.
Proof.
  induction o as [|[k' v'] o IH]; simpl; intros Hnd Hin.
  - by apply elem_of_nil in Hin.
  - apply NoDup_cons in Hnd as [Hk' Hnd].
    apply elem_of_cons in Hin as [[= -> ->]|Hin].
    + by rewrite decide_True.
    + case_decide as Hk; [|by apply IH]. subst k'.
      destruct Hk'. apply list_elem_of_fmap. by exists (k, v).
Qed.

Lemma obj_get_set_eq o k v : obj_get (obj_set o k v) k = Some v.
Proof.
  induction o as [|[k' v'] o IH]; simpl.
  - by rewrite decide_True.
  - case_decide as Hk; simpl; [by rewrite decide_True|].
    by rewrite decide_False.
Qed.

Lemma obj_get_set_ne o k k' v :
  k ≠ k' → obj_get (obj_set o k v) k' = obj_get o k'.
Proof.
  intros Hne. induction o as [|[k0 v0] o IH]; simpl.
  - by rewrite decide_False.
  - case_decide as Hk; simpl.
    + subst k0. by rewrite !decide_False.
    + case_decide; [done|apply IH].
Qed.

Lemma obj_set_keys o k v :
  ∀ k', k' ∈ (obj_set o k v).*1 ↔ k' = k ∨ k' ∈ o.*1.
Proof.
  induction o as [|[k0 v0] o IH]; intros k'; simpl.
  - rewrite list_elem_of_singleton, elem_of_nil. tauto.
  - case_decide as Hk; simpl; rewrite !elem_of_cons.
    + subst. tauto.
    + rewrite IH. tauto.
Qed.

Lemma obj_set_NoDup o k v : NoDup o.*1 → NoDup (obj_set o k v).*1.
Proof.
  induction o as [|[k0 v0] o IH]; simpl; intros Hnd.
  - apply NoDup_singleton.
  - apply NoDup_cons in Hnd as [Hk0 Hnd]. case_decide as Hk; simpl.
    + subst. by apply NoDup_cons.
    + apply NoDup_cons. split; [|by apply IH].
      rewrite obj_set_keys. intros [?|?]; [congruence|done].
Qed.

Lemma obj_set_elem o k v k' v' :
  (k', v') ∈ obj_set o k v → (k' = k ∧ v' = v) ∨ (k', v') ∈ o.
Proof.
  induction o as [|[k0 v0] o IH]; simpl.
  - intros [= -> ->]%list_elem_of_singleton. by left.
  - case_decide as Hk.
    + subst k0. intros [[= -> ->]|Hin]%elem_of_cons; [by left|].
      right. by apply list_elem_of_further.
    + intros [[= -> ->]|Hin]%elem_of_cons.
      * right. apply list_elem_of_here.
      * destruct (IH Hin) as [?|?]; [by left|right].
        by apply list_elem_of_further.
Qed.

Lemma obj_get_delete_eq o k : obj_get (obj_delete o k) k = None.
Proof.
  unfold obj_delete. induction o as [|[k0 v0] o IH]; [done|].
  rewrite filter_cons. simpl. case_decide as Hk; simpl; [|done].
  by rewrite decide_False.
Qed.

Lemma obj_get_delete_ne o k k' :
  k ≠ k' → obj_get (obj_delete o k) k' = obj_get o k'.
Proof.
  intros Hne. unfold obj_delete. induction o as [|[k0 v0] o IH]; [done|].
  rewrite filter_cons. simpl. case_decide as Hk; simpl.
  - case_decide; [done|apply IH].
  - subst k0. by rewrite decide_False.
Qed.

Lemma obj_delete_absent o k :
  obj_get o k = None → obj_delete o k = o.
Proof.
  unfold obj_delete. induction o as [|[k0 v0] o IH]; simpl; [done|].
  case_decide as Hk; [done|]. intros Hget.
  rewrite filter_cons_True by done. by rewrite IH.
Qed.

Lemma obj_delete_elem o k k' v' :
  (k', v') ∈ obj_delete o k ↔ (k', v') ∈ o ∧ k' ≠ k.
Proof. unfold obj_delete. rewrite list_elem_of_filter. simpl. tauto. Qed.

Lemma obj_delete_NoDup o k : NoDup o.*1 → NoDup (obj_delete o k).*1.
Proof.
  unfold obj_delete. induction o as [|[k0 v0] o IH]; simpl; intros Hnd; [done|].
  apply NoDup_cons in Hnd as [Hk0 Hnd]. rewrite filter_cons. simpl.
  case_decide; simpl; [|by apply IH].
  apply NoDup_cons. split; [|by apply IH].
  intros Hin. apply Hk0. apply list_elem_of_fmap in Hin as ([k1 v1] & -> & Hin).
  apply list_elem_of_filter in Hin as [_ Hin].
  apply list_elem_of_fmap. by exists (k1, v1).
Qed.

End jsobj.

(** ** Matchmaking *)

Lemma members_join_same sid roomId ch :
  members (join sid roomId ch) roomId = {[sid]} ∪ members ch roomId.
Proof. unfold members at 1, join. by rewrite lookup_insert_eq. Qed.

Lemma members_join_other sid roomId roomId' ch :
  roomId ≠ roomId' → members (join sid roomId ch) roomId' = members ch roomId'.
Proof. intros Hne. unfold members, join. by rewrite lookup_insert_ne. Qed.

(** What the handler does when a distinct socket [wid] is waiting. *)
Lemma findMatch_pairs sid wid now st :
  waitingSocket st = Some wid → wid ≠ sid →
  ∃ m r1 a b tries r2,
    generateMaze MAZE_LOGICAL (random st) = Done (m, r1) ∧
    placeSpawns m r1 = Done (a, b, tries, r2) ∧
    maze_width m = 15 ∧ maze_height m = 15 ∧ dims 15 15 (maze_grid m) ∧
    empty_at (maze_grid m) a.1 a.2 ∧ empty_at (maze_grid m) b.1 b.2 ∧
    let roomId := makeRoomId wid sid now in
    let pA := Player wid a.1 a.2 "#34ff72" b.1 b.2 in
    let pB := Player sid b.1 b.2 "#ff4d9e" a.1 a.2 in
    let channels' := join sid roomId (join wid roomId (channels st)) in
    findMatch sid now st =
    Done (Server None
            (obj_set (rooms st) roomId (Room m (<[sid := pB]> (<[wid := pA]> ∅))))
            channels' (timers st) r2,
          [Emit (members channels' roomId)
             (MatchFound roomId (maze_grid m) 15 15
                (<[sid := view pB]> (<[wid := view pA]> ∅)));
           Emit (members channels' roomId)
             (Status "Game started — reach the glowing exit!")]).
Proof.
  intros Hw Hne.
  destruct (generateMaze_total MAZE_LOGICAL (random st)) as (m & r1 & Egen);
    [unfold MAZE_LOGICAL; lia|].
  destruct (generateMaze_grid MAZE_LOGICAL (random st) m r1) as (Hmw & Hmh & Hd & Hex);
    [unfold MAZE_LOGICAL; lia|done|].
  destruct (placeSpawns_spec m r1 Hd Hex) as (a & b & tries & r2 & Esp & Ha & Hb & _).
  unfold MAZE_LOGICAL in Hmw, Hmh. simpl in Hmw, Hmh.
  exists m, r1, a, b, tries, r2. split_and!; try done.
  { by rewrite Hmw, Hmh in Hd. }
  unfold findMatch. rewrite Hw. rewrite decide_False by done.
  rewrite Egen, rbind_Done. cbn [fst snd]. rewrite Esp, rbind_Done.
  cbn [pl_id]. rewrite Hmw, Hmh. done.
Qed.

(** C5.  A match request: with nobody pending, the requester becomes the
    pending participant and is told to wait; when the requester is itself
    the pending participant, it is told again to wait and the state (pending
    slot, room registry) is unchanged, so nobody is paired with itself;
    with a distinct pending participant, a room with exactly these two
    players is registered, both are in its channel, and the pending slot is
    cleared. *)
Theorem findMatch_rendezvous (sid : string) (now : Z) (st : server) :
  match waitingSocket st with
  | None =>
      findMatch sid now st =
      Done (Server (Some sid) (rooms st) (channels st) (timers st) (random st),
            [Emit {[sid]} (Status "Waiting for an opponent...")])
  | Some wid =>
      if decide (wid = sid) then
        findMatch sid now st = Done (st, [Emit {[sid]} (Status "Still waiting...")])
      else
        ∃ st' out r,
          findMatch sid now st = Done (st', out) ∧
          waitingSocket st' = None ∧
          obj_get (rooms st') (makeRoomId wid sid now) = Some r ∧
          dom (room_players r) = {[wid; sid]} ∧
          {[wid; sid]} ⊆ members (channels st') (makeRoomId wid sid now) ∧
          ∀ roomId, roomId ≠ makeRoomId wid sid now →
                    obj_get (rooms st') roomId = obj_get (rooms st) roomId
  end.
Proof.
  destruct (waitingSocket st) as [wid|] eqn:Hw.
  - case_decide as Hid.
    + unfold findMatch. rewrite Hw. by rewrite decide_True.
    + destruct (findMatch_pairs sid wid now st Hw Hid)
        as (m & r1 & a & b & tries & r2 & _ & _ & _ & _ & _ & _ & _ & E).
      cbv zeta in E. eexists _, _, _. split; [exact E|]. cbn [waitingSocket rooms channels].
      split_and!.
      * done.
      * apply obj_get_set_eq.
      * cbn [room_players]. rewrite !dom_insert_L, dom_empty_L.
        apply set_eq. intros x. rewrite !elem_of_union, !elem_of_singleton, elem_of_empty.
        tauto.
      * rewrite members_join_same, members_join_same.
        intros x. rewrite !elem_of_union, !elem_of_singleton. tauto.
      * intros roomId Hne. by apply obj_get_set_ne.
  - unfold findMatch. by rewrite Hw.
Qed.



(** ** Moves *)

Lemma obj_lookup_own {A} (o : jsobj A) k v : obj_get o k = Some v → obj_lookup o k = Own v.
Proof. intros H. unfold obj_lookup. by rewrite H. Qed.

Lemma array2_get_at2 {A} (a : list (list A)) x y v :
  at2 a x y = Some v → array2_get a x y = Done (Some v).
Proof.
  unfold at2, array2_get. case_bool_decide as Hxy; [|done].
  rewrite bool_decide_eq_true_2 by lia.
  destruct (a !! Z.to_nat y) as [row|]; simpl; [|done].
  rewrite bool_decide_eq_true_2 by lia. by intros ->.
Qed.

(** The effect of an accepted move. *)
Lemma move_accepted sid roomId dir now st r p d :
  obj_get (rooms st) roomId = Some r →
  room_players r !! sid = Some p →
  obj_get deltas dir = Some d →
  at2 (maze_grid (room_maze r)) (pl_x p + d.1) (pl_y p + d.2) = Some TILE_EMPTY →
  pl_x p + d.1 < maze_width (room_maze r) → pl_y p + d.2 < maze_height (room_maze r) →
  let p' := Player (pl_id p) (pl_x p + d.1) (pl_y p + d.2) (pl_color p)
                   (pl_exitX p) (pl_exitY p) in
  let r' := Room (room_maze r) (<[sid := p']> (room_players r)) in
  let to := members (channels st) roomId in
  move sid roomId dir now st =
  if bool_decide (pl_x p' = pl_exitX p' ∧ pl_y p' = pl_exitY p') then
    Done (Server (waitingSocket st) (obj_set (rooms st) roomId r') (channels st)
            (timers st ++ [(now + 4500, roomId)]) (random st),
          [Emit to (State (view <$> room_players r'));
           Emit to (GameOver sid (pl_color p'));
           Emit to (RevealMaze (maze_grid (room_maze r)))])
  else
    Done (Server (waitingSocket st) (obj_set (rooms st) roomId r') (channels st)
            (timers st) (random st),
          [Emit to (State (view <$> room_players r'))]).
Proof.
  intros Hr Hp Hd Ht Hw Hh. cbv zeta.
  unfold move. rewrite (obj_lookup_own _ _ _ Hr), Hp, (obj_lookup_own _ _ _ Hd).
  assert (Hnn : 0 ≤ pl_x p + d.1 ∧ 0 ≤ pl_y p + d.2).
  { unfold at2 in Ht. case_bool_decide; [done|discriminate]. }
  rewrite bool_decide_eq_false_2 by lia.
  rewrite (array2_get_at2 _ _ _ _ Ht), rbind_Done.
  rewrite bool_decide_eq_false_2 by (unfold TILE_EMPTY, TILE_WALL; congruence).
  done.
Qed.

(** The rooms left by the timers that are due. *)
Lemma run_timers_rooms now st :
  rooms (run_timers now st) =
  foldl (λ rs t, obj_delete rs t.2) (rooms st) (filter (due now) (timers st)).
Proof.
  unfold run_timers.
  generalize (filter (λ t, ¬ due now t) (timers st)). intros keep.
  generalize (rooms st), (channels st).
  induction (filter (due now) (timers st)) as [|t l IH]; intros rs ch; [done|].
  simpl. apply IH.
Qed.

Lemma obj_get_foldl_delete {A} (l : list (Z * string)) (rs : jsobj A) k :
  obj_get (foldl (λ rs t, obj_delete rs t.2) rs l) k =
  if decide (k ∈ l.*2) then None else obj_get rs k.
Proof.
  revert rs. induction l as [|t l IH]; intros rs.
  - simpl. destruct (decide (k ∈ [])) as [H|H]; [by apply elem_of_nil in H|done].
  - rewrite fmap_cons. cbn [foldl]. rewrite IH.
    destruct (decide (k = t.2)) as [->|Hne].
    + rewrite obj_get_delete_eq.
      rewrite (decide_True (P := t.2 ∈ t.2 :: l.*2)) by apply list_elem_of_here.
      by destruct (decide (t.2 ∈ l.*2)).
    + rewrite obj_get_delete_ne by done.
      destruct (decide (k ∈ l.*2)) as [H1|H1], (decide (k ∈ t.2 :: l.*2)) as [H2|H2];
        try done.
      * destruct H2. by apply list_elem_of_further.
      * apply elem_of_cons in H2 as [?|?]; done.
Qed.

Lemma run_timers_lookup now st k :
  obj_get (rooms (run_timers now st)) k =
  if decide (k ∈ (filter (due now) (timers st)).*2) then None else obj_get (rooms st) k.
Proof. rewrite run_timers_rooms. apply obj_get_foldl_delete. Qed.

(** C2, as the server has it.  A move that brings a player onto its goal
    broadcasts the state, then exactly one game-over message naming that
    player, then exactly one reveal of the full maze, and sets a timer for
    the room 4500 ms later.  The room stays in the registry, with the player
    on its goal; when no earlier timer for the room is pending, the timers
    leave the room in place before 4500 ms have passed and remove it once
    they have. *)
Theorem move_win (sid roomId dir : string) (now : Z) (st : server)
    (r : room) (p : player) (d : Z * Z) :
  obj_get (rooms st) roomId = Some r →
  room_players r !! sid = Some p →
  obj_get deltas dir = Some d →
  at2 (maze_grid (room_maze r)) (pl_x p + d.1) (pl_y p + d.2) = Some TILE_EMPTY →
  pl_x p + d.1 < maze_width (room_maze r) →
  pl_y p + d.2 < maze_height (room_maze r) →
  pl_x p + d.1 = pl_exitX p → pl_y p + d.2 = pl_exitY p →
  (∀ t, t ∈ timers st → t.2 ≠ roomId) →
  ∃ st' state,
    move sid roomId dir now st =
    Done (st', [Emit (members (channels st) roomId) (State state);
                Emit (members (channels st) roomId) (GameOver sid (pl_color p));
                Emit (members (channels st) roomId)
                  (RevealMaze (maze_grid (room_maze r)))]) ∧
    timers st' = timers st ++ [(now + 4500, roomId)] ∧
    obj_get (rooms st') roomId =
      Some (Room (room_maze r)
              (<[sid := Player (pl_id p) (pl_exitX p) (pl_exitY p) (pl_color p)
                          (pl_exitX p) (pl_exitY p)]> (room_players r))) ∧
    (∀ t, t < now + 4500 → is_Some (obj_get (rooms (run_timers t st')) roomId)) ∧
    (∀ t, now + 4500 ≤ t → obj_get (rooms (run_timers t st')) roomId = None).
Proof.
  intros Hr Hp Hd Ht Hw Hh Hx Hy Htimers.
  pose proof (move_accepted sid roomId dir now st r p d Hr Hp Hd Ht Hw Hh) as E.
  cbv zeta in E. cbn [pl_x pl_y pl_exitX pl_exitY pl_color] in E.
  rewrite bool_decide_eq_true_2 in E by done.
  rewrite Hx, Hy in E.
  eexists _, _. split; [exact E|]. cbn [timers rooms].
  split; [done|]. split; [apply obj_get_set_eq|].
  assert (Hold : ∀ t, roomId ∉ (filter (due t) (timers st)).*2).
  { intros t Hin. apply list_elem_of_fmap in Hin as ([t0 k] & -> & Hin).
    apply list_elem_of_filter in Hin as [_ Hin]. by apply (Htimers _ Hin). }
  split.
  - intros t Hlt. rewrite run_timers_lookup. cbn [timers rooms].
    rewrite filter_app, filter_cons_False, filter_nil, app_nil_r
      by (unfold due; simpl; lia).
    rewrite decide_False by apply Hold.
    rewrite obj_get_set_eq. by eexists.
  - intros t Hle. rewrite run_timers_lookup. cbn [timers rooms].
    rewrite filter_app, filter_cons_True by (unfold due; simpl; lia).
    rewrite decide_True; [done|].
    rewrite fmap_app. apply elem_of_app. right. simpl. apply list_elem_of_here.
Qed.

Lemma move_win_witness :
  obj_get (rooms demo_before_win) demo_room = Some demo_before_win_room ∧
  room_players demo_before_win_room !! "A" = Some demo_before_win_A ∧
  obj_get deltas "right" = Some (1, 0) ∧
  (∀ t, t ∈ timers demo_before_win → t.2 ≠ demo_room) ∧
  ∃ st' state,
    move "A" demo_room "right" 2000 demo_before_win =
    Done (st', [Emit (members (channels demo_before_win) demo_room) (State state);
                Emit (members (channels demo_before_win) demo_room)
                  (GameOver "A" (pl_color demo_before_win_A));
                Emit (members (channels demo_before_win) demo_room)
                  (RevealMaze (maze_grid (room_maze demo_before_win_room)))]) ∧
    timers st' = timers demo_before_win ++ [(2000 + 4500, demo_room)] ∧
    obj_get (rooms st') demo_room =
      Some (Room (room_maze demo_before_win_room)
              (<["A" := Player (pl_id demo_before_win_A) (pl_exitX demo_before_win_A)
                          (pl_exitY demo_before_win_A) (pl_color demo_before_win_A)
                          (pl_exitX demo_before_win_A) (pl_exitY demo_before_win_A)]>
                 (room_players demo_before_win_room))) ∧
    (∀ t, t < 2000 + 4500 → is_Some (obj_get (rooms (run_timers t st')) demo_room)) ∧
    (∀ t, 2000 + 4500 ≤ t → obj_get (rooms (run_timers t st')) demo_room = None).
Proof.
  assert (H4 : ∀ t, t ∈ timers demo_before_win → t.2 ≠ demo_room).
  { assert (Hno : timers demo_before_win = []) by (vm_compute; reflexivity).
    rewrite Hno. intros t Hin. destruct (proj1 (elem_of_nil t) Hin). }
  assert (H1 : obj_get (rooms demo_before_win) demo_room = Some demo_before_win_room)
    by (vm_compute; reflexivity).
  assert (H2 : room_players demo_before_win_room !! "A" = Some demo_before_win_A)
    by (vm_compute; reflexivity).
  assert (H3 : obj_get deltas "right" = Some (1, 0)) by (vm_compute; reflexivity).
  split; [exact H1|]. split; [exact H2|]. split; [exact H3|]. split; [exact H4|].
  exact (move_win "A" demo_room "right" 2000 demo_before_win demo_before_win_room
           demo_before_win_A (1, 0) H1 H2 H3
           ltac:(vm_compute; reflexivity) ltac:(vm_compute; reflexivity)
           ltac:(vm_compute; reflexivity) ltac:(vm_compute; reflexivity)
           ltac:(vm_compute; reflexivity) H4).
Defined.

(** C2 as stated fails: after A's winning move in the play above, A steps
    back and the server moves it and broadcasts the new state. *)
Lemma moves_after_win_counterexample : ¬ moves_rejected_after_win.
Proof.
  intros H.
  specialize (H demo_before_win "A" demo_room "right" 2000 demo_win.1 demo_win.2).
  assert (Hmove : move "A" demo_room "right" 2000 demo_before_win
                  = Done (demo_win.1, demo_win.2)) by (vm_compute; reflexivity).
  assert (Hover : existsb is_game_over demo_win.2 = true) by (vm_compute; reflexivity).
  specialize (H Hmove Hover "A" "left" 3000).
  vm_compute in H. discriminate H.
Qed.

(** C3 at a failing input: in the play above, once A and B are paired, a
    move of A with the direction token [toString] is not dropped; the
    handler throws. *)
Theorem move_inherited_direction_throws :
  move "A" demo_room "toString" 2000 (state_after demo_paired) = Fail TypeError.
Proof. vm_compute. reflexivity. Qed.

(** The moves the handler drops without a trace: unknown room, sender not
    in the room, unknown direction, candidate tile outside the maze or a
    wall. *)
Lemma move_rejected sid roomId dir now st :
  obj_lookup (rooms st) roomId = Missing ∨
  (∃ r, obj_get (rooms st) roomId = Some r ∧
        (room_players r !! sid = None ∨
         ∃ p, room_players r !! sid = Some p ∧
              (obj_lookup deltas dir = Missing ∨
               ∃ d, obj_get deltas dir = Some d ∧
                    (pl_x p + d.1 < 0 ∨ pl_y p + d.2 < 0 ∨
                     maze_width (room_maze r) ≤ pl_x p + d.1 ∨
                     maze_height (room_maze r) ≤ pl_y p + d.2 ∨
                     at2 (maze_grid (room_maze r)) (pl_x p + d.1) (pl_y p + d.2)
                     = Some TILE_WALL)))) →
  move sid roomId dir now st = Done (st, []).
Proof.
  unfold move. intros [->|(r & Hr & Hcase)]; [done|].
  rewrite (obj_lookup_own _ _ _ Hr).
  destruct Hcase as [->|(p & -> & Hcase)]; [done|].
  destruct Hcase as [->|(d & Hd & Hcase)]; [done|].
  rewrite (obj_lookup_own _ _ _ Hd).
  case_bool_decide as Hout; [done|].
  destruct Hcase as [?|[?|[?|[?|Hwall]]]]; try lia.
  rewrite (array2_get_at2 _ _ _ _ Hwall), rbind_Done.
  by rewrite bool_decide_eq_true_2.
Qed.

(** An accepted move changes the position of the moving player and nothing
    else: the other players of the room, the maze and the other rooms are
    as before. *)
Lemma move_accepted_frame sid roomId dir now st r p d st' out :
  obj_get (rooms st) roomId = Some r →
  room_players r !! sid = Some p →
  obj_get deltas dir = Some d →
  at2 (maze_grid (room_maze r)) (pl_x p + d.1) (pl_y p + d.2) = Some TILE_EMPTY →
  pl_x p + d.1 < maze_width (room_maze r) → pl_y p + d.2 < maze_height (room_maze r) →
  move sid roomId dir now st = Done (st', out) →
  ∃ r', obj_get (rooms st') roomId = Some r' ∧
        room_maze r' = room_maze r ∧
        room_players r' !! sid =
          Some (Player (pl_id p) (pl_x p + d.1) (pl_y p + d.2) (pl_color p)
                       (pl_exitX p) (pl_exitY p)) ∧
        (∀ other, other ≠ sid → room_players r' !! other = room_players r !! other) ∧
        (∀ k, k ≠ roomId → obj_get (rooms st') k = obj_get (rooms st) k) ∧
        waitingSocket st' = waitingSocket st ∧
        ∃ state rest, out = Emit (members (channels st) roomId) (State state) :: rest ∧
                      state = view <$> room_players r'.
Proof.
  intros Hr Hp Hd Ht Hw Hh.
  rewrite (move_accepted sid roomId dir now st r p d Hr Hp Hd Ht Hw Hh). cbv zeta.
  case_bool_decide; intros [= <- <-]; cbn [rooms waitingSocket];
    (eexists; split; [apply obj_get_set_eq|]; cbn [room_maze room_players];
     split_and!;
     [ done
     | by rewrite lookup_insert_eq
     | by intros other Hne; rewrite lookup_insert_ne
     | by intros k Hne; rewrite obj_get_set_ne
     | done
     | by eexists _, _ ]).
Qed.

(** A direction token, or a room id, that names a property inherited from
    [Object.prototype] makes the handler throw. *)
Lemma move_inherited_direction sid roomId dir now st r p :
  obj_get (rooms st) roomId = Some r →
  room_players r !! sid = Some p →
  dir ∈ object_prototype_keys →
  move sid roomId dir now st = Fail TypeError.
Proof.
  intros Hr Hp Hdir. unfold move. rewrite (obj_lookup_own _ _ _ Hr), Hp.
  assert (Hl : obj_lookup deltas dir = Inherited).
  { unfold object_prototype_keys in Hdir. rewrite !elem_of_cons, elem_of_nil in Hdir.
    repeat (destruct Hdir as [->|Hdir]; [reflexivity|]). done. }
  by rewrite Hl.
Qed.

Lemma move_inherited_room sid roomId dir now st :
  obj_get (rooms st) roomId = None →
  roomId ∈ object_prototype_keys →
  move sid roomId dir now st = Fail TypeError.
Proof.
  intros Hr Hk. unfold move, obj_lookup. rewrite Hr.
  by rewrite bool_decide_eq_true_2.
Qed.

Example move_inherited_room_throws :
  move "A" "constructor" "up" 2000 (state_after demo_paired) = Fail TypeError.
Proof. vm_compute. reflexivity. Qed.

Example move_into_wall_dropped :
  (r ← obj_get (rooms (state_after demo_paired)) demo_room;
   p ← room_players r !! "A";
   Some (pl_x p, pl_y p, at2 (maze_grid (room_maze r)) (pl_x p) (pl_y p + 1)))
  = Some (11, 3, Some TILE_WALL) ∧
  move "A" demo_room "down" 2000 (state_after demo_paired)
  = Done (state_after demo_paired, []).
Proof. vm_compute. done. Qed.

Example demo_win_messages :
  em_msg <$> demo_win.2 =
  [State (<["B" := PlayerView 6 13 "#ff4d9e" 11 3]>
            (<["A" := PlayerView 6 13 "#34ff72" 6 13]> ∅));
   GameOver "A" "#34ff72";
   RevealMaze (maze_grid (room_maze demo_before_win_room))].
Proof. vm_compute. reflexivity. Qed.


(** ** Teardown *)

Lemma members_insert_same ch roomId s : members (<[roomId := s]> ch) roomId = s.
Proof. unfold members. by rewrite lookup_insert_eq. Qed.

Lemma members_insert_other ch roomId roomId' s :
  roomId ≠ roomId' → members (<[roomId := s]> ch) roomId' = members ch roomId'.
Proof. intros Hne. unfold members. by rewrite lookup_insert_ne. Qed.

Lemma members_leave_all ch sid roomId :
  members ((λ s : gset string, s ∖ {[sid]}) <$> ch) roomId = members ch roomId ∖ {[sid]}.
Proof.
  unfold members. rewrite lookup_fmap. destruct (ch !! roomId); simpl; [done|].
  apply set_eq. intros x. rewrite elem_of_difference, elem_of_empty. tauto.
Qed.

(** The loop of the [disconnect] handler. *)
Lemma disconnect_rooms_spec sid todo :
  NoDup todo.*1 →
  ∀ rs ch out,
    ∃ rs' ch' extra,
      disconnect_rooms sid todo rs ch out = (rs', ch', out ++ extra) ∧
      (∀ k v, (k, v) ∈ rs' ↔
              (k, v) ∈ rs ∧ ¬ ∃ r, (k, r) ∈ todo ∧ is_Some (room_players r !! sid)) ∧
      (∀ k r, (k, r) ∈ todo → is_Some (room_players r !! sid) →
              Emit (members ch k) OpponentDisconnected ∈ extra) ∧
      (∀ k, (∀ r, (k, r) ∈ todo → room_players r !! sid = None) → ch' !! k = ch !! k) ∧
      (∀ e, e ∈ extra → em_msg e = OpponentDisconnected) ∧
      (NoDup rs.*1 → NoDup rs'.*1).
Proof.
  induction todo as [|[k0 r0] todo IH]; intros Hnd rs ch out.
  - exists rs, ch, []. simpl. rewrite app_nil_r. split_and!; try done.
    + intros k v. split; [|tauto]. intros Hin. split; [done|].
      intros (r & Hr & _). by apply elem_of_nil in Hr.
    + intros k r Hr. by apply elem_of_nil in Hr.
    + intros e He. by apply elem_of_nil in He.
  - simpl in Hnd. apply NoDup_cons in Hnd as [Hk0 Hnd].
    assert (Hother : ∀ k r, (k, r) ∈ todo → k ≠ k0).
    { intros k r Hin ->. apply Hk0. apply list_elem_of_fmap. by exists (k0, r). }
    simpl. case_bool_decide as Hsid.
    + destruct (IH Hnd (obj_delete rs k0)
                  (<[k0 := members ch k0 ∖ dom (room_players r0)]> ch)
                  (out ++ [Emit (members ch k0) OpponentDisconnected]))
        as (rs' & ch' & extra & E & Hrs & Hout & Hch & Hmsg & Hnodup).
      exists rs', ch', (Emit (members ch k0) OpponentDisconnected :: extra).
      split_and!.
      * rewrite E. f_equal. by rewrite <- app_assoc.
      * intros k v. rewrite Hrs, obj_delete_elem. split.
        -- intros [[Hin Hne] Hno]. split; [done|].
           intros (r & [[= -> ->]|Hr]%elem_of_cons & Hs); [done|].
           apply Hno. by exists r.
        -- intros [Hin Hno]. split_and!; [done| |].
           ++ intros ->. apply Hno. exists r0. split; [apply list_elem_of_here|done].
           ++ intros (r & Hr & Hs). apply Hno. exists r.
              split; [by apply list_elem_of_further|done].
      * intros k r [[= -> ->]|Hr]%elem_of_cons Hs; [apply list_elem_of_here|].
        apply list_elem_of_further.
        rewrite <- (members_insert_other ch k0 k (members ch k0 ∖ dom (room_players r0)))
          by (apply not_eq_sym; by eapply Hother).
        by eapply Hout.
      * intros k Hk. rewrite Hch.
        -- apply lookup_insert_ne. intros ->.
           specialize (Hk r0 (list_elem_of_here _ _)).
           rewrite Hk in Hsid. by destruct Hsid.
        -- intros r Hr. apply Hk. by apply list_elem_of_further.
      * intros e [->|He]%elem_of_cons; [done|by apply Hmsg].
      * intros Hrsnd. apply Hnodup. by apply obj_delete_NoDup.
    + destruct (IH Hnd rs ch out)
        as (rs' & ch' & extra & E & Hrs & Hout & Hch & Hmsg & Hnodup).
      exists rs', ch', extra. split_and!; try done.
      * intros k v. rewrite Hrs. split.
        -- intros [Hin Hno]. split; [done|].
           intros (r & [[= -> ->]|Hr]%elem_of_cons & Hs); [done|].
           apply Hno. by exists r.
        -- intros [Hin Hno]. split; [done|].
           intros (r & Hr & Hs). apply Hno. exists r.
           split; [by apply list_elem_of_further|done].
      * intros k r [[= -> ->]|Hr]%elem_of_cons Hs; [done|by eapply Hout].
      * intros k Hk. apply Hch. intros r Hr. apply Hk. by apply list_elem_of_further.
Qed.

Lemma disconnect_spec sid st :
  NoDup (rooms st).*1 →
  ∃ rs' ch' out,
    disconnect sid st =
    Done (Server (match waitingSocket st with
                  | Some wid => if decide (wid = sid) then None else Some wid
                  | None => None
                  end) rs' ch' (timers st) (random st), out) ∧
    (∀ k v, (k, v) ∈ rs' ↔ (k, v) ∈ rooms st ∧ room_players v !! sid = None) ∧
    (∀ k r, (k, r) ∈ rooms st → is_Some (room_players r !! sid) →
            Emit (members (channels st) k ∖ {[sid]}) OpponentDisconnected ∈ out) ∧
    (∀ k r, (k, r) ∈ rooms st → room_players r !! sid = None →
            members ch' k = members (channels st) k ∖ {[sid]}) ∧
    (∀ e, e ∈ out → em_msg e = OpponentDisconnected) ∧
    NoDup rs'.*1.
Proof.
  intros Hnd. unfold disconnect.
  destruct (disconnect_rooms_spec sid (rooms st) Hnd (rooms st)
              ((λ s : gset string, s ∖ {[sid]}) <$> channels st) [])
    as (rs' & ch' & extra & E & Hrs & Hout & Hch & Hmsg & Hnodup).
  rewrite E. simpl. exists rs', ch', extra. split; [done|].
  assert (Huniq : ∀ k r r', (k, r) ∈ rooms st → (k, r') ∈ rooms st → r = r').
  { intros k r r' H1 H2. apply (elem_obj_get _ _ _ Hnd) in H1, H2. congruence. }
  split_and!.
  - intros k v. rewrite Hrs. split.
    + intros [Hin Hno]. split; [done|].
      destruct (room_players v !! sid) eqn:Hv; [|done].
      destruct Hno. exists v. split; [done|]. rewrite Hv. by eexists.
    + intros [Hin Hv]. split; [done|]. intros (r & Hr & Hs).
      rewrite (Huniq _ _ _ Hr Hin), Hv in Hs. by destruct Hs.
  - intros k r Hr Hs. rewrite <- members_leave_all. by eapply Hout.
  - intros k r Hr Hs. rewrite <- members_leave_all. unfold members. rewrite Hch; [done|].
    intros r' Hr'. by rewrite (Huniq _ _ _ Hr' Hr).
  - done.
  - by apply Hnodup.
Qed.

(** ** Every state the server reaches is well formed *)

Lemma init_wf r : server_wf (init_server r).
Proof.
  split; simpl.
  - apply NoDup_nil_2.
  - intros k v Hin. by apply elem_of_nil in Hin.
Qed.

Lemma members_join_mono sid roomId ch k : members ch k ⊆ members (join sid roomId ch) k.
Proof.
  destruct (decide (roomId = k)) as [->|Hne].
  - rewrite members_join_same. intros x Hx. apply elem_of_union. by right.
  - by rewrite members_join_other.
Qed.

Lemma findMatch_wf sid now st st' out :
  server_wf st → findMatch sid now st = Done (st', out) → server_wf st'.
Proof.
  intros [Hnd Hrooms] E. destruct (waitingSocket st) as [wid|] eqn:Hw.
  - destruct (decide (wid = sid)) as [Hid|Hid].
    + unfold findMatch in E. rewrite Hw, decide_True in E by done.
      injection E as <- _. by split.
    + destruct (findMatch_pairs sid wid now st Hw Hid)
        as (m & r1 & a & b & tries & r2 & _ & _ & Hmw & Hmh & Hd & _ & _ & E').
      cbv zeta in E'. rewrite E' in E. injection E as <- _.
      split; cbn [rooms channels].
      * by apply obj_set_NoDup.
      * intros k v [[-> ->]|Hin]%obj_set_elem.
        -- split; cbn [room_maze room_players].
           ++ by rewrite Hmw, Hmh.
           ++ rewrite !dom_insert_L, dom_empty_L, !members_join_same.
              intros x. rewrite !elem_of_union, !elem_of_singleton, elem_of_empty. tauto.
        -- destruct (Hrooms k v Hin) as [Hdims Hdom]. split; [done|].
           etrans; [exact Hdom|]. etrans; apply members_join_mono.
  - unfold findMatch in E. rewrite Hw in E. injection E as <- _. by split.
Qed.

Lemma move_wf sid roomId dir now st st' out :
  server_wf st → move sid roomId dir now st = Done (st', out) → server_wf st'.
Proof.
  intros [Hnd Hrooms]. unfold move, obj_lookup.
  destruct (obj_get (rooms st) roomId) as [r|] eqn:Hr;
    [|case_bool_decide; [discriminate|]; intros [= <- _]; by split].
  destruct (room_players r !! sid) as [p|] eqn:Hp; [|intros [= <- _]; by split].
  destruct (obj_get deltas dir) as [d|];
    [|case_bool_decide; [discriminate|]; intros [= <- _]; by split].
  case_bool_decide; [intros [= <- _]; by split|].
  destruct (array2_get _ _ _) as [t|]; simpl; [|discriminate].
  case_bool_decide; [intros [= <- _]; by split|].
  assert (Hwf' : ∀ tm,
    server_wf (Server (waitingSocket st)
      (obj_set (rooms st) roomId
         (Room (room_maze r)
            (<[sid := Player (pl_id p) (pl_x p + d.1) (pl_y p + d.2) (pl_color p)
                        (pl_exitX p) (pl_exitY p)]> (room_players r))))
      (channels st) tm (random st))).
  { intros tm. split; cbn [rooms channels].
    - by apply obj_set_NoDup.
    - intros k v [[-> ->]|Hin]%obj_set_elem; [|by apply Hrooms].
      destruct (Hrooms roomId r (obj_get_Some_elem _ _ _ Hr)) as [Hdims Hdom].
      split; [done|]. cbn [room_players]. rewrite dom_insert_L.
      intros x [->%elem_of_singleton|Hx]%elem_of_union; apply Hdom; [|done].
      apply elem_of_dom. by eexists. }
  case_bool_decide; intros [= <- _]; apply Hwf'.
Qed.

Lemma disconnect_wf sid st st' out :
  server_wf st → disconnect sid st = Done (st', out) → server_wf st'.
Proof.
  intros [Hnd Hrooms] E.
  destruct (disconnect_spec sid st Hnd) as (rs' & ch' & out' & E' & Hrs & _ & Hch & _ & Hnd').
  rewrite E' in E. injection E as <- _. split; cbn [rooms channels]; [done|].
  intros k v [Hin Hv]%Hrs. destruct (Hrooms k v Hin) as [Hdims Hdom].
  split; [done|]. rewrite (Hch k v Hin Hv).
  intros x Hx. apply elem_of_difference. split; [by apply Hdom|].
  intros ->%elem_of_singleton. apply elem_of_dom in Hx as [? Hx]. congruence.
Qed.

Lemma teardown_wf roomId st st' out :
  server_wf st → teardown roomId st = Done (st', out) → server_wf st'.
Proof.
  intros [Hnd Hrooms]. unfold teardown. intros [= <- _]. split; cbn [rooms channels].
  - by apply obj_delete_NoDup.
  - intros k v [Hin Hne]%obj_delete_elem. destruct (Hrooms k v Hin) as [Hdims Hdom].
    split; [done|]. unfold members. by rewrite lookup_delete_ne.
Qed.

Lemma run_timers_wf now st : server_wf st → server_wf (run_timers now st).
Proof.
  intros Hwf. unfold run_timers.
  assert (Hwf0 : server_wf (Server (waitingSocket st) (rooms st) (channels st)
                              (filter (λ t, ¬ due now t) (timers st)) (random st))).
  { destruct Hwf. by split. }
  revert Hwf0. generalize (Server (waitingSocket st) (rooms st) (channels st)
                             (filter (λ t, ¬ due now t) (timers st)) (random st)).
  induction (filter (due now) (timers st)) as [|t l IH]; intros s Hs; [done|].
  simpl. apply IH. by eapply teardown_wf.
Qed.

Lemma handle_wf e st st' out :
  server_wf st → handle e st = Done (st', out) → server_wf st'.
Proof.
  intros Hwf. destruct e; simpl.
  - by apply findMatch_wf.
  - by apply move_wf.
  - by apply disconnect_wf.
  - intros [= <- _]. by apply run_timers_wf.
Qed.

Lemma run_wf es : ∀ st st' out,
  server_wf st → run es st = Done (st', out) → server_wf st'.
Proof.
  induction es as [|e es IH]; intros st st' out Hwf; simpl.
  - by intros [= <- _].
  - destruct (handle e st) as [[s1 o1]|] eqn:He; simpl; [|discriminate].
    destruct (run es s1) as [[s2 o2]|] eqn:Hrun; simpl; [|discriminate].
    intros [= <- _]. eapply IH; [|exact Hrun]. by eapply handle_wf.
Qed.

Lemma state_after_wf es : server_wf (state_after es).
Proof.
  unfold state_after.
  destruct (run es (init_server sample_rng)) as [[st out]|] eqn:Hrun.
  - eapply run_wf; [apply init_wf|exact Hrun].
  - apply init_wf.
Qed.

(** C7.  A disconnect, in a state the server can be in.  When the socket is
    the pending participant, the pending slot is cleared, and the next
    request, from any participant, makes that one the pending entry.  Every
    room the socket plays in is removed from the registry by the handler
    itself, without a timer, and an opponent-disconnected message goes to
    all its other players; the other rooms stay. *)
Theorem disconnect_teardown (sid : string) (st : server) :
  server_wf st →
  ∃ st' out,
    disconnect sid st = Done (st', out) ∧
    (waitingSocket st = Some sid →
       waitingSocket st' = None ∧
       ∀ sid' now,
         findMatch sid' now st' =
         Done (Server (Some sid') (rooms st') (channels st') (timers st') (random st'),
               [Emit {[sid']} (Status "Waiting for an opponent...")])) ∧
    (∀ roomId r,
       obj_get (rooms st) roomId = Some r → is_Some (room_players r !! sid) →
       obj_get (rooms st') roomId = None ∧
       ∃ to, Emit to OpponentDisconnected ∈ out ∧
             ∀ other, other ∈ dom (room_players r) → other ≠ sid → other ∈ to) ∧
    (∀ roomId r,
       obj_get (rooms st) roomId = Some r → room_players r !! sid = None →
       obj_get (rooms st') roomId = Some r) ∧
    timers st' = timers st.
Proof.
  intros [Hnd Hrooms].
  destruct (disconnect_spec sid st Hnd) as (rs' & ch' & out & E & Hrs & Hout & _ & _ & Hnd').
  eexists _, _. split; [exact E|]. cbn [waitingSocket rooms channels timers random].
  split_and!.
  - intros Hw. rewrite Hw, decide_True by done. split; [done|].
    intros sid' now. unfold findMatch. cbn [waitingSocket]. done.
  - intros roomId r Hr Hs. apply obj_get_Some_elem in Hr. split.
    + destruct (obj_get rs' roomId) as [v|] eqn:Hv; [|done].
      apply obj_get_Some_elem, Hrs in Hv as [Hin Hno].
      apply (elem_obj_get _ _ _ Hnd) in Hin, Hr.
      rewrite Hr in Hin. injection Hin as <-.
      rewrite Hno in Hs. by destruct Hs.
    + eexists. split; [by eapply Hout|].
      intros other Hdom Hne. apply elem_of_difference. split.
      * by apply (Hrooms roomId r Hr).
      * by intros ->%elem_of_singleton.
  - intros roomId r Hr Hs. apply obj_get_Some_elem in Hr.
    apply (elem_obj_get _ _ _ Hnd'). by apply Hrs.
  - done.
Qed.

Lemma disconnect_teardown_witness :
  server_wf (state_after demo_paired) ∧
  ∃ st' out,
    disconnect "A" (state_after demo_paired) = Done (st', out) ∧
    (waitingSocket (state_after demo_paired) = Some "A" →
       waitingSocket st' = None ∧
       ∀ sid' now,
         findMatch sid' now st' =
         Done (Server (Some sid') (rooms st') (channels st') (timers st') (random st'),
               [Emit {[sid']} (Status "Waiting for an opponent...")])) ∧
    (∀ roomId r,
       obj_get (rooms (state_after demo_paired)) roomId = Some r →
       is_Some (room_players r !! "A") →
       obj_get (rooms st') roomId = None ∧
       ∃ to, Emit to OpponentDisconnected ∈ out ∧
             ∀ other, other ∈ dom (room_players r) → other ≠ "A" → other ∈ to) ∧
    (∀ roomId r,
       obj_get (rooms (state_after demo_paired)) roomId = Some r →
       room_players r !! "A" = None →
       obj_get (rooms st') roomId = Some r) ∧
    timers st' = timers (state_after demo_paired).
Proof.
  split; [apply state_after_wf|].
  exact (disconnect_teardown "A" (state_after demo_paired) (state_after_wf demo_paired)).
Defined.

Example disconnect_after_pairing :
  (match disconnect "A" (state_after demo_paired) with
   | Done (st', out) => Some (rooms st', (λ e, (elements (em_to e), em_msg e)) <$> out)
   | Fail _ => None
   end) = Some ([], [(["B"], OpponentDisconnected)]).
Proof. vm_compute. reflexivity. Qed.

Example disconnect_while_pending :
  (match run [EvFindMatch "A" 1000; EvDisconnect "A"; EvFindMatch "C" 1002]
             (init_server sample_rng) with
   | Done (st', out) => Some (waitingSocket st', em_msg <$> out)
   | Fail _ => None
   end) = Some (Some "C", [Status "Waiting for an opponent...";
                           Status "Waiting for an opponent..."]).
Proof. vm_compute. reflexivity. Qed.

(** C8.  The teardown of a room that is no longer in the registry raises
    no error and changes neither the registry nor the pending slot nor the
    timers. *)
Theorem teardown_removed_room (roomId : string) (st : server) :
  obj_get (rooms st) roomId = None →
  ∃ st', teardown roomId st = Done (st', []) ∧
         rooms st' = rooms st ∧
         waitingSocket st' = waitingSocket st ∧
         timers st' = timers st.
Proof.
  intros Habsent. eexists. split; [reflexivity|]. cbn [rooms waitingSocket timers].
  split_and!; try done. by apply obj_delete_absent.
Qed.

Lemma teardown_removed_room_witness :
  obj_get (rooms demo_won_then_left) demo_room = None ∧
  ∃ st', teardown demo_room demo_won_then_left = Done (st', []) ∧
         rooms st' = rooms demo_won_then_left ∧
         waitingSocket st' = waitingSocket demo_won_then_left ∧
         timers st' = timers demo_won_then_left.
Proof.
  assert (H : obj_get (rooms demo_won_then_left) demo_room = None)
    by (vm_compute; reflexivity).
  split; [exact H|].
  exact (teardown_removed_room demo_room demo_won_then_left H).
Defined.

Example teardown_after_disconnect :
  timers demo_won_then_left = [(6500, demo_room)] ∧
  rooms (run_timers 6500 demo_won_then_left) = rooms demo_won_then_left ∧
  timers (run_timers 6500 demo_won_then_left) = [].
Proof. vm_compute. done. Qed.

(** * Further properties of the code *)

(** ** The shuffle *)

Lemma insert_delete_perm {A} (l : list A) i x b :
  l !! i = Some b → <[i := x]> l ≡ₚ x :: delete i l.
Proof.
  revert i. induction l as [|y l IH]; intros [|i] Hi; simpl in *; try done.
  rewrite (IH i Hi). apply perm_swap.
Qed.

Lemma swap_perm {A} (l : list A) i j : swap l i j ≡ₚ l.
Proof.
  revert i j. induction l as [|x l IH]; intros i j; [by destruct i, j|].
  unfold swap. destruct i as [|i], j as [|j]; simpl.
  - done.
  - destruct (l !! j) as [b|] eqn:Hb; [|done]. simpl.
    rewrite (insert_delete_perm l j x b Hb).
    rewrite (delete_Permutation l j b Hb) at 2. apply perm_swap.
  - destruct (l !! i) as [a|] eqn:Ha; [|done]. simpl.
    rewrite (insert_delete_perm l i x a Ha).
    rewrite (delete_Permutation l i a Ha) at 2. apply perm_swap.
  - specialize (IH i j). unfold swap in IH.
    destruct (l !! i) as [a|], (l !! j) as [b|]; simpl; try done.
    by rewrite IH.
Qed.

Lemma shuffle_from_perm i dirs r : (shuffle_from i dirs r).1 ≡ₚ dirs.
Proof.
  revert dirs r. induction i as [|i IH]; intros dirs r; [done|].
  cbn [shuffle_from]. destruct (random_below _ r) as [j r'].
  rewrite IH. apply swap_perm.
Qed.

Lemma shuffle_from_rng i dirs r :
  (shuffle_from i dirs r).2 = Rng (rng_draws r) (rng_pos r + Z.of_nat i).
Proof.
  revert dirs r. induction i as [|i IH]; intros dirs r.
  - destruct r. simpl. f_equal. lia.
  - cbn [shuffle_from]. unfold random_below. rewrite IH. simpl. f_equal. lia.
Qed.

(** X1.  The in-place shuffle of [carve] (Fisher-Yates) returns a
    permutation of the list it is given, whatever the random draws, and
    takes one draw for each position but the first. *)
Theorem shuffle_permutation (dirs : list (Z * Z)) (r : rng) :
  (shuffle dirs r).1 ≡ₚ dirs ∧
  (shuffle dirs r).2 = Rng (rng_draws r) (rng_pos r + Z.of_nat (length dirs - 1)).
Proof. unfold shuffle. split; [apply shuffle_from_perm|apply shuffle_from_rng]. Qed.

(** ** The generated maze *)

Lemma generateMaze_inv n r m r' :
  1 ≤ n → generateMaze n r = Done (m, r') →
  ∃ st', carve (Z.to_nat (n * n)) n n 0 0
           (GenState (filled (n * 2 + 1) (n * 2 + 1) TILE_WALL) (filled n n false) r)
         = Done st' ∧
         m = Maze (gs_grid st') (n * 2 + 1) (n * 2 + 1) ∧ r' = gs_rng st' ∧
         maze_inv n st' ∧ ∀ x y, in_cells n x y → seen (gs_visited st') x y.
Proof.
  intros Hn. destruct (generateMaze_run n r Hn) as (st' & E' & Hinv' & Hall).
  unfold generateMaze. rewrite Z.max_r by nia. unfold generateMaze_fuel. rewrite E'. simpl.
  intros [= <- <-]. by exists st'.
Qed.

(** X2.  In a generated maze the border tiles and the tiles at even
    coordinates on both axes are walls: no passage leads out of the grid
    and no passage runs diagonally. *)
Theorem generateMaze_walls (n : Z) (r r' : rng) (m : maze) (x y : Z) :
  1 ≤ n → generateMaze n r = Done (m, r') →
  0 ≤ x ≤ 2 * n → 0 ≤ y ≤ 2 * n →
  x = 0 ∨ x = 2 * n ∨ y = 0 ∨ y = 2 * n ∨ (∃ i j, x = 2 * i ∧ y = 2 * j) →
  at2 (maze_grid m) x y = Some TILE_WALL.
Proof.
  intros Hn Hgen Hx Hy Hpos.
  destruct (generateMaze_inv n r m r' Hn Hgen) as (st' & _ & -> & _ & Hinv & _).
  simpl. destruct (at2_in_dims _ _ _ x y (inv_grid Hinv)) as [v Hv]; [lia..|].
  destruct (inv_tiles Hinv x y v Hv) as [->| ->]; [|done].
  exfalso. apply (inv_open Hinv) in Hv. unfold in_cells in Hv.
  destruct Hv as [(a & b & ? & ? & ?)|[(a & b & ? & ? & ? & ? & _)|
                                       (a & b & ? & ? & ? & ? & _)]];
    destruct Hpos as [?|[?|[?|[?|(i & j & ? & ?)]]]]; lia.
Qed.

Lemma generateMaze_walls_witness :
  1 ≤ 2 ∧
  generateMaze 2 sample_rng
  = Done (Maze [[1;1;1;1;1]; [1;0;0;0;1]; [1;1;1;0;1]; [1;0;0;0;1]; [1;1;1;1;1]] 5 5,
          Rng (rng_draws sample_rng) 12) ∧
  0 ≤ 2 ≤ 2 * 2 ∧ 0 ≤ 2 ≤ 2 * 2 ∧
  (2 = 0 ∨ 2 = 2 * 2 ∨ 2 = 0 ∨ 2 = 2 * 2 ∨ (∃ i j, 2 = 2 * i ∧ 2 = 2 * j)) ∧
  at2 [[1;1;1;1;1]; [1;0;0;0;1]; [1;1;1;0;1]; [1;0;0;0;1]; [1;1;1;1;1]] 2 2
  = Some TILE_WALL.
Proof.
  assert (Hgen : generateMaze 2 sample_rng
    = Done (Maze [[1;1;1;1;1]; [1;0;0;0;1]; [1;1;1;0;1]; [1;0;0;0;1]; [1;1;1;1;1]] 5 5,
            Rng (rng_draws sample_rng) 12)) by reflexivity.
  assert (Hpos : 2 = 0 ∨ 2 = 2 * 2 ∨ 2 = 0 ∨ 2 = 2 * 2 ∨ (∃ i j, 2 = 2 * i ∧ 2 = 2 * j)).
  { right; right; right; right. exists 1, 1. lia. }
  split; [lia|]. split; [exact Hgen|]. split; [lia|]. split; [lia|]. split; [exact Hpos|].
  exact (generateMaze_walls 2 sample_rng _ _ 2 2 ltac:(lia) Hgen ltac:(lia) ltac:(lia) Hpos).
Defined.

(** X3.  For [n ≤ 0] the generator builds no row of [visited] and its first
    assignment, [visited[0][0] = true], throws. *)
Theorem generateMaze_nonpositive (fuel : nat) (n : Z) (r : rng) :
  n ≤ 0 → generateMaze_fuel (S fuel) n r = Fail TypeError.
Proof.
  intros Hn. unfold generateMaze_fuel. rewrite carve_S.
  unfold set_visited, array2_set, filled. cbn [gs_visited].
  replace (Z.to_nat n) with 0%nat by lia. reflexivity.
Qed.

Lemma generateMaze_nonpositive_witness :
  0 ≤ 0 ∧ generateMaze_fuel 1 0 sample_rng = Fail TypeError.
Proof. split; [lia|apply (generateMaze_nonpositive 0 0 sample_rng); lia]. Defined.

(** ** The depth of the recursion *)

(** X4.  The recursion of [carve] is never deeper than the number of
    logical cells: with any budget of at least [n * n] calls the generator
    returns the same maze and leaves the random source in the same state. *)
Theorem generateMaze_depth (fuel : nat) (n : Z) (r : rng) :
  1 ≤ n → (Z.to_nat (n * n) ≤ fuel)%nat →
  generateMaze_fuel fuel n r = generateMaze n r ∧
  ∃ m r', generateMaze n r = Done (m, r').
Proof.
  intros Hn Hfuel. destruct (generateMaze_total n r Hn) as (m & r' & Hgen).
  split; [|by exists m, r'].
  destruct (generateMaze_inv n r m r' Hn Hgen) as (st' & E & -> & -> & _).
  rewrite Hgen. unfold generateMaze_fuel.
  by rewrite (carve_fuel_le _ fuel _ _ _ _ _ _ Hfuel E).
Qed.

Lemma generateMaze_depth_witness :
  1 ≤ 2 ∧ (Z.to_nat (2 * 2) ≤ 9)%nat ∧
  generateMaze_fuel 9 2 sample_rng = generateMaze 2 sample_rng ∧
  ∃ m r', generateMaze 2 sample_rng = Done (m, r').
Proof.
  split; [lia|]. split; [simpl; lia|].
  apply (generateMaze_depth 9 2 sample_rng); [lia|simpl; lia].
Defined.

(** ** The random draws of the generator *)

Lemma set_tile_keeps x y v st st' :
  set_tile x y v st = Done st' →
  gs_rng st' = gs_rng st ∧ gs_visited st' = gs_visited st.
Proof.
  unfold set_tile. destruct (array2_set _ _ _ _) as [g|]; simpl; [|done].
  by intros [= <-].
Qed.

Lemma set_visited_keeps x y st st' :
  set_visited x y st = Done st' →
  gs_rng st' = gs_rng st ∧ gs_grid st' = gs_grid st.
Proof.
  unfold set_visited. destruct (array2_set _ _ _ _) as [g|]; simpl; [|done].
  by intros [= <-].
Qed.

Lemma carve_dirs_draws n fuel cx cy :
  (∀ c1 c2 st sta st1 st',
     in_cells n c1 c2 →
     set_visited c1 c2 st = Done sta →
     set_tile (c1 * 2 + 1) (c2 * 2 + 1) TILE_EMPTY sta = Done st1 →
     maze_inv n st1 → seen (gs_visited st1) c1 c2 → (unvisited n st1 < fuel)%nat →
     carve fuel n n c1 c2 st = Done st' →
     rng_draws (gs_rng st') = rng_draws (gs_rng st1) ∧
     rng_pos (gs_rng st') =
       rng_pos (gs_rng st1) +
       3 * (Z.of_nat (count_cells n (gs_grid st')) -
            Z.of_nat (count_cells n (gs_grid st1)) + 1)) →
  in_cells n cx cy →
  ∀ dirs st st',
    (∀ d, d ∈ dirs → d ∈ dirs0) →
    maze_inv n st → seen (gs_visited st) cx cy → (unvisited n st ≤ fuel)%nat →
    carve_dirs (carve fuel n n) n n cx cy dirs st = Done st' →
    rng_draws (gs_rng st') = rng_draws (gs_rng st) ∧
    rng_pos (gs_rng st') =
      rng_pos (gs_rng st) +
      3 * (Z.of_nat (count_cells n (gs_grid st')) - Z.of_nat (count_cells n (gs_grid st))).
Proof.
  intros IHf Hc. induction dirs as [|[dx dy] ds IHds];
    intros st st' Hdirs Hinv Hseen Hfuel.
  - simpl. intros [= <-]. split; [done|lia].
  - assert (Hds : ∀ d, d ∈ ds → d ∈ dirs0)
      by (intros d Hd; apply Hdirs; by apply list_elem_of_further).
    assert (Hd0 : (dx, dy) ∈ dirs0) by (apply Hdirs, list_elem_of_here).
    simpl. case_bool_decide as Hin; [|by apply IHds].
    assert (Hnb : in_cells n (cx + dx) (cy + dy)) by (unfold in_cells; lia).
    destruct (not_visited_spec n (cx + dx) (cy + dy) st (inv_vis Hinv) Hnb)
      as (b & -> & Hb). simpl.
    destruct b; [|by apply IHds].
    assert (Hfresh : ¬ seen (gs_visited st) (cx + dx) (cy + dy))
      by (intros Hs; apply Hb in Hs; done).
    apply dirs0_cases in Hd0.
    destruct (enter_writes n cx cy (dx, dy) st Hinv Hc Hd0 Hnb)
      as (s1 & s2 & s3 & s4 & E1 & E2 & E3 & E4 & Hent).
    simpl in E1, E2, E3, E4, Hent.
    rewrite E1. simpl. rewrite E2. simpl.
    assert (Hctx : step_ctx n cx cy (dx, dy) st s4) by (by split).
    pose proof (step_inv Hctx) as Hinv4.
    pose proof (step_count_cells Hctx) as Hcount4.
    pose proof (step_mono Hctx) as Hmono4.
    pose proof (count_cells_le n (gs_grid s4)) as Hle4.
    assert (Hseen4 : seen (gs_visited s4) (cx + dx) (cy + dy)).
    { apply (step_seen Hctx _ _). by left. }
    assert (Hfuel4 : (unvisited n s4 < fuel)%nat) by (unfold unvisited in *; lia).
    destruct (carve_spec n fuel (cx + dx) (cy + dy) s2 s3 s4 Hnb E3 E4 Hinv4 Hseen4 Hfuel4)
      as (s5 & E5 & Hinv5 & Hmono5 & Hcount5 & _).
    rewrite E5. simpl. intros Erest.
    destruct (IHf _ _ _ _ _ _ Hnb E3 E4 Hinv4 Hseen4 Hfuel4 E5) as [Hd5 Hp5].
    destruct (IHds s5 st' Hds Hinv5) as [Hd6 Hp6]; [| |done|].
    { by apply Hmono5, Hmono4. }
    { unfold unvisited in *. lia. }
    destruct (set_tile_keeps _ _ _ _ _ E1) as [R1 _].
    destruct (set_tile_keeps _ _ _ _ _ E2) as [R2 _].
    destruct (set_visited_keeps _ _ _ _ E3) as [R3 _].
    destruct (set_tile_keeps _ _ _ _ _ E4) as [R4 _].
    rewrite Hd6, Hd5, Hp6, Hp5, R4, R3, R2, R1. split; [done|lia].
Qed.

Lemma carve_draws n fuel : ∀ cx cy st sta st1 st',
  in_cells n cx cy →
  set_visited cx cy st = Done sta →
  set_tile (cx * 2 + 1) (cy * 2 + 1) TILE_EMPTY sta = Done st1 →
  maze_inv n st1 → seen (gs_visited st1) cx cy → (unvisited n st1 < fuel)%nat →
  carve fuel n n cx cy st = Done st' →
  rng_draws (gs_rng st') = rng_draws (gs_rng st1) ∧
  rng_pos (gs_rng st') =
    rng_pos (gs_rng st1) +
    3 * (Z.of_nat (count_cells n (gs_grid st')) -
         Z.of_nat (count_cells n (gs_grid st1)) + 1).
Proof.
  induction fuel as [|fuel IH];
    intros cx cy st sta st1 st' Hc Ea E1 Hinv Hseen Hfuel; [lia|].
  rewrite carve_S, Ea. unfold rbind at 1. rewrite E1. unfold rbind at 1.
  pose proof (shuffle_from_rng 3 dirs0 (gs_rng st1)) as Hrng.
  change (shuffle_from 3 dirs0 (gs_rng st1)) with (shuffle dirs0 (gs_rng st1)) in Hrng.
  destruct (shuffle dirs0 (gs_rng st1)) as [dirs r] eqn:Hsh. simpl in Hrng.
  intros Eloop.
  destruct (carve_dirs_draws n fuel cx cy IH Hc dirs
              (GenState (gs_grid st1) (gs_visited st1) r) st') as [Hd Hp]; try done.
  { intros d Hd. apply (shuffle_dirs0 (gs_rng st1)). by rewrite Hsh. }
  { by apply (maze_inv_same n st1). }
  { unfold unvisited in *. simpl. lia. }
  simpl in Hd, Hp. rewrite Hd, Hp, Hrng. simpl. split; [done|lia].
Qed.

(** X5.  The generator takes exactly three random draws for each logical
    cell (the shuffle of the four directions), [3 * n * n] in all, and
    nothing else from the random source. *)
Theorem generateMaze_draws (n : Z) (r r' : rng) (m : maze) :
  1 ≤ n → generateMaze n r = Done (m, r') →
  rng_draws r' = rng_draws r ∧ rng_pos r' = rng_pos r + 3 * n * n.
Proof.
  intros Hn Hgen.
  destruct (generateMaze_inv n r m r' Hn Hgen) as (st' & E & _ & -> & Hinv & Hall).
  replace (n * 2 + 1) with (2 * n + 1) in E by lia.
  set (st0 := GenState (filled (2 * n + 1) (2 * n + 1) TILE_WALL) (filled n n false) r) in E.
  destruct (set_visited_spec n n 0 0 st0 (filled_dims _ _ _))
    as (sta & Ea & Hva & Hga & Hra & Aa); [lia..|].
  assert (Hgda : dims (2 * n + 1) (2 * n + 1) (gs_grid sta))
    by (rewrite Hga; apply filled_dims).
  destruct (set_tile_spec _ _ (0 * 2 + 1) (0 * 2 + 1) TILE_EMPTY sta Hgda)
    as (st1 & E1 & Hg1 & Hv1 & Hr1 & A1); [lia..|].
  destruct (start_inv n st1) as [Hinv1 Hcount1]; try done.
  { by rewrite Hv1. }
  { intros x y. rewrite A1, Hga. simpl. done. }
  { intros x y. rewrite Hv1, Aa. done. }
  assert (Hseen1 : seen (gs_visited st1) 0 0).
  { unfold seen. rewrite Hv1, Aa. by rewrite decide_True. }
  assert (Hnn : (1 ≤ Z.to_nat (n * n))%nat) by nia.
  destruct (carve_draws n (Z.to_nat (n * n)) 0 0 st0 sta st1 st') as [Hd Hp]; try done.
  { unfold in_cells. lia. }
  { unfold unvisited. lia. }
  assert (Hcc : count_cells n (gs_grid st') = Z.to_nat (n * n)).
  { unfold count_cells. rewrite length_filter_all.
    - unfold cells. rewrite length_positions. lia.
    - intros [x y] Hxy%elem_of_positions. unfold cell_open. simpl.
      apply (inv_cell Hinv); auto. }
  rewrite Hd, Hp, Hr1, Hra, Hcc, Hcount1. simpl. split; [done|lia].
Qed.

Lemma generateMaze_draws_witness :
  1 ≤ 2 ∧
  generateMaze 2 sample_rng
  = Done (Maze [[1;1;1;1;1]; [1;0;0;0;1]; [1;1;1;0;1]; [1;0;0;0;1]; [1;1;1;1;1]] 5 5,
          Rng (rng_draws sample_rng) 12) ∧
  rng_draws (Rng (rng_draws sample_rng) 12) = rng_draws sample_rng ∧
  rng_pos (Rng (rng_draws sample_rng) 12) = rng_pos sample_rng + 3 * 2 * 2.
Proof.
  assert (Hgen : generateMaze 2 sample_rng
    = Done (Maze [[1;1;1;1;1]; [1;0;0;0;1]; [1;1;1;0;1]; [1;0;0;0;1]; [1;1;1;1;1]] 5 5,
            Rng (rng_draws sample_rng) 12)) by reflexivity.
  split; [lia|]. split; [exact Hgen|].
  exact (generateMaze_draws 2 sample_rng _ _ ltac:(lia) Hgen).
Defined.

(** ** pickRandomCell and its region *)

Lemma pick_draws_region attempts g regionTest w h r c r' :
  pick_draws attempts g regionTest w h r = (Some c, r') →
  empty_at g c.1 c.2 ∧ regionTest c.1 c.2 = true.
Proof.
  revert r. induction attempts as [|k IH]; intros r; simpl; [done|].
  destruct (is_empty g _ _ && regionTest _ _) eqn:Htest; [|apply IH].
  intros [= <- <-]. simpl. apply andb_true_iff in Htest as [He Ht].
  split; [by apply is_empty_true|done].
Qed.

Lemma pickRandomCell_region (w h : Z) g regionTest attempts r :
  dims w h g →
  (∃ x y, empty_at g x y ∧ regionTest x y = true) →
  ∃ c r', pickRandomCell g regionTest attempts r = Done (c, r') ∧
          empty_at g c.1 c.2 ∧ regionTest c.1 c.2 = true.
Proof.
  intros Hd (x & y & He & Ht).
  assert (Hex : has_empty g) by (by exists x, y).
  unfold pickRandomCell. destruct g as [|row0 rest] eqn:Hg.
  { unfold empty_at, at2 in He. case_bool_decide; [|done]. by rewrite lookup_nil in He. }
  rewrite <- Hg in *.
  destruct (dims_first_row w h g row0 rest Hd Hex Hg) as [Hlh Hlw].
  rewrite Hlh, Hlw. clear Hlh Hlw.
  destruct (pick_draws _ _ _ _ _ _) as [[c|] r1] eqn:Hdraw.
  { exists c, r1. split; [done|]. by eapply pick_draws_region. }
  destruct (find _ _) as [c|] eqn:Hf1.
  { exists c, r1. split; [done|]. apply find_some in Hf1 as [_ Hc].
    apply andb_true_iff in Hc as [Hc ?]. split; [by apply is_empty_true|done]. }
  exfalso. pose proof (at2_Some_dims _ _ _ x y _ Hd He) as [Hx Hy].
  pose proof (find_none _ _ Hf1 (x, y)) as Hnone. simpl in Hnone.
  rewrite (proj2 (is_empty_true g x y) He), Ht in Hnone.
  assert (Hin : In (x, y) (scan_order w h)).
  { apply list_elem_of_In, elem_of_scan_order. done. }
  by specialize (Hnone Hin).
Qed.

(** X6.  On a rectangular grid, when some empty tile satisfies the region
    predicate, the tile that [pickRandomCell] returns is empty and satisfies
    it: the scan of the whole grid for any empty tile is used only when the
    region has none. *)
Theorem pickRandomCell_in_region (w h : Z) (g : grid) (regionTest : Z → Z → bool)
    (attempts : nat) (r : rng) :
  dims w h g →
  (∃ x y, empty_at g x y ∧ regionTest x y = true) →
  ∃ c r', pickRandomCell g regionTest attempts r = Done (c, r') ∧
          empty_at g c.1 c.2 ∧ regionTest c.1 c.2 = true.
Proof. apply pickRandomCell_region. Qed.

Lemma pickRandomCell_in_region_witness :
  dims 3 3 [[1; 0; 1]; [1; 0; 1]; [1; 1; 1]] ∧
  (∃ x y, empty_at [[1; 0; 1]; [1; 0; 1]; [1; 1; 1]] x y ∧
          bool_decide (1 ≤ y) = true) ∧
  ∃ c r', pickRandomCell [[1; 0; 1]; [1; 0; 1]; [1; 1; 1]]
            (λ _ y, bool_decide (1 ≤ y)) 0 sample_rng = Done (c, r') ∧
          empty_at [[1; 0; 1]; [1; 0; 1]; [1; 1; 1]] c.1 c.2 ∧
          bool_decide (1 ≤ c.2) = true.
Proof.
  assert (Hd : dims 3 3 [[1; 0; 1]; [1; 0; 1]; [1; 1; 1]]).
  { split; [reflexivity|]. repeat constructor. }
  assert (He : ∃ x y, empty_at [[1; 0; 1]; [1; 0; 1]; [1; 1; 1]] x y ∧
                      bool_decide (1 ≤ y) = true).
  { exists 1, 1. split; reflexivity. }
  split; [exact Hd|]. split; [exact He|].
  exact (pickRandomCell_in_region 3 3 _ (λ _ y, bool_decide (1 ≤ y)) 0 sample_rng Hd He).
Defined.

Lemma pick_draws_none attempts g regionTest w h r :
  (∀ x y, ¬ empty_at g x y) →
  pick_draws attempts g regionTest w h r =
  (None, Rng (rng_draws r) (rng_pos r + 2 * Z.of_nat attempts)).
Proof.
  intros Hno. revert r. induction attempts as [|k IH]; intros r.
  - simpl. destruct r. simpl. do 2 f_equal. lia.
  - cbn [pick_draws]. unfold random_below at 1 2. cbn [rng_draws rng_pos].
    assert (Hf : ∀ x y, is_empty g x y = false).
    { intros x y. apply bool_decide_eq_false. apply Hno. }
    rewrite Hf. simpl. rewrite IH. simpl. do 2 f_equal. lia.
Qed.

(** X7.  On a non-empty array without any empty tile, [pickRandomCell]
    uses up all its attempts (two draws each), finds nothing in either scan
    and answers [(1, 1)], whatever the region predicate. *)
Theorem pickRandomCell_fallback (g : grid) (regionTest : Z → Z → bool)
    (attempts : nat) (r : rng) :
  g ≠ [] → (∀ x y, ¬ empty_at g x y) →
  pickRandomCell g regionTest attempts r =
  Done ((1, 1), Rng (rng_draws r) (rng_pos r + 2 * Z.of_nat attempts)).
Proof.
  intros Hne Hno. unfold pickRandomCell. destruct g as [|row0 rest]; [done|].
  rewrite pick_draws_none by done.
  assert (Hf : ∀ x y, is_empty (row0 :: rest) x y = false).
  { intros x y. apply bool_decide_eq_false. apply Hno. }
  destruct (find (λ c, is_empty _ c.1 c.2 && regionTest c.1 c.2) _) as [c|] eqn:Hf1.
  { apply find_some in Hf1 as [_ Hc]. by rewrite Hf in Hc. }
  destruct (find (λ c, is_empty _ c.1 c.2) _) as [c|] eqn:Hf2.
  { apply find_some in Hf2 as [_ Hc]. by rewrite Hf in Hc. }
  done.
Qed.

Lemma pickRandomCell_fallback_witness :
  [[1; 1]; [1; 1]] ≠ ([] : grid) ∧
  (∀ x y, ¬ empty_at [[1; 1]; [1; 1]] x y) ∧
  pickRandomCell [[1; 1]; [1; 1]] (λ _ _, true) 500 sample_rng =
  Done ((1, 1), Rng (rng_draws sample_rng) (rng_pos sample_rng + 2 * Z.of_nat 500)).
Proof.
  assert (Hne : [[1; 1]; [1; 1]] ≠ ([] : grid)) by discriminate.
  assert (Hno : ∀ x y, ¬ empty_at [[1; 1]; [1; 1]] x y).
  { assert (Hd : dims 2 2 ([[1; 1]; [1; 1]] : grid)).
    { split; [reflexivity|]. repeat constructor. }
    intros x y He.
    pose proof (at2_Some_dims 2 2 _ x y _ Hd He) as [Hx Hy].
    assert (Hc : (x = 0 ∨ x = 1) ∧ (y = 0 ∨ y = 1)) by lia.
    destruct Hc as [[-> | ->] [-> | ->]]; discriminate He. }
  split; [exact Hne|]. split; [exact Hno|].
  exact (pickRandomCell_fallback _ (λ _ _, true) 500 sample_rng Hne Hno).
Defined.

(** ** The two spawns: where they are *)

(** The retry loop keeps whatever the two picks guarantee. *)
Lemma retry_spawns_inv (P Q : Z * Z → Prop) g gridW gridH :
  (∀ r, ∃ c r', pickRandomCell g (leftTopTest gridW gridH) 500 r = Done (c, r') ∧ P c) →
  (∀ r, ∃ c r', pickRandomCell g (rightBottomTest gridW gridH) 500 r = Done (c, r') ∧ Q c) →
  ∀ budget a b tries r,
    P a → Q b →
    ∃ a' b' tries' r',
      retry_spawns budget g gridW gridH a b tries r = Done (a', b', tries', r') ∧
      P a' ∧ Q b' ∧ tries ≤ tries' ≤ tries + Z.of_nat budget ∧
      (too_close a' b' (Z.max gridW gridH) = true → tries' = tries + Z.of_nat budget).
Proof.
  intros HP HQ. induction budget as [|k IH]; intros a b tries r Ha Hb; simpl.
  - destruct (too_close a b _) eqn:Hc; exists a, b, tries, r; split_and!; try done; lia.
  - destruct (too_close a b _) eqn:Hc.
    + destruct (HP r) as (a1 & r1 & E1 & Ha1). rewrite E1. simpl.
      destruct (HQ r1) as (b1 & r2 & E2 & Hb1). rewrite E2. simpl.
      destruct (IH a1 b1 (tries + 1) r2 Ha1 Hb1)
        as (a' & b' & t' & r' & E & ? & ? & ? & Ht).
      exists a', b', t', r'. split_and!; try done; try lia.
      intros Hc'. rewrite (Ht Hc'). lia.
    + exists a, b, tries, r. split_and!; try done; try lia. congruence.
Qed.

Lemma placeSpawns_inv (P Q : Z * Z → Prop) (m : maze) (r : rng) :
  dims (maze_width m) (maze_height m) (maze_grid m) →
  (∀ r, ∃ c r', pickRandomCell (maze_grid m)
                  (leftTopTest (maze_width m) (maze_height m)) 500 r = Done (c, r') ∧
                empty_at (maze_grid m) c.1 c.2 ∧ P c) →
  (∀ r, ∃ c r', pickRandomCell (maze_grid m)
                  (rightBottomTest (maze_width m) (maze_height m)) 500 r = Done (c, r') ∧
                empty_at (maze_grid m) c.1 c.2 ∧ Q c) →
  ∃ a b tries r',
    placeSpawns m r = Done (a, b, tries, r') ∧
    empty_at (maze_grid m) a.1 a.2 ∧ P a ∧ 0 ≤ tries ≤ 200 ∧
    ((Q b ∧ empty_at (maze_grid m) b.1 b.2 ∧
      far_enough a b (Z.max (maze_width m) (maze_height m))) ∨
     (tries = 200 ∧ farthest_first (maze_grid m) a b)).
Proof.
  intros Hd HP HQ. unfold placeSpawns.
  destruct (HP r) as (a0 & r0 & E0 & Ha0). rewrite E0, rbind_Done. cbn [fst snd].
  destruct (HQ r0) as (b0 & r1 & E1 & Hb0). rewrite E1, rbind_Done. cbn [fst snd].
  destruct (retry_spawns_inv
              (λ c, empty_at (maze_grid m) c.1 c.2 ∧ P c)
              (λ c, empty_at (maze_grid m) c.1 c.2 ∧ Q c)
              (maze_grid m) (maze_width m) (maze_height m) HP HQ 200 a0 b0 0 r1 Ha0 Hb0)
    as (a & b & tries & r' & E & [Ha HPa] & [Hb HQb] & Hrange & Ht).
  rewrite E, rbind_Done. cbn iota beta.
  destruct (too_close a b _) eqn:Hc.
  - destruct (scan_best_farthest _ _ (maze_grid m) a Hd Ha) as (best & D & Es & Hfar).
    rewrite Es, rbind_Done. cbn [fst snd]. exists a, best, tries, r'.
    split_and!; try done; try lia. right. split; [|done]. rewrite (Ht eq_refl). lia.
  - exists a, b, tries, r'. split_and!; try done; try lia.
    left. split_and!; try done. by apply too_close_false.
Qed.

(** X8.  On a rectangular grid with an empty tile the placement returns two
    empty tiles inside the grid, after at most 200 retries. *)
Theorem placeSpawns_on_empty_tiles (m : maze) (r : rng) :
  dims (maze_width m) (maze_height m) (maze_grid m) → has_empty (maze_grid m) →
  ∃ a b tries r',
    placeSpawns m r = Done (a, b, tries, r') ∧
    at2 (maze_grid m) a.1 a.2 = Some TILE_EMPTY ∧
    at2 (maze_grid m) b.1 b.2 = Some TILE_EMPTY ∧
    (0 ≤ a.1 < maze_width m) ∧ (0 ≤ a.2 < maze_height m) ∧
    (0 ≤ b.1 < maze_width m) ∧ (0 ≤ b.2 < maze_height m) ∧
    0 ≤ tries ≤ 200.
Proof.
  intros Hd Hex.
  destruct (placeSpawns_inv (λ _, True) (λ _, True) m r Hd)
    as (a & b & tries & r' & E & Ha & _ & Htries & Hcase).
  { intros r1. destruct (pickRandomCell_sound _ _ (maze_grid m)
      (leftTopTest (maze_width m) (maze_height m)) 500 r1 Hd Hex) as (c & r2 & ? & ?).
    by exists c, r2. }
  { intros r1. destruct (pickRandomCell_sound _ _ (maze_grid m)
      (rightBottomTest (maze_width m) (maze_height m)) 500 r1 Hd Hex) as (c & r2 & ? & ?).
    by exists c, r2. }
  assert (Hb : empty_at (maze_grid m) b.1 b.2).
  { destruct Hcase as [(_ & ? & _)|[_ (? & _)]]; done. }
  pose proof (at2_Some_dims _ _ _ _ _ _ Hd Ha) as [? ?].
  pose proof (at2_Some_dims _ _ _ _ _ _ Hd Hb) as [? ?].
  exists a, b, tries, r'. split_and!; try done; lia.
Qed.

Lemma placeSpawns_on_empty_tiles_witness :
  dims 3 3 [[1; 1; 1]; [1; 0; 1]; [1; 1; 1]] ∧
  has_empty [[1; 1; 1]; [1; 0; 1]; [1; 1; 1]] ∧
  ∃ a b tries r',
    placeSpawns (Maze [[1; 1; 1]; [1; 0; 1]; [1; 1; 1]] 3 3) sample_rng
    = Done (a, b, tries, r') ∧
    at2 [[1; 1; 1]; [1; 0; 1]; [1; 1; 1]] a.1 a.2 = Some TILE_EMPTY ∧
    at2 [[1; 1; 1]; [1; 0; 1]; [1; 1; 1]] b.1 b.2 = Some TILE_EMPTY ∧
    (0 ≤ a.1 < 3) ∧ (0 ≤ a.2 < 3) ∧ (0 ≤ b.1 < 3) ∧ (0 ≤ b.2 < 3) ∧
    0 ≤ tries ≤ 200.
Proof.
  assert (Hd : dims 3 3 [[1; 1; 1]; [1; 0; 1]; [1; 1; 1]]).
  { split; [reflexivity|]. repeat constructor. }
  assert (He : has_empty [[1; 1; 1]; [1; 0; 1]; [1; 1; 1]]).
  { exists 1, 1. reflexivity. }
  split; [exact Hd|]. split; [exact He|].
  exact (placeSpawns_on_empty_tiles (Maze [[1; 1; 1]; [1; 0; 1]; [1; 1; 1]] 3 3)
           sample_rng Hd He).
Defined.

Lemma generateMaze_cells n r m r' x y :
  1 ≤ n → generateMaze n r = Done (m, r') → in_cells n x y →
  empty_at (maze_grid m) (2 * x + 1) (2 * y + 1).
Proof.
  intros Hn Hgen Hxy.
  destruct (generateMaze_inv n r m r' Hn Hgen) as (st' & _ & -> & _ & Hinv & Hall).
  simpl. apply (inv_cell Hinv); auto.
Qed.

(** X9.  On a generated maze of at least 3×3 logical cells (the server
    uses 7×7) the first spawn always lies in the left or top region
    ([x ≤ ⌊0.33 W⌋] or [y ≤ ⌊0.33 H⌋]); the second spawn lies in the right
    or bottom region and is far enough, unless the 200 retries are used up
    and it is the farthest tile from the first. *)
Theorem placeSpawns_regions (n : Z) (r0 r1 r : rng) (m : maze) :
  3 ≤ n → generateMaze n r0 = Done (m, r1) →
  ∃ a b tries r',
    placeSpawns m r = Done (a, b, tries, r') ∧
    leftTopTest (maze_width m) (maze_height m) a.1 a.2 = true ∧
    ((rightBottomTest (maze_width m) (maze_height m) b.1 b.2 = true ∧
      far_enough a b (Z.max (maze_width m) (maze_height m))) ∨
     (tries = 200 ∧ farthest_first (maze_grid m) a b)).
Proof.
  intros Hn Hgen.
  destruct (generateMaze_grid n r0 m r1 ltac:(lia) Hgen) as (Hw & Hh & Hd & Hex).
  destruct (placeSpawns_inv
              (λ c, leftTopTest (maze_width m) (maze_height m) c.1 c.2 = true)
              (λ c, rightBottomTest (maze_width m) (maze_height m) c.1 c.2 = true)
              m r Hd) as (a & b & tries & r' & E & _ & Ha & _ & Hcase).
  - intros r2. apply (pickRandomCell_region _ _ _ _ _ _ Hd).
    exists 1, 1. split.
    + apply (generateMaze_cells n r0 m r1 0 0 ltac:(lia) Hgen). unfold in_cells. lia.
    + unfold leftTopTest. rewrite Hw. apply orb_true_iff. left.
      apply bool_decide_eq_true. apply Z.div_le_lower_bound; lia.
  - intros r2. apply (pickRandomCell_region _ _ _ _ _ _ Hd).
    exists (2 * (n - 1) + 1), (2 * (n - 1) + 1). split.
    + apply (generateMaze_cells n r0 m r1 _ _ ltac:(lia) Hgen). unfold in_cells. lia.
    + unfold rightBottomTest. rewrite Hw. apply orb_true_iff. left.
      apply bool_decide_eq_true.
      assert (- (2 * (n - 1) + 1) ≤ (- (66 * (2 * n + 1))) `div` 100); [|lia].
      apply Z.div_le_lower_bound; lia.
  - exists a, b, tries, r'. split_and!; try done.
    destruct Hcase as [(? & _ & ?)|?]; [by left|by right].
Qed.

Lemma distance_pos a c : a ≠ c → 0 < distance a c.
Proof.
  intros Hne. destruct a as [ax ay], c as [x y]. unfold distance. simpl.
  assert (ax - x ≠ 0 ∨ ay - y ≠ 0) as Hd.
  { destruct (decide (ax = x)) as [->|?]; [|left; lia].
    right. intros ?. apply Hne. f_equal. lia. }
  set (u := ax - x) in *. set (v := ay - y) in *. clearbody u v. nia.
Qed.

(** X10.  On a generated maze of at least 2×2 logical cells the two spawns
    are different tiles, so that no player starts on its own goal. *)
Theorem placeSpawns_distinct (n : Z) (r0 r1 r : rng) (m : maze) :
  2 ≤ n → generateMaze n r0 = Done (m, r1) →
  ∃ a b tries r', placeSpawns m r = Done (a, b, tries, r') ∧ a ≠ b.
Proof.
  intros Hn Hgen.
  destruct (generateMaze_grid n r0 m r1 ltac:(lia) Hgen) as (Hw & Hh & Hd & Hex).
  destruct (placeSpawns_spec m r Hd Hex) as (a & b & tries & r' & E & Ha & Hb & Hcase).
  exists a, b, tries, r'. split; [done|]. intros ->.
  destruct Hcase as [Hfar|[_ (_ & Hmax & _)]].
  - unfold far_enough in Hfar. rewrite Hw, Hh in Hfar.
    replace ((b.1 - b.1) * (b.1 - b.1) + (b.2 - b.2) * (b.2 - b.2)) with 0 in Hfar by lia.
    nia.
  - assert (He1 : empty_at (maze_grid m) 1 1).
    { apply (generateMaze_cells n r0 m r1 0 0 ltac:(lia) Hgen). unfold in_cells. lia. }
    assert (He3 : empty_at (maze_grid m) 3 1).
    { apply (generateMaze_cells n r0 m r1 1 0 ltac:(lia) Hgen). unfold in_cells. lia. }
    assert (Hbb : distance b b = 0) by (unfold distance; lia).
    destruct (decide (b = (1, 1))) as [->|Hne].
    + pose proof (Hmax (3, 1) He3) as Hle.
      pose proof (distance_pos (1, 1) (3, 1) ltac:(discriminate)). lia.
    + pose proof (Hmax (1, 1) He1) as Hle.
      pose proof (distance_pos b (1, 1) Hne). lia.
Qed.

Lemma placeSpawns_regions_witness :
  3 ≤ 3 ∧
  generateMaze 3 sample_rng
  = Done (Maze [[1; 1; 1; 1; 1; 1; 1]; [1; 0; 0; 0; 1; 0; 1]; [1; 1; 1; 0; 1; 0; 1];
                [1; 0; 1; 0; 0; 0; 1]; [1; 0; 1; 1; 1; 0; 1]; [1; 0; 0; 0; 0; 0; 1];
                [1; 1; 1; 1; 1; 1; 1]] 7 7, Rng (rng_draws sample_rng) 27) ∧
  ∃ a b tries r',
    placeSpawns
      (Maze [[1; 1; 1; 1; 1; 1; 1]; [1; 0; 0; 0; 1; 0; 1]; [1; 1; 1; 0; 1; 0; 1];
             [1; 0; 1; 0; 0; 0; 1]; [1; 0; 1; 1; 1; 0; 1]; [1; 0; 0; 0; 0; 0; 1];
             [1; 1; 1; 1; 1; 1; 1]] 7 7) sample_rng = Done (a, b, tries, r') ∧
    leftTopTest 7 7 a.1 a.2 = true ∧
    ((rightBottomTest 7 7 b.1 b.2 = true ∧ far_enough a b (Z.max 7 7)) ∨
     (tries = 200 ∧
      farthest_first
        [[1; 1; 1; 1; 1; 1; 1]; [1; 0; 0; 0; 1; 0; 1]; [1; 1; 1; 0; 1; 0; 1];
         [1; 0; 1; 0; 0; 0; 1]; [1; 0; 1; 1; 1; 0; 1]; [1; 0; 0; 0; 0; 0; 1];
         [1; 1; 1; 1; 1; 1; 1]] a b)).
Proof.
  assert (Hgen : generateMaze 3 sample_rng
    = Done (Maze [[1; 1; 1; 1; 1; 1; 1]; [1; 0; 0; 0; 1; 0; 1]; [1; 1; 1; 0; 1; 0; 1];
                  [1; 0; 1; 0; 0; 0; 1]; [1; 0; 1; 1; 1; 0; 1]; [1; 0; 0; 0; 0; 0; 1];
                  [1; 1; 1; 1; 1; 1; 1]] 7 7, Rng (rng_draws sample_rng) 27))
    by reflexivity.
  split; [lia|]. split; [exact Hgen|].
  exact (placeSpawns_regions 3 sample_rng _ sample_rng _ ltac:(lia) Hgen).
Defined.

Lemma placeSpawns_distinct_witness :
  2 ≤ 2 ∧
  generateMaze 2 sample_rng
  = Done (Maze [[1;1;1;1;1]; [1;0;0;0;1]; [1;1;1;0;1]; [1;0;0;0;1]; [1;1;1;1;1]] 5 5,
          Rng (rng_draws sample_rng) 12) ∧
  ∃ a b tries r',
    placeSpawns
      (Maze [[1;1;1;1;1]; [1;0;0;0;1]; [1;1;1;0;1]; [1;0;0;0;1]; [1;1;1;1;1]] 5 5)
      sample_rng = Done (a, b, tries, r') ∧ a ≠ b.
Proof.
  assert (Hgen : generateMaze 2 sample_rng
    = Done (Maze [[1;1;1;1;1]; [1;0;0;0;1]; [1;1;1;0;1]; [1;0;0;0;1]; [1;1;1;1;1]] 5 5,
            Rng (rng_draws sample_rng) 12)) by reflexivity.
  split; [lia|]. split; [exact Hgen|].
  exact (placeSpawns_distinct 2 sample_rng _ sample_rng _ ltac:(lia) Hgen).
Defined.

(** On a maze of 1×1 or 2×2 logical cells the right or bottom region holds
    no empty tile; on the 2×2 maze the second spawn then comes from the
    scan for any empty tile or from the scan for the farthest one. *)
Example rightBottom_region_empty_2 :
  existsb (λ c, is_empty [[1;1;1;1;1]; [1;0;0;0;1]; [1;1;1;0;1]; [1;0;0;0;1]; [1;1;1;1;1]]
                  c.1 c.2 && rightBottomTest 5 5 c.1 c.2) (scan_order 5 5) = false.
Proof. vm_compute. reflexivity. Qed.

(** ** Room ids *)

Lemma append_inj_l (s x y : string) : s +:+ x = s +:+ y → x = y.
Proof. induction s as [|c s IH]; simpl; [done|]. intros [= H]. by apply IH. Qed.

Lemma makeRoomId_not_inherited (a b : string) (now : Z) :
  makeRoomId a b now ∉ object_prototype_keys.
Proof.
  unfold makeRoomId, object_prototype_keys. simpl.
  rewrite !elem_of_cons, elem_of_nil.
  intros H. repeat (destruct H as [H|H]; [discriminate H|]). done.
Qed.

(** X11.  A room id made by the server starts with [r-]: it is never the
    name of a property inherited from [Object.prototype], so looking it up
    in the registry gives the registered room or nothing. *)
Theorem makeRoomId_own_key (a b : string) (now : Z) (rs : list (string * room)) :
  (makeRoomId a b now ∉ object_prototype_keys) ∧
  (obj_lookup rs (makeRoomId a b now) =
     match obj_get rs (makeRoomId a b now) with Some r => Own r | None => Missing end).
Proof.
  pose proof (makeRoomId_not_inherited a b now) as Hkey.
  split; [done|]. unfold obj_lookup.
  destruct (obj_get rs _); [done|]. by rewrite bool_decide_eq_false_2.
Qed.

(** X12.  Two room ids made for the same pair of sockets at different
    times are different. *)
Theorem makeRoomId_time (a b : string) (now now' : Z) :
  makeRoomId a b now = makeRoomId a b now' → now = now'.
Proof.
  unfold makeRoomId. intros H.
  do 5 apply append_inj_l in H. by apply (inj pretty) in H.
Qed.

Lemma makeRoomId_time_witness :
  makeRoomId "A" "B" 7 = makeRoomId "A" "B" 7 ∧ 7 = 7.
Proof. split; [reflexivity|apply (makeRoomId_time "A" "B" 7 7); reflexivity]. Defined.

(** ** The move handler: every outcome *)

Lemma obj_lookup_cases {A} (o : list (string * A)) k :
  (∃ v, obj_get o k = Some v ∧ obj_lookup o k = Own v) ∨
  (obj_get o k = None ∧ k ∈ object_prototype_keys ∧ obj_lookup o k = Inherited) ∨
  (obj_get o k = None ∧ (k ∉ object_prototype_keys) ∧ obj_lookup o k = Missing).
Proof.
  unfold obj_lookup. destruct (obj_get o k) as [v|]; [left; by exists v|right].
  case_bool_decide; [left|right]; done.
Qed.




Example move_without_payload_throws :
  on_move "A" None 2000 (state_after demo_paired) = Fail TypeError.
Proof. reflexivity. Qed.

(** X14.  What a move that returns has done.  Either nothing: no emission,
    the state as it was.  Or the mover stands on a new tile and the state of
    the room after the move is broadcast to the room; when the mover now
    stands on its goal, a game-over message naming the mover and the reveal
    of the maze follow and one timer due 4500 ms later is added; otherwise
    nothing follows and no timer is added. *)
Theorem move_outcome (sid roomId dir : string) (now : Z) (st st' : server)
    (out : list emission) :
  move sid roomId dir now st = Done (st', out) →
  (out = [] ∧ st' = st) ∨
  (∃ r' p',
     obj_get (rooms st') roomId = Some r' ∧ room_players r' !! sid = Some p' ∧
     if bool_decide (pl_x p' = pl_exitX p' ∧ pl_y p' = pl_exitY p') then
       out = [Emit (members (channels st) roomId) (State (view <$> room_players r'));
              Emit (members (channels st) roomId) (GameOver sid (pl_color p'));
              Emit (members (channels st) roomId) (RevealMaze (maze_grid (room_maze r')))] ∧
       timers st' = timers st ++ [(now + 4500, roomId)]
     else
       out = [Emit (members (channels st) roomId) (State (view <$> room_players r'))] ∧
       timers st' = timers st).
Proof.
  unfold move.
  destruct (obj_lookup (rooms st) roomId) as [r| |]; [|done|intros [= <- <-]; by left].
  destruct (room_players r !! sid) as [p|]; [|intros [= <- <-]; by left].
  destruct (obj_lookup deltas dir) as [d| |]; [|done|intros [= <- <-]; by left].
  case_bool_decide; [intros [= <- <-]; by left|].
  destruct (array2_get _ _ _) as [t|]; simpl; [|done].
  case_bool_decide; [intros [= <- <-]; by left|].
  case_bool_decide as Hwin; intros [= <- <-]; right;
    (eexists _, _; cbn [rooms timers]; split; [apply obj_get_set_eq|];
     cbn [room_players room_maze]; split; [apply lookup_insert_eq|];
     cbn [pl_x pl_y pl_exitX pl_exitY pl_color]).
  - by rewrite bool_decide_eq_true_2.
  - by rewrite bool_decide_eq_false_2.
Qed.

Lemma move_outcome_witness :
  move "A" demo_room "right" 2000 demo_before_win = Done (demo_win.1, demo_win.2) ∧
  ((demo_win.2 = [] ∧ demo_win.1 = demo_before_win) ∨
   (∃ r' p',
      obj_get (rooms demo_win.1) demo_room = Some r' ∧ room_players r' !! "A" = Some p' ∧
      if bool_decide (pl_x p' = pl_exitX p' ∧ pl_y p' = pl_exitY p') then
        demo_win.2 =
          [Emit (members (channels demo_before_win) demo_room)
             (State (view <$> room_players r'));
           Emit (members (channels demo_before_win) demo_room)
             (GameOver "A" (pl_color p'));
           Emit (members (channels demo_before_win) demo_room)
             (RevealMaze (maze_grid (room_maze r')))] ∧
        timers demo_win.1 = timers demo_before_win ++ [(2000 + 4500, demo_room)]
      else
        demo_win.2 =
          [Emit (members (channels demo_before_win) demo_room)
             (State (view <$> room_players r'))] ∧
        timers demo_win.1 = timers demo_before_win)).
Proof.
  assert (Hmove : move "A" demo_room "right" 2000 demo_before_win
                  = Done (demo_win.1, demo_win.2)) by (vm_compute; reflexivity).
  split; [exact Hmove|].
  exact (move_outcome "A" demo_room "right" 2000 demo_before_win _ _ Hmove).
Defined.

Lemma deltas_unit dir d :
  obj_get deltas dir = Some d → Z.abs d.1 + Z.abs d.2 = 1.
Proof.
  unfold deltas. simpl.
  repeat (case_decide; [intros [= <-]; simpl; lia|]). done.
Qed.

(** X15.  A move that returns leaves the pending slot, the channels, the
    random source and every other room as they were, creates and removes no
    room, and in its own room changes neither the maze nor the set of
    players nor any player but the sender; of the sender it changes at most
    the position, by at most one step up, down, left or right. *)
Theorem move_frame (sid roomId dir : string) (now : Z) (st st' : server)
    (out : list emission) :
  move sid roomId dir now st = Done (st', out) →
  waitingSocket st' = waitingSocket st ∧ channels st' = channels st ∧
  random st' = random st ∧
  (∀ k, k ≠ roomId → obj_get (rooms st') k = obj_get (rooms st) k) ∧
  match obj_get (rooms st) roomId with
  | None => obj_get (rooms st') roomId = None
  | Some r =>
      ∃ r', obj_get (rooms st') roomId = Some r' ∧
            room_maze r' = room_maze r ∧
            dom (room_players r') = dom (room_players r) ∧
            (∀ pid, pid ≠ sid → room_players r' !! pid = room_players r !! pid) ∧
            match room_players r !! sid with
            | None => room_players r' !! sid = None
            | Some p =>
                ∃ p', room_players r' !! sid = Some p' ∧
                      pl_id p' = pl_id p ∧ pl_color p' = pl_color p ∧
                      pl_exitX p' = pl_exitX p ∧ pl_exitY p' = pl_exitY p ∧
                      Z.abs (pl_x p' - pl_x p) + Z.abs (pl_y p' - pl_y p) ≤ 1
            end
  end.
Proof.
  unfold move.
  assert (Hsame : ∀ r, obj_get (rooms st) roomId = Some r →
    ∃ r', obj_get (rooms st) roomId = Some r' ∧ room_maze r' = room_maze r ∧
          dom (room_players r') = dom (room_players r) ∧
          (∀ pid, pid ≠ sid → room_players r' !! pid = room_players r !! pid) ∧
          match room_players r !! sid with
          | None => room_players r' !! sid = None
          | Some p =>
              ∃ p', room_players r' !! sid = Some p' ∧
                    pl_id p' = pl_id p ∧ pl_color p' = pl_color p ∧
                    pl_exitX p' = pl_exitX p ∧ pl_exitY p' = pl_exitY p ∧
                    Z.abs (pl_x p' - pl_x p) + Z.abs (pl_y p' - pl_y p) ≤ 1
          end).
  { intros r Hr. exists r. split_and!; try done.
    destruct (room_players r !! sid) as [p|]; [|done].
    exists p. split_and!; try done. lia. }
  destruct (obj_lookup_cases (rooms st) roomId)
    as [(r & Hr & ->)|[(Hr & Hk & ->)|(Hr & Hk & ->)]];
    [|done|intros [= <- <-]; rewrite Hr; by split_and!].
  rewrite Hr.
  destruct (room_players r !! sid) as [p|] eqn:Hp;
    [|intros [= <- <-]; split_and!; try done;
      specialize (Hsame r Hr); by rewrite Hp in Hsame].
  destruct (obj_lookup_cases deltas dir)
    as [(d & Hd & ->)|[(Hd & Hkd & ->)|(Hd & Hkd & ->)]];
    [|done|intros [= <- <-]; split_and!; try done;
      specialize (Hsame r Hr); by rewrite Hp in Hsame].
  case_bool_decide; [intros [= <- <-]; split_and!; try done;
                     specialize (Hsame r Hr); by rewrite Hp in Hsame|].
  destruct (array2_get _ _ _) as [t|]; simpl; [|done].
  case_bool_decide; [intros [= <- <-]; split_and!; try done;
                     specialize (Hsame r Hr); by rewrite Hp in Hsame|].
  pose proof (deltas_unit dir d Hd) as Hunit.
  case_bool_decide; intros [= <- <-]; cbn [waitingSocket channels random rooms];
    (split_and!; try done;
     [ by intros k Hne; apply obj_get_set_ne
     | eexists; split; [apply obj_get_set_eq|]; cbn [room_maze room_players];
       split_and!;
       [ done
       | rewrite dom_insert_L; apply set_eq; intros x;
         rewrite elem_of_union, elem_of_singleton; split; [|tauto];
         intros [->|?]; [apply elem_of_dom; by eexists|done]
       | by intros pid Hne; rewrite lookup_insert_ne
       | eexists; split; [apply lookup_insert_eq|]; simpl; split_and!; try done; lia ] ]).
Qed.

Lemma move_frame_witness :
  move "A" demo_room "right" 2000 demo_before_win = Done (demo_win.1, demo_win.2) ∧
  waitingSocket demo_win.1 = waitingSocket demo_before_win ∧
  channels demo_win.1 = channels demo_before_win ∧
  random demo_win.1 = random demo_before_win ∧
  (∀ k, k ≠ demo_room → obj_get (rooms demo_win.1) k = obj_get (rooms demo_before_win) k) ∧
  match obj_get (rooms demo_before_win) demo_room with
  | None => obj_get (rooms demo_win.1) demo_room = None
  | Some r =>
      ∃ r', obj_get (rooms demo_win.1) demo_room = Some r' ∧
            room_maze r' = room_maze r ∧
            dom (room_players r') = dom (room_players r) ∧
            (∀ pid, pid ≠ "A" → room_players r' !! pid = room_players r !! pid) ∧
            match room_players r !! "A" with
            | None => room_players r' !! "A" = None
            | Some p =>
                ∃ p', room_players r' !! "A" = Some p' ∧
                      pl_id p' = pl_id p ∧ pl_color p' = pl_color p ∧
                      pl_exitX p' = pl_exitX p ∧ pl_exitY p' = pl_exitY p ∧
                      Z.abs (pl_x p' - pl_x p) + Z.abs (pl_y p' - pl_y p) ≤ 1
            end
  end.
Proof.
  assert (Hmove : move "A" demo_room "right" 2000 demo_before_win
                  = Done (demo_win.1, demo_win.2)) by (vm_compute; reflexivity).
  split; [exact Hmove|].
  exact (move_frame "A" demo_room "right" 2000 demo_before_win _ _ Hmove).
Defined.

Lemma array2_get_Some {A} (a : list (list A)) x y v :
  0 ≤ x → array2_get a x y = Done (Some v) → at2 a x y = Some v.
Proof.
  unfold at2, array2_get. intros Hx.
  case_bool_decide as Hy; [|done].
  rewrite bool_decide_eq_true_2 by lia.
  destruct (a !! Z.to_nat y) as [row|]; simpl; [|done].
  rewrite bool_decide_eq_true_2 by lia. by intros [= ->].
Qed.

(** X16.  The move handler returns without any emission exactly when it
    drops the move, and then the state is as before: the room id is no key
    of the registry, or the sender is no player of the room, or the
    direction is none of the four tokens and no inherited property name, or
    the candidate tile is outside the maze, or it is a wall. *)
Theorem move_silent_iff (sid roomId dir : string) (now : Z) (st st' : server) :
  move sid roomId dir now st = Done (st', []) ↔
  st' = st ∧
  (obj_lookup (rooms st) roomId = Missing ∨
   ∃ r, obj_get (rooms st) roomId = Some r ∧
        (room_players r !! sid = None ∨
         ∃ p, room_players r !! sid = Some p ∧
              (obj_lookup deltas dir = Missing ∨
               ∃ d, obj_get deltas dir = Some d ∧
                    (pl_x p + d.1 < 0 ∨ pl_y p + d.2 < 0 ∨
                     maze_width (room_maze r) ≤ pl_x p + d.1 ∨
                     maze_height (room_maze r) ≤ pl_y p + d.2 ∨
                     at2 (maze_grid (room_maze r)) (pl_x p + d.1) (pl_y p + d.2)
                     = Some TILE_WALL)))).
Proof.
  split; [|intros [-> H]; by apply move_rejected].
  unfold move.
  destruct (obj_lookup_cases (rooms st) roomId)
    as [(r & Hr & Er)|[(Hr & Hk & Er)|(Hr & Hk & Er)]]; rewrite Er;
    [|done|intros [= <-]; split; [done|by left]].
  destruct (room_players r !! sid) as [p|] eqn:Hp;
    [|intros [= <-]; split; [done|]; right; exists r; split; [done|by left]].
  destruct (obj_lookup_cases deltas dir)
    as [(d & Hd & Ed)|[(Hd & Hkd & Ed)|(Hd & Hkd & Ed)]]; rewrite Ed;
    [|done|intros [= <-]; split; [done|]; right; exists r; split; [done|];
           right; exists p; split; [done|by left]].
  case_bool_decide as Hout.
  { intros [= <-]; split; [done|]. right; exists r; split; [done|].
    right; exists p; split; [done|]. right; exists d; split; [done|].
    destruct Hout as [?|[?|[?|?]]]; tauto. }
  destruct (array2_get _ _ _) as [t|] eqn:Et; simpl; [|done].
  case_bool_decide as Hw.
  { intros [= <-]; split; [done|]. right; exists r; split; [done|].
    right; exists p; split; [done|]. right; exists d; split; [done|].
    do 4 right. subst t. apply array2_get_Some; [lia|done]. }
  by case_bool_decide.
Qed.

Lemma move_silent_iff_witness :
  move "A" demo_room "down" 2000 (state_after demo_paired)
  = Done (state_after demo_paired, []) ∧
  state_after demo_paired = state_after demo_paired ∧
  (obj_lookup (rooms (state_after demo_paired)) demo_room = Missing ∨
   ∃ r, obj_get (rooms (state_after demo_paired)) demo_room = Some r ∧
        (room_players r !! "A" = None ∨
         ∃ p, room_players r !! "A" = Some p ∧
              (obj_lookup deltas "down" = Missing ∨
               ∃ d, obj_get deltas "down" = Some d ∧
                    (pl_x p + d.1 < 0 ∨ pl_y p + d.2 < 0 ∨
                     maze_width (room_maze r) ≤ pl_x p + d.1 ∨
                     maze_height (room_maze r) ≤ pl_y p + d.2 ∨
                     at2 (maze_grid (room_maze r)) (pl_x p + d.1) (pl_y p + d.2)
                     = Some TILE_WALL)))).
Proof.
  assert (H : move "A" demo_room "down" 2000 (state_after demo_paired)
              = Done (state_after demo_paired, [])) by (vm_compute; reflexivity).
  split; [exact H|].
  exact (proj1 (move_silent_iff "A" demo_room "down" 2000 (state_after demo_paired)
                  (state_after demo_paired)) H).
Defined.

(** ** Disconnect *)

Lemma disconnect_rooms_without sid todo :
  ∀ rs ch out,
    (∀ k, sid ∉ members ch k) → (∀ e, e ∈ out → sid ∉ em_to e) →
    (∀ k, sid ∉ members (disconnect_rooms sid todo rs ch out).1.2 k) ∧
    (∀ e, e ∈ (disconnect_rooms sid todo rs ch out).2 → sid ∉ em_to e).
Proof.
  induction todo as [|[roomId r] todo IH]; intros rs ch out Hch Hout; [done|].
  simpl. case_bool_decide; [|by apply IH].
  apply IH.
  - intros k. destruct (decide (roomId = k)) as [<-|Hne].
    + rewrite members_insert_same. intros [Hin _]%elem_of_difference. by eapply Hch.
    + rewrite members_insert_other by done. apply Hch.
  - intros e [Hin|Hin]%elem_of_app; [by apply Hout|].
    apply list_elem_of_singleton in Hin as ->. apply Hch.
Qed.

(** X17.  After the disconnect handler of a socket the server holds no
    reference to it: it is not the pending participant, no registered room
    has it as a player, no channel has it as a member; and the handler
    emits nothing but opponent-disconnected messages, none of them to the
    socket itself. *)
Theorem disconnect_forgets (sid : string) (st : server) :
  server_wf st →
  ∃ st' out,
    disconnect sid st = Done (st', out) ∧
    waitingSocket st' ≠ Some sid ∧
    (waitingSocket st ≠ Some sid → waitingSocket st' = waitingSocket st) ∧
    (∀ roomId r, obj_get (rooms st') roomId = Some r → room_players r !! sid = None) ∧
    (∀ roomId, sid ∉ members (channels st') roomId) ∧
    (∀ e, e ∈ out → em_msg e = OpponentDisconnected ∧ sid ∉ em_to e) ∧
    random st' = random st.
Proof.
  intros [Hnd Hrooms].
  destruct (disconnect_spec sid st Hnd) as (rs' & ch' & out & E & Hrs & _ & _ & Hmsg & _).
  exists (Server (match waitingSocket st with
                  | Some wid => if decide (wid = sid) then None else Some wid
                  | None => None
                  end) rs' ch' (timers st) (random st)), out.
  split; [exact E|]. cbn [waitingSocket rooms channels random].
  destruct (disconnect_rooms_without sid (rooms st) (rooms st)
              ((λ s : gset string, s ∖ {[sid]}) <$> channels st) []) as [Hch Hout].
  { intros k. rewrite members_leave_all. intros [_ Hn]%elem_of_difference.
    apply Hn. by apply elem_of_singleton. }
  { intros e He. by apply elem_of_nil in He. }
  unfold disconnect in E.
  destruct (disconnect_rooms sid (rooms st) (rooms st)
              ((λ s : gset string, s ∖ {[sid]}) <$> channels st) [])
    as [[rs1 ch1] out1] eqn:Eloop.
  injection E as -> -> ->. simpl in Hch, Hout.
  split_and!; try done.
  - destruct (waitingSocket st) as [wid|]; [|done].
    destruct (decide (wid = sid)); [done|congruence].
  - destruct (waitingSocket st) as [wid|]; [|done].
    intros Hne. destruct (decide (wid = sid)); [congruence|done].
  - intros roomId r Hr. by apply obj_get_Some_elem, Hrs in Hr as [_ Hr].
  - intros e He. split; [by apply Hmsg|by apply Hout].
Qed.

Lemma disconnect_forgets_witness :
  server_wf (state_after demo_won) ∧
  ∃ st' out,
    disconnect "B" (state_after demo_won) = Done (st', out) ∧
    waitingSocket st' ≠ Some "B" ∧
    (waitingSocket (state_after demo_won) ≠ Some "B" →
     waitingSocket st' = waitingSocket (state_after demo_won)) ∧
    (∀ roomId r, obj_get (rooms st') roomId = Some r → room_players r !! "B" = None) ∧
    (∀ roomId, "B" ∉ members (channels st') roomId) ∧
    (∀ e, e ∈ out → em_msg e = OpponentDisconnected ∧ "B" ∉ em_to e) ∧
    random st' = random (state_after demo_won).
Proof.
  split; [apply state_after_wf|].
  exact (disconnect_forgets "B" (state_after demo_won) (state_after_wf demo_won)).
Defined.

(** ** Timers *)

Lemma run_timers_fields now st :
  waitingSocket (run_timers now st) = waitingSocket st ∧
  random (run_timers now st) = random st ∧
  timers (run_timers now st) = filter (λ t, ¬ due now t) (timers st) ∧
  channels (run_timers now st) =
    foldl (λ ch t, delete t.2 ch) (channels st) (filter (due now) (timers st)).
Proof.
  unfold run_timers.
  generalize (filter (λ t, ¬ due now t) (timers st)). intros keep.
  generalize (rooms st), (channels st).
  induction (filter (due now) (timers st)) as [|t l IH]; intros rs ch; [done|].
  simpl. apply IH.
Qed.

Lemma members_foldl_delete (l : list (Z * string)) (ch : gmap string (gset string)) k :
  members (foldl (λ ch t, delete t.2 ch) ch l) k =
  if decide (k ∈ l.*2) then ∅ else members ch k.
Proof.
  revert ch. induction l as [|t l IH]; intros ch.
  - simpl. destruct (decide (k ∈ [])) as [H|H]; [by apply elem_of_nil in H|done].
  - rewrite fmap_cons. cbn [foldl]. rewrite IH.
    destruct (decide (k = t.2)) as [->|Hne].
    + rewrite (decide_True (P := t.2 ∈ t.2 :: l.*2)) by apply list_elem_of_here.
      unfold members. rewrite lookup_delete_eq. by destruct (decide (t.2 ∈ l.*2)).
    + unfold members. rewrite lookup_delete_ne by done.
      destruct (decide (k ∈ l.*2)) as [H1|H1], (decide (k ∈ t.2 :: l.*2)) as [H2|H2];
        try done.
      * destruct H2. by apply list_elem_of_further.
      * apply elem_of_cons in H2 as [?|?]; done.
Qed.

Lemma filter_not_due now (l : list (Z * string)) :
  filter (due now) (filter (λ t, ¬ due now t) l) = [] ∧
  filter (λ t, ¬ due now t) (filter (λ t, ¬ due now t) l) = filter (λ t, ¬ due now t) l.
Proof.
  induction l as [|t l [IH1 IH2]]; [done|].
  rewrite (filter_cons (λ t, ¬ due now t) t l).
  destruct (decide (¬ due now t)) as [Hn|Hn]; [|done].
  rewrite !filter_cons, decide_False, decide_True by done.
  by rewrite IH1, IH2.
Qed.

(** X18.  When the timers run at a time [now], a timer fires exactly when
    it is due and is then no longer pending; the rooms whose timer fired are
    out of the registry and their channels are empty, every other room and
    channel is as before, and so are the pending participant and the random
    source.  Running the timers a second time at the same moment changes
    nothing. *)
Theorem run_timers_effect (now : Z) (st : server) :
  (∀ t, t ∈ timers (run_timers now st) ↔ t ∈ timers st ∧ now < t.1) ∧
  (∀ k, (∃ due_at, (due_at, k) ∈ timers st ∧ due_at ≤ now) →
        obj_get (rooms (run_timers now st)) k = None ∧
        members (channels (run_timers now st)) k = ∅) ∧
  (∀ k, (∀ due_at, (due_at, k) ∈ timers st → now < due_at) →
        obj_get (rooms (run_timers now st)) k = obj_get (rooms st) k ∧
        members (channels (run_timers now st)) k = members (channels st) k) ∧
  waitingSocket (run_timers now st) = waitingSocket st ∧
  random (run_timers now st) = random st ∧
  run_timers now (run_timers now st) = run_timers now st.
Proof.
  destruct (run_timers_fields now st) as (Hw & Hr & Ht & Hc).
  assert (Hdue : ∀ k, k ∈ (filter (due now) (timers st)).*2 ↔
                      ∃ due_at, (due_at, k) ∈ timers st ∧ due_at ≤ now).
  { intros k. rewrite list_elem_of_fmap. split.
    - intros ([a k'] & -> & [Hd Hin]%list_elem_of_filter). by exists a.
    - intros (a & Hin & Hle). exists (a, k). split; [done|].
      apply list_elem_of_filter. by split. }
  split_and!; try done.
  - intros t. rewrite Ht, list_elem_of_filter. unfold due. split.
    + intros [Hn Hin]. split; [done|lia].
    + intros [Hin Hn]. split; [lia|done].
  - intros k Hk. apply Hdue in Hk.
    rewrite run_timers_lookup, Hc, members_foldl_delete.
    by rewrite !decide_True by done.
  - intros k Hk.
    assert (Hn : k ∉ (filter (due now) (timers st)).*2).
    { intros (a & Hin & Hle)%Hdue. specialize (Hk a Hin). lia. }
    rewrite run_timers_lookup, Hc, members_foldl_delete.
    by rewrite !decide_False by done.
  - destruct (filter_not_due now (timers st)) as [Hnone Hkeep].
    unfold run_timers at 1. rewrite Ht, Hnone, Hkeep, <- Ht. simpl.
    by destruct (run_timers now st).
Qed.
(** ** Invariants of the reachable server states *)

Lemma init_ok r : server_ok (init_server r).
Proof. intros k v Hin. by apply elem_of_nil in Hin. Qed.

Lemma findMatch_ok sid now st st' out :
  server_ok st → findMatch sid now st = Done (st', out) → server_ok st'.
Proof.
  intros Hok. destruct (waitingSocket st) as [wid|] eqn:Hw.
  - destruct (decide (wid = sid)) as [->|Hne].
    + unfold findMatch. rewrite Hw, decide_True by done. by intros [= <- _].
    + destruct (findMatch_pairs sid wid now st Hw Hne)
        as (m & r1 & a & b & tries & r2 & Egen & _ & Hmw & Hmh & Hd & Ha & Hb & E).
      cbv zeta in E. rewrite E. intros [= <- _]. cbn [rooms].
      intros k v [[-> ->]|Hin]%obj_set_elem; [|by eapply Hok].
      destruct (generateMaze_inv MAZE_LOGICAL (random st) m r1) as (g & _ & Hm & _ & Hinv & _);
        [unfold MAZE_LOGICAL; lia|done|].
      unfold room_ok. cbn [room_maze room_players]. rewrite Hmw, Hmh.
      split_and!; try done.
      * intros x y t. rewrite Hm. simpl. apply (inv_tiles Hinv).
      * rewrite map_size_insert_None, map_size_insert_None, map_size_empty; [done|done|].
        by rewrite lookup_insert_ne, lookup_empty.
      * intros pid p. destruct (decide (pid = sid)) as [->|Hpid].
        { rewrite lookup_insert_eq. by intros [= <-]. }
        rewrite lookup_insert_ne by done.
        destruct (decide (pid = wid)) as [->|Hpid'].
        { rewrite lookup_insert_eq. by intros [= <-]. }
        by rewrite lookup_insert_ne, lookup_empty.
  - unfold findMatch. rewrite Hw. by intros [= <- _].
Qed.

Lemma move_ok sid roomId dir now st st' out :
  server_ok st → move sid roomId dir now st = Done (st', out) → server_ok st'.
Proof.
  intros Hok. unfold move.
  destruct (obj_lookup_cases (rooms st) roomId)
    as [(r & Hr & ->)|[(Hr & Hk & ->)|(Hr & Hk & ->)]];
    [|done|by intros [= <- _]].
  destruct (room_players r !! sid) as [p|] eqn:Hp; [|by intros [= <- _]].
  destruct (obj_lookup_cases deltas dir)
    as [(d & Hd & ->)|[(Hd & Hkd & ->)|(Hd & Hkd & ->)]];
    [|done|by intros [= <- _]].
  case_bool_decide as Hout; [by intros [= <- _]|].
  destruct (Hok roomId r (obj_get_Some_elem _ _ _ Hr))
    as (Hmw & Hmh & Hdims & Htiles & Hsize & Hplayers).
  rewrite (array2_get_spec _ _ _ _ _ Hdims) by lia. rewrite rbind_Done.
  case_bool_decide as Hwall; [by intros [= <- _]|].
  assert (Hok' : server_ok
            (Server (waitingSocket st)
               (obj_set (rooms st) roomId
                  (Room (room_maze r)
                     (<[sid := Player (pl_id p) (pl_x p + d.1) (pl_y p + d.2)
                                 (pl_color p) (pl_exitX p) (pl_exitY p)]>
                        (room_players r))))
               (channels st) (timers st) (random st)) ∧
          ∀ ts, server_ok
            (Server (waitingSocket st)
               (obj_set (rooms st) roomId
                  (Room (room_maze r)
                     (<[sid := Player (pl_id p) (pl_x p + d.1) (pl_y p + d.2)
                                 (pl_color p) (pl_exitX p) (pl_exitY p)]>
                        (room_players r))))
               (channels st) ts (random st))).
  { assert (Hrooms : ∀ k v,
      (k, v) ∈ obj_set (rooms st) roomId
                 (Room (room_maze r)
                    (<[sid := Player (pl_id p) (pl_x p + d.1) (pl_y p + d.2)
                                (pl_color p) (pl_exitX p) (pl_exitY p)]>
                       (room_players r))) → room_ok v).
    { intros k v [[-> ->]|Hin]%obj_set_elem; [|by eapply Hok].
      unfold room_ok. cbn [room_maze room_players]. split_and!; try done.
      - rewrite map_size_insert_Some by (by eexists). done.
      - destruct (Hplayers sid p Hp) as (Hid & Hpos & Hexit).
        intros pid q. destruct (decide (pid = sid)) as [->|Hpid].
        + rewrite lookup_insert_eq. intros [= <-]. unfold player_ok. simpl.
          split_and!; try done. unfold empty_at.
          destruct (at2_in_dims _ _ _ (pl_x p + d.1) (pl_y p + d.2) Hdims) as [t Ht];
            [lia|lia|].
          rewrite Ht in Hwall |- *.
          destruct (Htiles _ _ _ Ht) as [->| ->]; [done|by destruct Hwall].
        + rewrite lookup_insert_ne by done. apply Hplayers. }
    split; [|intros ts]; intros k v Hin; by eapply Hrooms. }
  destruct Hok' as [Hok1 Hok2].
  case_bool_decide; intros [= <- _]; [apply Hok2|apply Hok1].
Qed.

Lemma disconnect_ok sid st st' out :
  server_wf st → server_ok st → disconnect sid st = Done (st', out) → server_ok st'.
Proof.
  intros [Hnd _] Hok E.
  destruct (disconnect_spec sid st Hnd) as (rs' & ch' & out' & E' & Hrs & _).
  rewrite E' in E. injection E as <- _. cbn.
  intros k v [Hin _]%Hrs. by eapply Hok.
Qed.

Lemma teardown_ok roomId st st' out :
  server_ok st → teardown roomId st = Done (st', out) → server_ok st'.
Proof.
  intros Hok. unfold teardown. intros [= <- _].
  intros k v [Hin _]%obj_delete_elem. by eapply Hok.
Qed.

Lemma run_timers_ok now st : server_ok st → server_ok (run_timers now st).
Proof.
  intros Hok. unfold run_timers.
  assert (Hok0 : server_ok (Server (waitingSocket st) (rooms st) (channels st)
                              (filter (λ t, ¬ due now t) (timers st)) (random st)))
    by exact Hok.
  revert Hok0. generalize (Server (waitingSocket st) (rooms st) (channels st)
                             (filter (λ t, ¬ due now t) (timers st)) (random st)).
  induction (filter (due now) (timers st)) as [|t l IH]; intros s Hs; [done|].
  simpl. apply IH. by eapply teardown_ok.
Qed.

Lemma handle_ok e st st' out :
  server_wf st → server_ok st → handle e st = Done (st', out) → server_ok st'.
Proof.
  intros Hwf Hok. destruct e; simpl.
  - by apply findMatch_ok.
  - by apply move_ok.
  - by apply disconnect_ok.
  - intros [= <- _]. by apply run_timers_ok.
Qed.

Lemma run_ok es : ∀ st st' out,
  server_wf st → server_ok st → run es st = Done (st', out) → server_ok st'.
Proof.
  induction es as [|e es IH]; intros st st' out Hwf Hok; simpl.
  - by intros [= <- _].
  - destruct (handle e st) as [[s1 o1]|] eqn:He; simpl; [|discriminate].
    destruct (run es s1) as [[s2 o2]|] eqn:Hrun; simpl; [|discriminate].
    intros [= <- _]. eapply IH; [| |exact Hrun].
    + by eapply handle_wf.
    + by eapply handle_ok.
Qed.

Lemma run_emitted es :
  run es (init_server sample_rng) ≠ Fail TypeError →
  run es (init_server sample_rng) ≠ Fail StackExhausted →
  run es (init_server sample_rng) ≠ Fail OutOfModel →
  run es (init_server sample_rng) = Done (state_after es, emitted_by es).
Proof.
  unfold state_after, emitted_by.
  destruct (run es (init_server sample_rng)) as [[st out]|[]]; done.
Qed.

(** X19.  In every state the server reaches from its start by match
    requests, moves, disconnects and timers, every registered room has a
    15×15 maze and exactly two players, each of them registered under its
    own id and standing on an empty tile inside the maze, with an empty tile
    as its goal. *)
Theorem reachable_rooms (es : list event) (r0 : rng) (st : server) (out : list emission)
    (roomId : string) (r : room) :
  run es (init_server r0) = Done (st, out) →
  obj_get (rooms st) roomId = Some r →
  maze_width (room_maze r) = 15 ∧ maze_height (room_maze r) = 15 ∧
  dims 15 15 (maze_grid (room_maze r)) ∧
  size (room_players r) = 2%nat ∧
  ∀ pid p, room_players r !! pid = Some p →
    pl_id p = pid ∧
    at2 (maze_grid (room_maze r)) (pl_x p) (pl_y p) = Some TILE_EMPTY ∧
    at2 (maze_grid (room_maze r)) (pl_exitX p) (pl_exitY p) = Some TILE_EMPTY.
Proof.
  intros Hrun Hr.
  pose proof (run_ok es _ _ _ (init_wf r0) (init_ok r0) Hrun) as Hok.
  destruct (Hok roomId r (obj_get_Some_elem _ _ _ Hr))
    as (Hmw & Hmh & Hdims & _ & Hsize & Hplayers).
  unfold MAZE_LOGICAL in Hmw, Hmh. simpl in Hmw, Hmh.
  rewrite Hmw, Hmh in Hdims. split_and!; try done.
Qed.

Lemma reachable_rooms_witness :
  run demo_won (init_server sample_rng) = Done (state_after demo_won, emitted_by demo_won) ∧
  obj_get (rooms (state_after demo_won)) demo_room = Some (default dummy_room (obj_get (rooms demo_win.1) demo_room)) ∧
  size (room_players (default dummy_room (obj_get (rooms demo_win.1) demo_room))) = 2%nat.
Proof.
  assert (H1 : run demo_won (init_server sample_rng)
               = Done (state_after demo_won, emitted_by demo_won))
    by (vm_compute; reflexivity).
  assert (H2 : obj_get (rooms (state_after demo_won)) demo_room
               = Some (default dummy_room (obj_get (rooms demo_win.1) demo_room)))
    by (vm_compute; reflexivity).
  split; [exact H1|]. split; [exact H2|].
  exact (proj1 (proj2 (proj2 (proj2
           (reachable_rooms demo_won sample_rng _ _ _ _ H1 H2))))).
Defined.

(** X20.  In every reachable state the room ids of the registry are
    pairwise distinct and the players of a registered room are members of
    its channel, so that a broadcast to the room reaches both. *)
Theorem reachable_channels (es : list event) (r0 : rng) (st : server) (out : list emission) :
  run es (init_server r0) = Done (st, out) →
  NoDup (rooms st).*1 ∧
  ∀ roomId r pid, obj_get (rooms st) roomId = Some r →
    is_Some (room_players r !! pid) → pid ∈ members (channels st) roomId.
Proof.
  intros Hrun.
  destruct (run_wf es _ _ _ (init_wf r0) Hrun) as [Hnd Hrooms].
  split; [done|]. intros roomId r pid Hr Hp.
  destruct (Hrooms roomId r (obj_get_Some_elem _ _ _ Hr)) as [_ Hdom].
  apply Hdom. by apply elem_of_dom.
Qed.

Lemma reachable_channels_witness :
  run demo_won (init_server sample_rng) = Done (state_after demo_won, emitted_by demo_won) ∧
  NoDup (rooms (state_after demo_won)).*1.
Proof.
  assert (H1 : run demo_won (init_server sample_rng)
               = Done (state_after demo_won, emitted_by demo_won))
    by (vm_compute; reflexivity).
  split; [exact H1|].
  exact (proj1 (reachable_channels demo_won sample_rng _ _ H1)).
Defined.
(** ** The client *)

(** X21.  The floor colour of a tile is always one of the eight colours of
    the palette, whatever the coordinates, negative ones included: the index
    never leaves the palette. *)
Theorem tileColorFor_palette (x y : Z) :
  ∃ colour, tileColorFor x y = Some colour ∧ colour ∈ PALETTE.
Proof.
  unfold tileColorFor.
  destruct (lookup_lt_is_Some_2 PALETTE
              (Z.to_nat (Z.abs (x * 31 + y * 17) `mod` Z.of_nat (length PALETTE))))
    as [colour Hc].
  { simpl length. pose proof (Z.mod_pos_bound (Z.abs (x * 31 + y * 17)) 8). lia. }
  exists colour. split; [done|]. by eapply list_elem_of_lookup_2.
Qed.

(** A loop that keeps an invariant of the values visited so far. *)
Lemma for_each_inv {A S} (I : list A → S → Prop) (body : A → S → result S) (l : list A) s :
  I [] s →
  (∀ visited a s, I visited s → a ∈ l →
     ∃ s', body a s = Done s' ∧ I (visited ++ [a]) s') →
  ∃ s', for_each l body s = Done s' ∧ I l s'.
Proof.
  intros H0 Hstep.
  assert (Hgen : ∀ todo visited s, visited ++ todo = l → I visited s →
            ∃ s', for_each todo body s = Done s' ∧ I l s').
  { induction todo as [|a todo IH]; intros visited s1 Hl Hs1.
    - rewrite app_nil_r in Hl. subst. by exists s1.
    - destruct (Hstep visited a s1 Hs1) as (s2 & E & Hs2).
      { rewrite <- Hl. apply elem_of_app. right. apply list_elem_of_here. }
      simpl. rewrite E, rbind_Done. apply (IH (visited ++ [a])); [|done].
      by rewrite <- app_assoc. }
  by apply (Hgen l []).
Qed.

Lemma for_each_skip {A S} (body : A → S → result S) (l : list A) s :
  (∀ a, a ∈ l → body a s = Done s) → for_each l body s = Done s.
Proof.
  induction l as [|a l IH]; intros Hbody; [done|].
  simpl. rewrite (Hbody a) by apply list_elem_of_here. rewrite rbind_Done.
  apply IH. intros b Hb. apply Hbody. by apply list_elem_of_further.
Qed.

Lemma elem_of_fog (d : Z) :
  d ∈ seqZ (- FOG_RADIUS) (2 * FOG_RADIUS + 1) ↔ Z.abs d ≤ FOG_RADIUS.
Proof. rewrite elem_of_seqZ. unfold FOG_RADIUS. lia. Qed.

Local Ltac split4 := split; [|split; [|split]].

Lemma revealAround_spec cx cy c v g :
  c_visible c = Some v → c_maze c = Some g → dims (c_mazeW c) (c_mazeH c) v →
  ∃ v', revealAround cx cy c = Done (with_visible v' c) ∧
        dims (c_mazeW c) (c_mazeH c) v' ∧
        ∀ x y, lit v' x y ↔ lit v x y ∨ in_window (c_mazeW c) (c_mazeH c) cx cy x y.
Proof.
  intros Hv Hg Hdims. unfold revealAround. rewrite Hv, Hg.
  set (W := c_mazeW c). set (H := c_mazeH c). fold W H in Hdims.
  set (ds := seqZ (- FOG_RADIUS) (2 * FOG_RADIUS + 1)).
  destruct (for_each_inv
    (λ rows v', dims W H v' ∧
       ∀ x y, lit v' x y ↔
              lit v x y ∨ ((0 ≤ x < W) ∧ (0 ≤ y < H) ∧ y - cy ∈ rows ∧ x - cx ∈ ds))
    (λ dy v0, for_each ds (λ dx v1,
       if bool_decide (0 ≤ cx + dx ∧ 0 ≤ cy + dy ∧ cx + dx < W ∧ cy + dy < H)
       then array2_set v1 (cx + dx) (cy + dy) true else Done v1) v0)
    ds v) as (v' & E & Hd' & Hlit).
  - split; [done|]. intros x y. split; [by left|].
    intros [?|(_ & _ & Hin & _)]; [done|]. by apply elem_of_nil in Hin.
  - intros rows dy v0 [Hd0 Hlit0] Hdy.
    destruct (for_each_inv
      (λ cols v1, dims W H v1 ∧
         ∀ x y, lit v1 x y ↔
                lit v0 x y ∨ ((0 ≤ x < W) ∧ (0 ≤ y < H) ∧ y - cy = dy ∧ x - cx ∈ cols))
      (λ dx v1,
         if bool_decide (0 ≤ cx + dx ∧ 0 ≤ cy + dy ∧ cx + dx < W ∧ cy + dy < H)
         then array2_set v1 (cx + dx) (cy + dy) true else Done v1)
      ds v0) as (v1 & E1 & Hd1 & Hlit1).
    + split; [done|]. intros x y. split; [by left|].
      intros [?|(_ & _ & _ & Hin)]; [done|]. by apply elem_of_nil in Hin.
    + intros cols dx v1 [Hd1 Hlit1] Hdx. case_bool_decide as Hin.
      * destruct (array2_set_spec W H v1 (cx + dx) (cy + dy) true Hd1) as (v2 & E2 & Hd2 & Hat);
          [lia|lia|].
        exists v2. split; [done|]. split; [done|].
        intros x y. unfold lit in *. rewrite Hat. case_decide as Hxy.
        -- split; [|done]. intros _. right. destruct Hxy as [-> ->].
           split4; try lia. apply elem_of_app. right.
           apply list_elem_of_singleton. lia.
        -- rewrite Hlit1. split.
           ++ intros [?|(? & ? & ? & Hc)]; [by left|right].
              split4; try done. apply elem_of_app. by left.
           ++ intros [?|(? & ? & ? & [Hc|Hc]%elem_of_app)]; [by left| |].
              ** right. by split4.
              ** apply list_elem_of_singleton in Hc. destruct Hxy. lia.
      * exists v1. split; [done|]. split; [done|].
        intros x y. rewrite Hlit1. split.
        -- intros [?|(? & ? & ? & Hc)]; [by left|right].
           split4; try done. apply elem_of_app. by left.
        -- intros [?|(? & ? & ? & [Hc|Hc]%elem_of_app)]; [by left| |].
           ++ right. by split4.
           ++ apply list_elem_of_singleton in Hc. destruct Hin. lia.
    + exists v1. split; [done|]. split; [done|].
      intros x y. rewrite Hlit1, Hlit0. split.
      * intros [[?|(? & ? & Hr & ?)]|(? & ? & Hr & ?)]; [by left|right..].
        -- split4; try done. apply elem_of_app. by left.
        -- split4; try done. apply elem_of_app. right.
           by apply list_elem_of_singleton.
      * intros [?|(? & ? & [Hr|Hr]%elem_of_app & ?)]; [by left; left| |].
        -- left. right. by split4.
        -- right. apply list_elem_of_singleton in Hr. by split4.
  - exists v'. rewrite E, rbind_Done. split; [done|]. split; [done|].
    intros x y. rewrite Hlit. unfold in_window, ds. rewrite !elem_of_fog. tauto.
Qed.

(** X22.  With a grid [visible] of the size of the maze, [revealAround]
    returns, changes nothing but [visible], keeps its size, and marks exactly
    the tiles of the board within two steps of the centre in both
    directions (the 5×5 window, cut at the border); every tile that was
    marked stays marked. *)
Theorem revealAround_window (cx cy : Z) (c : client) (v : list (list bool)) (g : grid) :
  c_visible c = Some v → c_maze c = Some g → dims (c_mazeW c) (c_mazeH c) v →
  ∃ v', revealAround cx cy c = Done (with_visible v' c) ∧
        dims (c_mazeW c) (c_mazeH c) v' ∧
        ∀ x y, at2 v' x y = Some true ↔
               at2 v x y = Some true ∨
               ((0 ≤ x < c_mazeW c) ∧ (0 ≤ y < c_mazeH c) ∧
                Z.abs (x - cx) ≤ 2 ∧ Z.abs (y - cy) ≤ 2).
Proof. apply revealAround_spec. Qed.

Lemma revealAround_window_witness :
  let c := Client None (Some (filled 4 3 TILE_EMPTY)) 4 3 ∅ None
                  (Some (filled 4 3 false)) false in
  ∃ v', revealAround 1 1 c = Done (with_visible v' c) ∧
        dims (c_mazeW c) (c_mazeH c) v' ∧
        ∀ x y, at2 v' x y = Some true ↔
               at2 (filled 4 3 false) x y = Some true ∨
               ((0 ≤ x < c_mazeW c) ∧ (0 ≤ y < c_mazeH c) ∧
                Z.abs (x - 1) ≤ 2 ∧ Z.abs (y - 1) ≤ 2).
Proof.
  intros c.
  apply (revealAround_window 1 1 c (filled 4 3 false) (filled 4 3 TILE_EMPTY));
    [reflexivity|reflexivity|apply filled_dims].
Defined.

Lemma reveal_me_spec c v g :
  c_visible c = Some v → c_maze c = Some g → dims (c_mazeW c) (c_mazeH c) v →
  ∃ v', reveal_me c = Done (with_visible v' c) ∧
        dims (c_mazeW c) (c_mazeH c) v' ∧
        ∀ x y, lit v' x y ↔
               lit v x y ∨
               ∃ p, c_players c !! my_key c = Some p ∧
                    in_window (c_mazeW c) (c_mazeH c) (cp_x p) (cp_y p) x y.
Proof.
  intros Hv Hg Hdims. unfold reveal_me.
  destruct (c_players c !! my_key c) as [p|] eqn:Hp.
  - destruct (revealAround_spec (cp_x p) (cp_y p) c v g Hv Hg Hdims) as (v' & E & Hd & Hlit).
    exists v'. split; [done|]. split; [done|]. intros x y. rewrite Hlit. split.
    + intros [?|?]; [by left|right]. by exists p.
    + intros [?|(q & [= <-] & ?)]; [by left|by right].
  - exists v. split; [|split; [done|]].
    + destruct c. simpl in *. by subst.
    + intros x y. split; [by left|]. by intros [?|(q & [=] & _)].
Qed.

Lemma lit_filled w h x y : ¬ lit (filled w h false) x y.
Proof. unfold lit. rewrite at2_filled. by case_decide. Qed.

Lemma on_matchFound_spec roomId (g : grid) (ps : gmap string player_view) c :
  let W := Z.of_nat (length (default [] (g !! 0%nat))) in
  let H := Z.of_nat (length g) in
  ∃ v', on_matchFound roomId g ps c =
        Done (Client (Some roomId) (Some g) W H (of_view <$> ps) (c_myId c) (Some v') false) ∧
        dims W H v' ∧
        ∀ x y, lit v' x y ↔
               ∃ p, ps !! my_key c = Some p ∧ in_window W H (pv_x p) (pv_y p) x y.
Proof.
  intros W H. unfold on_matchFound. fold W H.
  set (c1 := initVisible W H _).
  destruct (reveal_me_spec c1 (filled W H false) g eq_refl eq_refl (filled_dims W H false))
    as (v' & E & Hd & Hlit).
  exists v'. rewrite E, rbind_Done. split; [done|]. split; [done|].
  intros x y. rewrite Hlit. cbn [c1 initVisible with_visible c_players c_mazeW c_mazeH].
  replace (my_key _) with (my_key c) by done.
  rewrite lookup_fmap. split.
  - intros [Hl|(p & Hp & Hwin)]; [by apply lit_filled in Hl|].
    destruct (ps !! my_key c) as [q|]; simpl in Hp; [|done].
    injection Hp as <-. by exists q.
  - intros (q & Hq & Hwin). right. exists (of_view q). rewrite Hq. done.
Qed.

(** X23.  The [matchFound] handler always returns.  It takes the room id,
    the maze and the players from the payload, the maze size from the maze
    itself (number of rows, length of the first row), switches the full
    reveal off, and starts with a fresh grid [visible] of that size in which
    exactly the window around the client's own player is marked; nothing is
    marked when the payload has no player under the client's id. *)
Theorem matchFound_fog (roomId : string) (g : grid) (width height : Z)
    (ps : gmap string player_view) (c : client) :
  ∃ c' v,
    on_message (MatchFound roomId g width height ps) c = Done c' ∧
    c_roomId c' = Some roomId ∧ c_maze c' = Some g ∧
    c_mazeH c' = Z.of_nat (length g) ∧
    c_mazeW c' = Z.of_nat (length (default [] (g !! 0%nat))) ∧
    c_myId c' = c_myId c ∧ c_revealAll c' = false ∧
    c_visible c' = Some v ∧ dims (c_mazeW c') (c_mazeH c') v ∧
    ∀ x y, at2 v x y = Some true ↔
           ∃ p, ps !! my_key c = Some p ∧
                (0 ≤ x < c_mazeW c') ∧ (0 ≤ y < c_mazeH c') ∧
                Z.abs (x - pv_x p) ≤ 2 ∧ Z.abs (y - pv_y p) ≤ 2.
Proof.
  destruct (on_matchFound_spec roomId g ps c) as (v & E & Hd & Hlit).
  eexists _, v. split; [exact E|]. cbn. split_and!; try done.
Qed.

Lemma dims_first_row_length (w h : Z) (a : grid) :
  0 < h → 0 ≤ w → dims w h a →
  Z.of_nat (length a) = h ∧ Z.of_nat (length (default [] (a !! 0%nat))) = w.
Proof.
  intros Hh Hw [Hlen Hrows]. split; [lia|].
  destruct a as [|row a]; simpl in *; [lia|].
  apply Forall_cons in Hrows as [Hrow _]. lia.
Qed.

(** X24.  Server and client together: when the server pairs two sockets,
    the first message it emits is the [matchFound] message, addressed to
    both; the client of either socket handles it without error, now knows
    the room id and the maze of the registered room, and sees exactly the
    tiles of the 15×15 board that are within two steps of its own spawn. *)
Theorem pairing_reveals_spawn (sid wid me : string) (now : Z) (st st' : server)
    (out : list emission) (c : client) :
  waitingSocket st = Some wid → wid ≠ sid →
  findMatch sid now st = Done (st', out) →
  me = wid ∨ me = sid → c_myId c = Some me →
  ∃ to roomId g w h ps rest r p c' v,
    out = Emit to (MatchFound roomId g w h ps) :: rest ∧ me ∈ to ∧
    obj_get (rooms st') roomId = Some r ∧ room_players r !! me = Some p ∧
    on_message (MatchFound roomId g w h ps) c = Done c' ∧
    c_roomId c' = Some roomId ∧ c_maze c' = Some (maze_grid (room_maze r)) ∧
    c_revealAll c' = false ∧ c_visible c' = Some v ∧ dims 15 15 v ∧
    ∀ x y, at2 v x y = Some true ↔
           (0 ≤ x < 15) ∧ (0 ≤ y < 15) ∧
           Z.abs (x - pl_x p) ≤ 2 ∧ Z.abs (y - pl_y p) ≤ 2.
Proof.
  intros Hw Hne Hfind Hme Hid.
  destruct (findMatch_pairs sid wid now st Hw Hne)
    as (m & r1 & a & b & tries & r2 & _ & _ & Hmw & Hmh & Hd & _ & _ & E).
  cbv zeta in E. rewrite E in Hfind. injection Hfind as <- <-.
  destruct (dims_first_row_length 15 15 (maze_grid m)) as [HH HW]; [lia|lia|done|].
  set (roomId := makeRoomId wid sid now).
  set (pA := Player wid a.1 a.2 "#34ff72" b.1 b.2).
  set (pB := Player sid b.1 b.2 "#ff4d9e" a.1 a.2).
  set (ps := <[sid := view pB]> (<[wid := view pA]> ∅) : gmap string player_view).
  destruct (on_matchFound_spec roomId (maze_grid m) ps c) as (v & Ec & Hdv & Hlit).
  cbv zeta in Ec, Hdv, Hlit. rewrite HH, HW in Ec, Hdv, Hlit.
  assert (Hkey : my_key c = me) by (unfold my_key; by rewrite Hid).
  rewrite Hkey in Hlit.
  assert (Hp : ∃ p, (<[sid := pB]> (<[wid := pA]> ∅) : gmap string player) !! me = Some p ∧
                    ps !! me = Some (view p)).
  { destruct Hme as [-> | ->].
    - exists pA. unfold ps.
      rewrite !(lookup_insert_ne _ sid wid) by congruence.
      by rewrite !lookup_insert_eq.
    - exists pB. unfold ps. by rewrite !lookup_insert_eq. }
  destruct Hp as (p & Hp & Hps).
  eexists _, roomId, (maze_grid m), 15, 15, ps, _, _, p, _, v.
  split; [reflexivity|]. cbn [rooms].
  split.
  { rewrite members_join_same, members_join_same.
    destruct Hme as [-> | ->].
    - apply elem_of_union. right. apply elem_of_union. left. by apply elem_of_singleton.
    - apply elem_of_union. left. by apply elem_of_singleton. }
  split; [apply obj_get_set_eq|].
  split; [exact Hp|].
  split; [exact Ec|].
  do 4 (split; [reflexivity|]).
  split; [exact Hdv|].
  intros x y. pose proof (Hlit x y) as Hxy. revert Hxy. unfold lit, in_window, FOG_RADIUS.
  intros ->. split.
  - intros (q & Hq & Hwin). rewrite Hps in Hq. injection Hq as <-. exact Hwin.
  - intros Hwin. exists (view p). split; [done|exact Hwin].
Qed.

Lemma pairing_reveals_spawn_witness :
  findMatch "B" 1001 (state_after [EvFindMatch "A" 1000])
  = Done (demo_pairing.1, demo_pairing.2) ∧
  ∃ to roomId g w h ps rest r p c' v,
    demo_pairing.2 = Emit to (MatchFound roomId g w h ps) :: rest ∧ "A" ∈ to ∧
    obj_get (rooms demo_pairing.1) roomId = Some r ∧ room_players r !! "A" = Some p ∧
    on_message (MatchFound roomId g w h ps) demo_client = Done c' ∧
    c_roomId c' = Some roomId ∧ c_maze c' = Some (maze_grid (room_maze r)) ∧
    c_revealAll c' = false ∧ c_visible c' = Some v ∧ dims 15 15 v ∧
    ∀ x y, at2 v x y = Some true ↔
           (0 ≤ x < 15) ∧ (0 ≤ y < 15) ∧
           Z.abs (x - pl_x p) ≤ 2 ∧ Z.abs (y - pl_y p) ≤ 2.
Proof.
  assert (Hw : waitingSocket (state_after [EvFindMatch "A" 1000]) = Some "A")
    by (vm_compute; reflexivity).
  assert (Hne : "A" ≠ "B") by discriminate.
  assert (Hfind : findMatch "B" 1001 (state_after [EvFindMatch "A" 1000])
                  = Done (demo_pairing.1, demo_pairing.2)) by (vm_compute; reflexivity).
  split; [exact Hfind|].
  exact (pairing_reveals_spawn "B" "A" "A" 1001 _ _ _ demo_client Hw Hne Hfind
           (or_introl eq_refl) eq_refl).
Defined.

(** *** State messages *)

Lemma state_loop_spec (l : list (string * player_view)) :
  NoDup l.*1 →
  ∀ ps : gmap string client_player,
    (∀ kv, kv ∈ l → is_Some (ps !! kv.1) ∨ kv.1 ∉ object_prototype_keys) →
    ∃ ps',
      for_each l (λ kv ps,
        match ps !! kv.1 with
        | Some old => Done (<[kv.1 := merge_view (Some old) kv.2]> ps)
        | None =>
            if bool_decide (kv.1 ∈ object_prototype_keys) then Fail OutOfModel
            else Done (<[kv.1 := merge_view None kv.2]> ps)
        end) ps = Done ps' ∧
      (∀ k s, (k, s) ∈ l → ps' !! k = Some (merge_view (ps !! k) s)) ∧
      (∀ k, k ∉ l.*1 → ps' !! k = ps !! k).
Proof.
  induction l as [|[k s] l IH]; intros Hnd ps Hkeys.
  - exists ps. split; [done|]. split; [|done].
    intros k s Hin. by apply elem_of_nil in Hin.
  - rewrite fmap_cons in Hnd. apply NoDup_cons in Hnd as [Hk Hnd]. simpl in Hk.
    set (ps1 := <[k := merge_view (ps !! k) s]> ps).
    destruct (IH Hnd ps1) as (ps' & E & Hin' & Hout').
    { intros kv Hkv.
      assert (kv.1 ≠ k).
      { intros <-. apply Hk. apply list_elem_of_fmap. by exists kv. }
      unfold ps1. rewrite lookup_insert_ne by done.
      apply Hkeys. by apply list_elem_of_further. }
    exists ps'. split.
    { cbn [for_each fst snd].
      destruct (ps !! k) as [old|] eqn:Hold.
      - rewrite rbind_Done. exact E.
      - destruct (Hkeys (k, s) (list_elem_of_here _ _)) as [[? Hs]|Hn]; simpl in *.
        + congruence.
        + rewrite bool_decide_eq_false_2 by done. rewrite rbind_Done. exact E. }
    split.
    + intros k' s' [[= -> ->]|Hin]%elem_of_cons.
      * rewrite Hout' by done. unfold ps1. by rewrite lookup_insert_eq.
      * assert (k' ≠ k).
        { intros ->. apply Hk. apply list_elem_of_fmap. by exists (k, s'). }
        rewrite (Hin' _ _ Hin). unfold ps1. by rewrite lookup_insert_ne.
    + intros k' Hk'. rewrite fmap_cons in Hk'. simpl in Hk'.
      apply not_elem_of_cons in Hk' as [Hne Hk'].
      rewrite Hout' by done. unfold ps1. by rewrite lookup_insert_ne.
Qed.

Lemma on_state_players (state : gmap string player_view) (c : client) :
  (∀ pid s, state !! pid = Some s →
            is_Some (c_players c !! pid) ∨ pid ∉ object_prototype_keys) →
  ∃ ps',
    on_state state c =
      (let c1 := Client (c_roomId c) (c_maze c) (c_mazeW c) (c_mazeH c) ps' (c_myId c)
                        (c_visible c) (c_revealAll c) in
       if c_revealAll c then Done c1 else reveal_me c1) ∧
    ∀ pid, ps' !! pid = match state !! pid with
                        | Some s => Some (merge_view (c_players c !! pid) s)
                        | None => c_players c !! pid
                        end.
Proof.
  intros Hkeys.
  destruct (state_loop_spec (map_to_list state) (NoDup_fst_map_to_list state) (c_players c))
    as (ps' & E & Hin & Hout).
  { intros [k s] Hkv%elem_of_map_to_list. by eapply Hkeys. }
  exists ps'. split.
  - unfold on_state. rewrite E, rbind_Done. done.
  - intros pid. destruct (state !! pid) as [s|] eqn:Hs.
    + apply Hin. by apply elem_of_map_to_list.
    + apply Hout. intros ([k s] & -> & Hkv%elem_of_map_to_list)%list_elem_of_fmap.
      simpl in Hs. congruence.
Qed.

Lemma on_state_spec (state : gmap string player_view) (c : client)
    (v : list (list bool)) (g : grid) :
  (∀ pid s, state !! pid = Some s → pid ∉ object_prototype_keys) →
  c_visible c = Some v → c_maze c = Some g → dims (c_mazeW c) (c_mazeH c) v →
  ∃ c' v',
    on_message (State state) c = Done c' ∧
    c_roomId c' = c_roomId c ∧ c_maze c' = c_maze c ∧
    c_mazeW c' = c_mazeW c ∧ c_mazeH c' = c_mazeH c ∧
    c_myId c' = c_myId c ∧ c_revealAll c' = c_revealAll c ∧
    (∀ pid, c_players c' !! pid =
            match state !! pid with
            | Some s => Some (merge_view (c_players c !! pid) s)
            | None => c_players c !! pid
            end) ∧
    c_visible c' = Some v' ∧ dims (c_mazeW c) (c_mazeH c) v' ∧
    (∀ x y, at2 v x y = Some true → at2 v' x y = Some true) ∧
    if c_revealAll c then v' = v
    else ∀ x y, at2 v' x y = Some true ↔
                at2 v x y = Some true ∨
                ∃ p, c_players c' !! my_key c = Some p ∧
                     (0 ≤ x < c_mazeW c) ∧ (0 ≤ y < c_mazeH c) ∧
                     Z.abs (x - cp_x p) ≤ 2 ∧ Z.abs (y - cp_y p) ≤ 2.
Proof.
  intros Hkeys Hv Hg Hdims.
  destruct (on_state_players state c) as (ps' & E & Hps).
  { intros pid s Hs. right. by eapply Hkeys. }
  cbn [on_message]. rewrite E. cbv zeta.
  destruct (c_revealAll c) eqn:Hall.
  - eexists _, v. split; [reflexivity|]. cbn. by split_and!.
  - set (c1 := Client _ _ _ _ ps' _ _ _).
    destruct (reveal_me_spec c1 v g Hv Hg Hdims) as (v' & E' & Hd' & Hlit).
    exists (with_visible v' c1), v'. split; [exact E'|]. cbn.
    split_and!; try done.
    all: intros x y Hxy; apply Hlit; by left.
Qed.

Lemma array2_get_row {A} (a : list (list A)) x y :
  0 ≤ y < Z.of_nat (length a) → ∃ t, array2_get a x y = Done t.
Proof.
  intros Hy. unfold array2_get. rewrite bool_decide_eq_true_2 by lia.
  destruct (lookup_lt_is_Some_2 a (Z.to_nat y)) as [row ->]; [lia|]. by eexists.
Qed.

(** [draw] returns when the maze has a row for every row of the board. *)
Lemma draw_rows sized c : maze_rows_ok c → draw sized c = Done tt.
Proof.
  intros Hrows. unfold draw. destruct sized; [|done]. simpl.
  destruct (c_maze c) as [g|] eqn:Hg; [|done].
  destruct g as [|row g']; [done|].
  specialize (Hrows _ Hg).
  apply for_each_skip. intros y Hy%elem_of_seqZ.
  apply for_each_skip. intros x _.
  destruct (isVisible c x y); [|done].
  destruct (array2_get_row (row :: g') x y) as [t ->]; [lia|]. done.
Qed.

(** X25.  On a client whose maze has a row for every row of the board, a
    [state] message whose keys are socket ids is handled without error, the
    final [draw()] included.  Every player of the message gets the position
    of the message (and keeps its colour when the message has none), the
    other players and the room id, the maze and its size stay; unless the
    full reveal is on, the tiles within two steps of the client's own
    player, at its new position, are marked in addition to those that were
    marked, and no tile is ever unmarked. *)
Theorem state_reveals (sized : bool) (state : gmap string player_view) (c : client)
    (v : list (list bool)) (g : grid) :
  (∀ pid s, state !! pid = Some s → pid ∉ object_prototype_keys) →
  c_visible c = Some v → c_maze c = Some g → dims (c_mazeW c) (c_mazeH c) v →
  c_mazeH c ≤ Z.of_nat (length g) →
  ∃ c' v',
    deliver sized (State state) c = Done c' ∧
    c_roomId c' = c_roomId c ∧ c_maze c' = c_maze c ∧
    c_mazeW c' = c_mazeW c ∧ c_mazeH c' = c_mazeH c ∧
    c_myId c' = c_myId c ∧ c_revealAll c' = c_revealAll c ∧
    (∀ pid, c_players c' !! pid =
            match state !! pid with
            | Some s => Some (merge_view (c_players c !! pid) s)
            | None => c_players c !! pid
            end) ∧
    c_visible c' = Some v' ∧ dims (c_mazeW c) (c_mazeH c) v' ∧
    (∀ x y, at2 v x y = Some true → at2 v' x y = Some true) ∧
    if c_revealAll c then v' = v
    else ∀ x y, at2 v' x y = Some true ↔
                at2 v x y = Some true ∨
                ∃ p, c_players c' !! my_key c = Some p ∧
                     (0 ≤ x < c_mazeW c) ∧ (0 ≤ y < c_mazeH c) ∧
                     Z.abs (x - cp_x p) ≤ 2 ∧ Z.abs (y - cp_y p) ≤ 2.
Proof.
  intros Hkeys Hv Hg Hdims Hrows.
  destruct (on_state_spec state c v g Hkeys Hv Hg Hdims)
    as (c' & v' & E & H1 & Hm & H3 & Hh & H5 & H6 & H7 & H8 & H9 & H10 & H11).
  exists c', v'. split; [|by split_and!].
  unfold deliver. rewrite E, rbind_Done.
  rewrite (draw_rows sized c'); [done|].
  intros g' Hg'. rewrite Hm, Hg in Hg'. injection Hg' as <-. by rewrite Hh.
Qed.

Lemma state_reveals_witness :
  let c := Client (Some "r") (Some (filled 4 3 TILE_EMPTY)) 4 3 ∅ (Some "A")
                  (Some (filled 4 3 false)) false in
  let state : gmap string player_view := {[ "A" := PlayerView 1 1 "" 3 2 ]} in
  ∃ c' v',
    deliver true (State state) c = Done c' ∧
    c_roomId c' = c_roomId c ∧ c_maze c' = c_maze c ∧
    c_mazeW c' = c_mazeW c ∧ c_mazeH c' = c_mazeH c ∧
    c_myId c' = c_myId c ∧ c_revealAll c' = c_revealAll c ∧
    (∀ pid, c_players c' !! pid =
            match state !! pid with
            | Some s => Some (merge_view (c_players c !! pid) s)
            | None => c_players c !! pid
            end) ∧
    c_visible c' = Some v' ∧ dims (c_mazeW c) (c_mazeH c) v' ∧
    (∀ x y, at2 (filled 4 3 false) x y = Some true → at2 v' x y = Some true) ∧
    if c_revealAll c then v' = filled 4 3 false
    else ∀ x y, at2 v' x y = Some true ↔
                at2 (filled 4 3 false) x y = Some true ∨
                ∃ p, c_players c' !! my_key c = Some p ∧
                     (0 ≤ x < c_mazeW c) ∧ (0 ≤ y < c_mazeH c) ∧
                     Z.abs (x - cp_x p) ≤ 2 ∧ Z.abs (y - cp_y p) ≤ 2.
Proof.
  intros c state.
  apply (state_reveals true state c (filled 4 3 false) (filled 4 3 TILE_EMPTY)).
  - intros pid s Hs. unfold state in Hs.
    apply lookup_singleton_Some in Hs as [<- _].
    apply (bool_decide_unpack _). vm_compute. exact I.
  - reflexivity.
  - reflexivity.
  - apply filled_dims.
  - simpl. lia.
Defined.

(** *** The client never throws *)

Lemma revealAround_off_board cx cy c :
  c_mazeW c = 0 → c_mazeH c = 0 → revealAround cx cy c = Done c.
Proof.
  intros HW HH. unfold revealAround.
  destruct (c_visible c) as [v|] eqn:Hv; [|done].
  destruct (c_maze c) as [g|] eqn:Hg; [|done].
  rewrite for_each_skip.
  - rewrite rbind_Done. destruct c. simpl in *. by subst.
  - intros dy _. apply for_each_skip. intros dx _.
    rewrite bool_decide_eq_false_2; [done|lia].
Qed.

Lemma reveal_me_wf c :
  client_wf c →
  ∃ c', reveal_me c = Done c' ∧ client_wf c' ∧ c_revealAll c' = c_revealAll c ∧
        c_maze c' = c_maze c ∧ c_mazeH c' = c_mazeH c.
Proof.
  unfold client_wf. intros Hwf.
  destruct (c_visible c) as [v|] eqn:Hv.
  - destruct Hwf as [Hdims|[HW HH]].
    + destruct (c_maze c) as [g|] eqn:Hg.
      * destruct (reveal_me_spec c v g Hv Hg Hdims) as (v' & E & Hd & _).
        exists (with_visible v' c). split; [done|]. simpl. split; [by left|done].
      * exists c. split; [|rewrite Hv; split; [by left|done]].
        unfold reveal_me, revealAround. rewrite Hv, Hg. by destruct (_ !! _).
    + exists c. split; [|rewrite Hv; split; [by right|done]].
      unfold reveal_me. destruct (_ !! _); [|done]. by apply revealAround_off_board.
  - exists c. split; [|by rewrite Hv].
    unfold reveal_me, revealAround. rewrite Hv. by destruct (_ !! _).
Qed.

Lemma client_ok_rows h c : client_ok h c → maze_rows_ok c.
Proof. intros (_ & Hle & Hrows) g Hg. rewrite (Hrows g Hg). exact Hle. Qed.

Lemma on_message_ok h sized m c :
  client_ok h c → event_ok h (CMessage sized m) →
  ∃ c', on_message m c = Done c' ∧ client_ok h c'.
Proof.
  intros (Hwf & Hle & Hrows) Hok.
  destruct m as [text|roomId g w h' ps|ps|winner colour|g|]; cbn [on_message].
  - by exists c.
  - destruct (on_matchFound_spec roomId g ps c) as (v & E & Hd & _).
    simpl in Hok. eexists. split; [exact E|].
    split; [by left|]. cbn. split; [lia|]. by intros g' [= <-].
  - destruct (on_state_players ps c) as (ps' & E & _).
    { intros pid s Hs. right. by apply (Hok pid s). }
    rewrite E. cbv zeta.
    set (c1 := Client _ _ _ _ ps' _ _ _).
    assert (Hwf1 : client_wf c1) by exact Hwf.
    destruct (c_revealAll c); [by exists c1|].
    destruct (reveal_me_wf c1 Hwf1) as (c' & E' & Hwf' & _ & Hm' & Hh').
    exists c'. split; [done|]. split; [done|]. rewrite Hm', Hh'. by split.
  - by exists (on_gameOver c).
  - destruct Hok as [Hne Hlen]. unfold on_revealMaze. cbn [c_visible].
    unfold client_wf in Hwf. destruct (c_visible c) as [v|] eqn:Hv.
    + rewrite rbind_Done. eexists. split; [done|].
      unfold client_ok, client_wf. cbn.
      split; [exact Hwf|]. split; [done|]. by intros g' [= <-].
    + destruct g as [|row g]; [done|]. rewrite rbind_Done.
      eexists. split; [done|]. unfold client_ok, client_wf. cbn.
      split; [by right|]. split; [done|]. by intros g' [= <-].
  - by exists (on_opponentDisconnected c).
Qed.

Lemma client_handle_ok h e c :
  client_ok h c → event_ok h e → ∃ c', client_handle e c = Done c' ∧ client_ok h c'.
Proof.
  intros Hc Hok. destruct e as [id|sized m]; [by exists (on_connect id c)|].
  destruct (on_message_ok h sized m c Hc Hok) as (c' & E & Hc').
  exists c'. split; [|done]. cbn [client_handle]. unfold deliver.
  rewrite E, rbind_Done.
  rewrite (draw_rows sized c' (client_ok_rows h c' Hc')). by destruct m.
Qed.

(** X26.  The handlers of the client, each with the [draw()] that ends it,
    never throw on what a server sends whose mazes all have the same number
    [h] of rows: from a state in which the grid [visible] has the size of
    the board and the maze, if there is one, has [h] rows, as at the start,
    every sequence of [connect] events and messages, in any order and
    whether or not the canvas has a size, with socket ids as the keys of
    state messages and mazes of [h] rows (a revealed maze at least one), is
    handled to the end, and leaves such a state. *)
Theorem client_never_throws (h : Z) (es : list client_event) (c : client) :
  client_ok h c → Forall (event_ok h) es →
  ∃ c', client_run es c = Done c' ∧ client_ok h c'.
Proof.
  revert c. induction es as [|e es IH]; intros c Hc Hok; [by exists c|].
  apply Forall_cons in Hok as [He Hes].
  destruct (client_handle_ok h e c Hc He) as (c1 & E1 & Hc1).
  simpl. rewrite E1, rbind_Done. by apply IH.
Qed.

Lemma client_never_throws_witness :
  client_ok 15 init_client ∧ Forall (event_ok 15) demo_inbox ∧
  ∃ c', client_run demo_inbox init_client = Done c' ∧ client_ok 15 c'.
Proof.
  assert (Hc : client_ok 15 init_client).
  { split; [split; reflexivity|]. split; [simpl; lia|]. intros g Hg. discriminate Hg. }
  assert (Hok : Forall (event_ok 15) demo_inbox).
  { apply (bool_decide_unpack _). vm_compute. exact I. }
  split; [exact Hc|]. split; [exact Hok|].
  exact (client_never_throws 15 demo_inbox init_client Hc Hok).
Defined.

(** A revealed maze with fewer rows than the board makes [draw] throw: the
    input the hypothesis on the mazes excludes. *)
Example short_maze_throws :
  client_run [CConnect "A";
              CMessage true (MatchFound "r" (filled 3 3 TILE_EMPTY) 3 3
                               {[ "A" := PlayerView 1 1 "#34ff72" 2 2 ]});
              CMessage true (RevealMaze [[0]])] init_client
  = Fail TypeError.
Proof. vm_compute. reflexivity. Qed.

(** *** Keyboard moves *)

Lemma keyMap_deltas code dir :
  obj_get keyMap code = Some dir → dir ≠ "" ∧ is_Some (obj_get deltas dir).
Proof.
  unfold keyMap. simpl.
  repeat (case_decide; [intros [= <-]; split; [done|by eexists]|]). done.
Qed.

Lemma move_returns sid roomId dir now st :
  server_wf st → roomId ∉ object_prototype_keys → is_Some (obj_get deltas dir) →
  ∃ st' out, move sid roomId dir now st = Done (st', out).
Proof.
  intros [Hnd Hrooms] Hkey [d Hd]. unfold move.
  destruct (obj_lookup_cases (rooms st) roomId)
    as [(r & Hr & ->)|[(Hr & Hk & ->)|(Hr & Hk & ->)]]; [|done|by eexists _, _].
  destruct (room_players r !! sid) as [p|]; [|by eexists _, _].
  rewrite (obj_lookup_own _ _ _ Hd).
  case_bool_decide as Hout; [by eexists _, _|].
  destruct (Hrooms roomId r (obj_get_Some_elem _ _ _ Hr)) as [Hdims _].
  rewrite (array2_get_spec _ _ _ _ _ Hdims) by lia. rewrite rbind_Done.
  case_bool_decide; [by eexists _, _|].
  case_bool_decide; by eexists _, _.
Qed.

(** X27.  Client and server together: when a client that is in a room made
    by the server handles a key press and emits a move, the room id of the
    payload is that room id, the direction is one of the four tokens of the
    server, and the move handler of the server, in any well-formed state
    and for any sender, returns: a key press never makes the server
    throw. *)
Theorem keyboard_move_safe (code rid dir sid a b : string) (t now : Z)
    (c : client) (st : server) :
  server_wf st →
  c_roomId c = Some (makeRoomId a b t) →
  keydown code c = Done (Some (rid, dir)) →
  rid = makeRoomId a b t ∧ is_Some (obj_get deltas dir) ∧
  ∃ st' out, move sid rid dir now st = Done (st', out).
Proof.
  intros Hwf Hroom. unfold keydown. rewrite Hroom.
  destruct (obj_lookup_cases keyMap code)
    as [(d & Hd & ->)|[(Hd & Hk & ->)|(Hd & Hk & ->)]]; [|done|done].
  destruct (keyMap_deltas code d Hd) as [Hne Hdelta].
  case_bool_decide; [|done]. intros [= <- <-].
  split; [done|]. split; [done|].
  apply move_returns; [done|apply makeRoomId_not_inherited|done].
Qed.

Lemma keyboard_move_safe_witness :
  server_wf (state_after demo_paired) ∧
  rooms (state_after demo_paired) ≠ [] ∧
  makeRoomId "A" "B" 1001 = makeRoomId "A" "B" 1001 ∧
  is_Some (obj_get deltas "left") ∧
  ∃ st' out, move "A" (makeRoomId "A" "B" 1001) "left" 2000 (state_after demo_paired)
             = Done (st', out).
Proof.
  split; [apply state_after_wf|].
  split; [vm_compute; discriminate|].
  apply (keyboard_move_safe "KeyA" _ "left" "A" "A" "B" 1001 2000
           (Client (Some (makeRoomId "A" "B" 1001)) None 0 0 ∅ (Some "A") None false)
           (state_after demo_paired) (state_after_wf demo_paired));
    [reflexivity|vm_compute; reflexivity].
Defined.

(** *** What [draw] shows *)

(** X28.  After a [state] message that contains the client's own player at
    a position on the board, [draw] shows the tile the player stands on; and
    every tile that [draw] showed before the message is still shown. *)
Theorem own_tile_shown (state : gmap string player_view) (c : client)
    (v : list (list bool)) (g : grid) (s : player_view) :
  (∀ pid s, state !! pid = Some s → pid ∉ object_prototype_keys) →
  c_visible c = Some v → c_maze c = Some g → dims (c_mazeW c) (c_mazeH c) v →
  state !! my_key c = Some s →
  0 ≤ pv_x s < c_mazeW c → 0 ≤ pv_y s < c_mazeH c →
  ∃ c', on_message (State state) c = Done c' ∧
        isVisible c' (pv_x s) (pv_y s) = true ∧
        ∀ x y, isVisible c x y = true → isVisible c' x y = true.
Proof.
  intros Hkeys Hv Hg Hdims Hs Hx Hy.
  destruct (on_state_spec state c v g Hkeys Hv Hg Hdims)
    as (c' & v' & E & _ & _ & _ & _ & Hid & Hall & Hps & Hv' & _ & Hmono & Hlit).
  exists c'. split; [exact E|].
  assert (Hkey : my_key c' = my_key c) by (unfold my_key; by rewrite Hid).
  assert (Hme : c_players c' !! my_key c' = Some (merge_view (c_players c !! my_key c) s)).
  { by rewrite Hkey, Hps, Hs. }
  unfold isVisible. rewrite Hme, Hv', Hall, Hv.
  rewrite (bool_decide_eq_true_2 (is_Some (Some _) ∨ _)) by (left; by eexists).
  split.
  - destruct (c_revealAll c); [done|]. simpl.
    apply bool_decide_eq_true_2, Hlit. right.
    eexists. rewrite <- Hkey. split; [exact Hme|]. simpl. lia.
  - intros x y [_ Hshown]%andb_true_iff. simpl.
    destruct (c_revealAll c); [done|]. simpl in *.
    apply bool_decide_eq_true_2, Hmono. by apply bool_decide_eq_true_1 in Hshown.
Qed.

Lemma own_tile_shown_witness :
  let c := Client (Some "r") (Some (filled 4 3 TILE_EMPTY)) 4 3 ∅ (Some "A")
                  (Some (filled 4 3 false)) false in
  let state : gmap string player_view := {[ "A" := PlayerView 1 2 "" 3 2 ]} in
  ∃ c', on_message (State state) c = Done c' ∧
        isVisible c' 1 2 = true ∧
        ∀ x y, isVisible c x y = true → isVisible c' x y = true.
Proof.
  intros c state.
  apply (own_tile_shown state c (filled 4 3 false) (filled 4 3 TILE_EMPTY)
           (PlayerView 1 2 "" 3 2)).
  - intros pid s Hs. unfold state in Hs.
    apply lookup_singleton_Some in Hs as [<- _].
    apply (bool_decide_unpack _). vm_compute. exact I.
  - reflexivity.
  - reflexivity.
  - apply filled_dims.
  - reflexivity.
  - simpl. lia.
  - simpl. lia.
Defined.
